(** * MBDataSyncProcess: the product synchronisation engine of
      [MBPRoductSyncSample.go], embedded in Rocq.

    The Go program reconciles a product feed against a SQLite table
    [products] and an external document store.  Everything the program
    touches outside its own memory (the table, the local file system, the
    HTTP endpoint, the headless browser, the clock, the console) is
    gathered in a record [World]; every Go function becomes a function in
    a state monad over [World].  What the environment answers (a busy
    database, an HTTP status, a scraping failure) is read from scripts
    carried by the world, so every theorem quantifies over all of them. *)

From Stdlib Require Import List String Ascii ZArith Lia Bool PrimFloat.
From Stdlib Require Import DecimalString.
From Stdlib Require Import Permutation.
Import ListNotations.
Local Open Scope string_scope.
Local Open Scope list_scope.
Local Open Scope Z_scope.

Set Implicit Arguments.

(** ** Constants (source lines 25-32) *)

Definition folderPath : string := "./product".
Definition dbFileName : string := "products.db".
Definition datasetGUID : string := "guid".
Definition authToken : string := "token".
Definition maxWorkers : Z := 5.
Definition maxRetries : Z := 5.

(** Go's [float64]; [==] on it is IEEE equality, [PrimFloat.eqb]. *)
Definition float64 : Set := PrimFloat.float.
Definition float64_eq (a b : float64) : bool := PrimFloat.eqb a b.

(** ** Data model (source lines 42-62) *)

Module Item.
Record t : Set := mk {
  ID : string;
  Title : string;
  Description : string;
  Price : float64;
  Link : string;
  ImageLink : string;
  Brand : string;
  MPN : string;
  GTIN : string;
  Availability : string;
  Condition : string;
  Inventory : Z
}.
End Item.

Module Product.
Record t : Set := mk {
  UniqueCode : string;
  Price : float64;
  MPN : string;
  Status : string
}.
End Product.

(** ** Errors

    A Go [error] value.  [sqlite3_Error] is the driver's typed error with
    its result code; [fmt_Errorf] keeps the format string of the call that
    built it with its printed arguments, [fmt_Errorf_w] also the error that
    a [%w] or [%v] verb of the format refers to. *)

Inductive ErrNo : Set :=
| ErrBusy
| ErrLocked
| ErrConstraint
| ErrIoErr
| ErrFull.

Inductive Errno : Set :=
| ENOENT
| EACCES
| ENOSPC.

Inductive error : Set :=
| sqlite3_Error (Code : ErrNo)
| sql_ErrNoRows
| os_error (errno : Errno)
| net_error (msg : string)
| chromedp_error (msg : string)
| fmt_Errorf (format : string) (args : list string)
| fmt_Errorf_w (format : string) (args : list string) (wrapped : error).

(** The verb [%d] of an integer. *)
Definition itoa (n : Z) : string := NilZero.string_of_int (Z.to_int n).

(** The type assertion and test of source line 187. *)
Definition is_busy_or_locked (err : error) : bool :=
  match err with
  | sqlite3_Error ErrBusy => true
  | sqlite3_Error ErrLocked => true
  | _ => false
  end.

(** ** The statements sent to the database

    The program sends three statements through [db.Exec]; each constructor
    stands for one query text with its bound arguments. *)

Inductive Stmt : Set :=
| MarkAllDeleted
| InsertRow (product : Product.t)
| UpdateRow (status : string) (price : float64) (uniqueCode : string).

Definition sql_text (q : Stmt) : string :=
  match q with
  | MarkAllDeleted => "UPDATE products SET status = 'deleted'"
  | InsertRow _ =>
      "INSERT INTO products (unique_code, price, mpn, status) VALUES (?, ?, ?, ?)"
  | UpdateRow _ _ _ =>
      "UPDATE products SET status = ?, price = ? WHERE unique_code = ?"
  end.

(** ** The local file system and the rendered document *)

Inductive DocValue : Set :=
| VText (s : string)
| VPrice2f (p : float64).   (* fmt.Sprintf("%.2f", p) *)

Definition Document : Set := list (string * DocValue).

Inductive FsEntry : Set :=
| RegularFile (content : Document)
| Inaccessible.             (* present, but os.Stat and os.Open fail on it *)

(** ** What the environment answers *)

(** What [client.Do] returns: a transport error, or the response that ends
    the exchange. *)
Inductive HttpReply : Set :=
| TransportError (msg : string)
| Response (StatusCode : Z) (body : string).

(** How [ioutil.WriteFile] fails.  It opens the file with
    [O_WRONLY|O_CREATE|O_TRUNC] and then writes: a failure of the open
    leaves the file system as it was; a failure of the write comes after
    the file was created or emptied, and leaves it with [written], the
    part of the content that reached the disk, possibly none. *)
Inductive WriteFault : Set :=
| FailsAtOpen (e : error)
| FailsAtWrite (written : Document) (e : error).

(** ** Observable events, in the order the program causes them *)

(** An argument of a [Printf]. *)
Inductive Arg : Set :=
| AStr (s : string)
| AErr (e : error).

Inductive Event : Set :=
| EvExec (q : Stmt)
| EvQuery (uniqueCode : string)
| EvSleep (nanoseconds : Z)
| EvStat (path : string)
| EvOpen (path : string)
| EvWriteFile (path : string) (content : Document)
| EvEnrich (url : string)
| EvHttp (method url : string)
| EvPrintf (format : string) (args : list Arg).

Record World : Set := mkWorld {
  rows : list Product.t;                 (* table products, in rowid order,
                                            each row with the values bound
                                            to its statement *)
  unique_code_is_key : bool;             (* schema: unique_code PRIMARY KEY *)
  fs : list (string * FsEntry);          (* latest binding first *)
  exec_faults : list (option error);     (* per db.Exec call; None: it runs *)
  query_faults : list (option error);    (* per QueryRow/Scan call *)
  write_faults : list (option WriteFault); (* per ioutil.WriteFile call *)
  http_replies : list HttpReply;         (* per client.Do call *)
  enrich_results : list (option (string * string)); (* per chromedp.Run *)
  trace : list Event
}.

(** ** A state monad over [World] *)

Definition M (A : Type) : Type := World -> A * World.

Definition ret {A : Type} (a : A) : M A := fun w => (a, w).

Definition bind {A B : Type} (m : M A) (k : A -> M B) : M B :=
  fun w => let (a, w') := m w in k a w'.

Declare Scope go_scope.
Delimit Scope go_scope with go.
Notation "x <- c1 ;; c2" := (bind c1 (fun x => c2))
  (at level 61, c1 at next level, right associativity) : go_scope.
Notation "c1 ;;; c2" := (bind c1 (fun _ => c2))
  (at level 61, right associativity) : go_scope.
Local Open Scope go_scope.

Definition emit (e : Event) : M unit :=
  fun w => (tt, mkWorld (rows w) (unique_code_is_key w) (fs w) (exec_faults w)
                        (query_faults w) (write_faults w) (http_replies w)
                        (enrich_results w) (trace w ++ [e])).

Definition set_rows (rs : list Product.t) (w : World) : World :=
  mkWorld rs (unique_code_is_key w) (fs w) (exec_faults w) (query_faults w)
          (write_faults w) (http_replies w) (enrich_results w) (trace w).

Definition set_fs (f : list (string * FsEntry)) (w : World) : World :=
  mkWorld (rows w) (unique_code_is_key w) f (exec_faults w) (query_faults w)
          (write_faults w) (http_replies w) (enrich_results w) (trace w).

Definition set_exec_faults (l : list (option error)) (w : World) : World :=
  mkWorld (rows w) (unique_code_is_key w) (fs w) l (query_faults w)
          (write_faults w) (http_replies w) (enrich_results w) (trace w).

Definition set_query_faults (l : list (option error)) (w : World) : World :=
  mkWorld (rows w) (unique_code_is_key w) (fs w) (exec_faults w) l
          (write_faults w) (http_replies w) (enrich_results w) (trace w).

Definition set_write_faults (l : list (option WriteFault)) (w : World)
  : World :=
  mkWorld (rows w) (unique_code_is_key w) (fs w) (exec_faults w)
          (query_faults w) l (http_replies w) (enrich_results w) (trace w).

Definition set_http_replies (l : list HttpReply) (w : World) : World :=
  mkWorld (rows w) (unique_code_is_key w) (fs w) (exec_faults w)
          (query_faults w) (write_faults w) l (enrich_results w) (trace w).

Definition set_enrich_results (l : list (option (string * string)))
    (w : World) : World :=
  mkWorld (rows w) (unique_code_is_key w) (fs w) (exec_faults w)
          (query_faults w) (write_faults w) (http_replies w) l (trace w).

(** [fmt.Printf] and [log.Printf]: the line goes to the console. *)
Definition Printf (format : string) (args : list Arg) : M unit :=
  emit (EvPrintf format args).

(** [time.Sleep]; a [time.Duration] counts nanoseconds. *)
Definition time_Millisecond : Z := 1000000.
Definition time_Sleep (d : Z) : M unit := emit (EvSleep d).

(** ** The table [products] *)

Definition set_status_price (status : string) (price : float64)
    (r : Product.t) : Product.t :=
  Product.mk (Product.UniqueCode r) price (Product.MPN r) status.

Definition set_status (status : string) (r : Product.t) : Product.t :=
  Product.mk (Product.UniqueCode r) (Product.Price r) (Product.MPN r) status.

Definition has_code (uniqueCode : string) (r : Product.t) : bool :=
  String.eqb (Product.UniqueCode r) uniqueCode.

(** Modelled from the spec: the CREATE TABLE statement is not part of the
    source.  The spec calls the table "keyed by identifier" and says that an
    insert "fails with DuplicateKey if the identifier already exists"; the
    flag [unique_code_is_key] of the world says whether the schema declares
    that key, and when it does a second row for an identifier is refused
    with the driver's constraint error. *)
Definition run_stmt (q : Stmt) (w : World) : option error * World :=
  match q with
  | MarkAllDeleted =>
      (None, set_rows (map (set_status "deleted") (rows w)) w)
  | InsertRow p =>
      if unique_code_is_key w && existsb (has_code (Product.UniqueCode p)) (rows w)
      then (Some (sqlite3_Error ErrConstraint), w)
      else (None, set_rows (rows w ++ [p]) w)
  | UpdateRow status price uniqueCode =>
      (None, set_rows (map (fun r => if has_code uniqueCode r
                                      then set_status_price status price r
                                      else r) (rows w)) w)
  end.

(** [db.Exec]: the environment may fail the call (a busy or locked
    database, a full disk); otherwise the statement runs. *)
Definition db_Exec (q : Stmt) : M (option error) :=
  emit (EvExec q) ;;;
  fun w =>
    match exec_faults w with
    | Some e :: rest => (Some e, set_exec_faults rest w)
    | None :: rest => run_stmt q (set_exec_faults rest w)
    | [] => run_stmt q w
    end.

(** What a [float64] bound to the column [price] reads back as: SQLite
    stores a NaN as NULL, and a negative zero as the integer 0; every
    other value is kept. *)
Definition sqlite_column (price : float64) : option float64 :=
  match PrimFloat.classify price with
  | FloatClass.NaN => None
  | FloatClass.NZero => Some PrimFloat.zero
  | _ => Some price
  end.

(** The error of [Scan] on a NULL column. *)
Definition scan_null_error : error :=
  fmt_Errorf_w "sql: Scan error on column index %d, name %q: %w"
               ["0"; "price"]
               (fmt_Errorf "converting NULL to %s is unsupported" ["float64"]).

(** [db.QueryRow(query, uniqueCode).Scan(&price)] for the query
    [SELECT price FROM products WHERE unique_code = ? LIMIT 1]. *)
Definition db_QueryRow_Scan (uniqueCode : string) : M (float64 * option error) :=
  emit (EvQuery uniqueCode) ;;;
  fun w =>
    let answer (w' : World) :=
      match find (has_code uniqueCode) (rows w') with
      | Some r =>
          match sqlite_column (Product.Price r) with
          | Some price => ((price, None), w')
          | None => ((PrimFloat.zero, Some scan_null_error), w')
          end
      | None => ((PrimFloat.zero, Some sql_ErrNoRows), w')
      end in
    match query_faults w with
    | Some e :: rest => ((PrimFloat.zero, Some e), set_query_faults rest w)
    | None :: rest => answer (set_query_faults rest w)
    | [] => answer w
    end.

(** ** markAllRecordsAsDeleted (source lines 137-141) *)

Definition markAllRecordsAsDeleted : M (option error) :=
  db_Exec MarkAllDeleted.

(** ** executeWithRetry (source lines 180-194)

    [retry_loop n i] is the [for] loop with [n] iterations left and loop
    variable [i]; [err] is the variable declared before the loop. *)

Fixpoint retry_loop (n : nat) (i : Z) (err : option error) (q : Stmt)
  : M (option error) :=
  match n with
  | O =>
      ret (Some match err with
                | Some e => fmt_Errorf_w "query failed after %d retries: %w"
                                         [itoa maxRetries] e
                | None => fmt_Errorf "query failed after %d retries: %w"
                                     [itoa maxRetries; "%!w(<nil>)"]
                end)
  | S n' =>
      e <- db_Exec q ;;
      match e with
      | None => ret None
      | Some e' =>
          if is_busy_or_locked e'
          then time_Sleep ((i + 1) * time_Millisecond * 100) ;;;
               retry_loop n' (i + 1) (Some e') q
          else ret (Some e')
      end
  end.

Definition executeWithRetry (q : Stmt) : M (option error) :=
  retry_loop (Z.to_nat maxRetries) 0 None q.

(** ** productExists (source lines 197-208) *)

Definition productExists (uniqueCode : string)
  : M (bool * float64 * option error) :=
  r <- db_QueryRow_Scan uniqueCode ;;
  let (price, err) := r in
  match err with
  | Some sql_ErrNoRows => ret (false, PrimFloat.zero, None)
  | Some e => ret (false, PrimFloat.zero, Some e)
  | None => ret (true, price, None)
  end.

(** ** insertProduct and updateProductStatus (source lines 240-255)

    Both take [dbMutex] for the duration of the call; the callers are
    already serialised by the run-wide mutex of [worker], so the lock has
    no effect on the world. *)

Definition insertProduct (product : Product.t) : M (option error) :=
  executeWithRetry (InsertRow product).

Definition updateProductStatus (uniqueCode status : string) (price : float64)
  : M (option error) :=
  executeWithRetry (UpdateRow status price uniqueCode).

(** ** Paths: [filepath.Join] on a Unix system

    [filepath.Join] joins its non-empty elements with a slash and cleans
    the result lexically: empty and [.] elements go, a [..] removes the
    element before it. *)

Fixpoint split_slash (s cur : string) : list string :=
  match s with
  | EmptyString => [cur]
  | String c s' =>
      if Ascii.eqb c "/" then cur :: split_slash s' ""
      else split_slash s' (cur ++ String c "")
  end.

Fixpoint clean_elems (rooted : bool) (elems stack : list string) : list string :=
  match elems with
  | [] => rev stack
  | e :: rest =>
      if String.eqb e "" || String.eqb e "." then clean_elems rooted rest stack
      else if String.eqb e ".." then
        match stack with
        | top :: below =>
            if String.eqb top ".." then clean_elems rooted rest (e :: stack)
            else clean_elems rooted rest below
        | [] =>
            if rooted then clean_elems rooted rest stack
            else clean_elems rooted rest [e]
        end
      else clean_elems rooted rest (e :: stack)
  end.

Definition filepath_Clean (path : string) : string :=
  let rooted := match path with String "/" _ => true | _ => false end in
  let body := String.concat "/" (clean_elems rooted (split_slash path "") []) in
  if rooted then "/" ++ body
  else if String.eqb body "" then "." else body.

Definition filepath_Join (elem : list string) : string :=
  match filter (fun e => negb (String.eqb e "")) elem with
  | [] => ""
  | es => filepath_Clean (String.concat "/" es)
  end.

(** ** URLs: what [http.NewRequest] refuses

    [http.NewRequest] parses the URL: the fragment is cut off at the first
    [#]; what stands before it must hold no control byte, and its path, the
    text before the first [?], no malformed percent escape (the query is
    kept raw); the fragment must hold no malformed percent escape. *)

Definition is_ctl (c : ascii) : bool :=
  let n := N_of_ascii c in (N.ltb n 32 || N.eqb n 127)%N.

Definition is_hex (c : ascii) : bool :=
  let n := N_of_ascii c in
  ((N.leb 48 n && N.leb n 57) || (N.leb 65 n && N.leb n 70)
   || (N.leb 97 n && N.leb n 102))%N.

Fixpoint has_ctl (s : string) : bool :=
  match s with
  | EmptyString => false
  | String c s' => is_ctl c || has_ctl s'
  end.

Fixpoint escapes_ok (s : string) : bool :=
  match s with
  | EmptyString => true
  | String c s' =>
      if Ascii.eqb c "%" then
        match s' with
        | String a (String b _) => is_hex a && is_hex b && escapes_ok s'
        | _ => false
        end
      else escapes_ok s'
  end.

(** [cut s sep]: the text before the first [sep] and the text after it. *)
Fixpoint cut (s : string) (sep : ascii) : string * option string :=
  match s with
  | EmptyString => (EmptyString, None)
  | String c s' =>
      if Ascii.eqb c sep then (EmptyString, Some s')
      else let (a, b) := cut s' sep in (String c a, b)
  end.

Definition url_parses (url : string) : bool :=
  let (rest, fragment) := cut url "#" in
  let (path, _) := cut rest "?" in
  negb (has_ctl rest) && escapes_ok path
  && match fragment with Some f => escapes_ok f | None => true end.

Definition http_NewRequest (method url : string) : option error :=
  if url_parses url then None
  else Some (net_error ("parse " ++ url)).

(** [client.Do]: one exchange with the server.  The event records the
    call, with the method and the URL of the request it was given; the
    next scripted reply is what the call returns.  Go's client follows
    redirects inside the call (a 307 or 308 with the same method and
    body), so the server may see more than one request for one call: the
    reply is then the response that ends the exchange. *)
Definition client_Do (method url : string) : M HttpReply :=
  emit (EvHttp method url) ;;;
  fun w =>
    match http_replies w with
    | r :: rest => (r, set_http_replies rest w)
    | [] => (TransportError "connection refused", w)
    end.

Definition http_StatusOK : Z := 200.
Definition http_StatusNoContent : Z := 204.

(** ** The local file system *)

Definition fs_lookup (path : string) (w : World) : option FsEntry :=
  match find (fun kv => String.eqb (fst kv) path) (fs w) with
  | Some kv => Some (snd kv)
  | None => None
  end.

Definition os_Stat (path : string) : M (option error) :=
  emit (EvStat path) ;;;
  fun w =>
    match fs_lookup path w with
    | Some (RegularFile _) => (None, w)
    | Some Inaccessible => (Some (os_error EACCES), w)
    | None => (Some (os_error ENOENT), w)
    end.

Definition os_IsNotExist (err : error) : bool :=
  match err with
  | os_error ENOENT => true
  | _ => false
  end.

Definition os_Open (path : string) : M (Document + error) :=
  emit (EvOpen path) ;;;
  fun w =>
    match fs_lookup path w with
    | Some (RegularFile content) => (inl content, w)
    | Some Inaccessible => (inr (os_error EACCES), w)
    | None => (inr (os_error ENOENT), w)
    end.

(** [ioutil.WriteFile]: the open fails on an entry that cannot be
    accessed, or when the environment says so; once the file is open it
    holds what was written of the content, all of it unless the
    environment fails the write. *)
Definition ioutil_WriteFile (path : string) (content : Document)
  : M (option error) :=
  emit (EvWriteFile path content) ;;;
  fun w =>
    let write (result : option error) (written : Document) (w' : World) :=
      match fs_lookup path w' with
      | Some Inaccessible => (Some (os_error EACCES), w')
      | _ => (result, set_fs ((path, RegularFile written) :: fs w') w')
      end in
    match write_faults w with
    | Some (FailsAtOpen e) :: rest => (Some e, set_write_faults rest w)
    | Some (FailsAtWrite written e) :: rest =>
        write (Some e) written (set_write_faults rest w)
    | None :: rest => write None content (set_write_faults rest w)
    | [] => write None content w
    end.

(** ** fileExists (source lines 67-76) *)

Definition fileExists (filePath : string) : M bool :=
  err <- os_Stat filePath ;;
  match err with
  | None => ret true
  | Some e => if os_IsNotExist e then ret false else ret false
  end.

(** ** uploadFile (source lines 80-134)

    The multipart body is built in a [bytes.Buffer]; [CreateFormFile],
    [io.Copy], [WriteField] and [Close] on it do not fail and leave the
    world as it is. *)

Definition upload_url : string :=
  "https://b2b.my-buddy.ai/v1/datasets/" ++ datasetGUID
  ++ "/document/create_by_file".

Definition uploadFile (filePath : string) : M (option error) :=
  file <- os_Open filePath ;;
  match file with
  | inr err =>
      ret (Some (fmt_Errorf_w "failed to open file %s: %v" [filePath] err))
  | inl _ =>
      match http_NewRequest "POST" upload_url with
      | Some err =>
          ret (Some (fmt_Errorf_w "failed to create upload request: %v" [] err))
      | None =>
          resp <- client_Do "POST" upload_url ;;
          match resp with
          | TransportError msg =>
              ret (Some (fmt_Errorf_w "failed to execute upload request: %v"
                                      [] (net_error msg)))
          | Response StatusCode body =>
              if negb (Z.eqb StatusCode http_StatusOK)
              then ret (Some (fmt_Errorf "failed to upload file: %d - %s"
                                         [itoa StatusCode; body]))
              else Printf "File %s uploaded successfully\n" [AStr filePath] ;;;
                   ret None
          end
      end
  end.

(** ** fetchSpecification (source lines 144-168) *)

Definition fetchSpecification (url : string)
  : M ((string * string) + error) :=
  emit (EvEnrich url) ;;;
  fun w =>
    match enrich_results w with
    | Some data :: rest => (inl data, set_enrich_results rest w)
    | None :: rest =>
        (inr (fmt_Errorf_w "failed to fetch specification: %v" []
                           (chromedp_error "context deadline exceeded")),
         set_enrich_results rest w)
    | [] =>
        (inr (fmt_Errorf_w "failed to fetch specification: %v" []
                           (chromedp_error "context deadline exceeded")), w)
    end.

(** ** deleteFile (source lines 211-237) *)

Definition delete_url (documentID : string) : string :=
  "https://b2b.my-buddy.ai/v1/datasets/" ++ datasetGUID ++ "/documents/"
  ++ documentID.

Definition deleteFile (documentID : string) : M (option error) :=
  let url := delete_url documentID in
  match http_NewRequest "DELETE" url with
  | Some err =>
      ret (Some (fmt_Errorf_w "failed to create delete request: %v" [] err))
  | None =>
      resp <- client_Do "DELETE" url ;;
      match resp with
      | TransportError msg =>
          ret (Some (fmt_Errorf_w "failed to execute delete request: %v"
                                  [] (net_error msg)))
      | Response StatusCode body =>
          (if Z.eqb StatusCode http_StatusNoContent
           then Printf "Deleted document ID %s\n" [AStr documentID]
           else Printf "Failed to delete document ID %s: %d - %s\n"
                       [AStr documentID; AStr (itoa StatusCode); AStr body]) ;;;
          ret None
      end
  end.

(** ** processItem (source lines 258-320)

    [itemDict] holds the keys id, price and mpn, and after a successful
    enrichment also specification and category; the loop over the
    remaining keys therefore prints the specification alone. *)

Definition outputFilePath (item : Item.t) : string :=
  filepath_Join [folderPath; ("Prod_" ++ Item.ID item ++ ".txt")%string].

Definition formattedItem (item : Item.t) (specData : option (string * string))
  : Document :=
  [("[TITLE]", VText (Item.Title item));
   ("[Price]", VPrice2f (Item.Price item))]
  ++ match specData with
     | Some (_, category) => [("[Category]", VText category)]
     | None => []
     end
  ++ [("[BRAND]", VText (Item.Brand item));
      ("[CONTENT]", VText "");
      ("[DESCRIPTION]", VText (Item.Description item));
      ("[LINK]", VText (Item.Link item));
      ("[IMAGE LINK]", VText (Item.ImageLink item));
      ("[AVAILABILITY]", VText (Item.Availability item));
      ("[GTIN]", VText (Item.GTIN item));
      ("[ID]", VText (Item.ID item));
      ("[SKU]", VText (Item.MPN item))]
  ++ match specData with
     | Some (specification, _) => [("[Specification]", VText specification)]
     | None => []
     end.

Definition processItem (item : Item.t) : M (option error) :=
  let title := Item.ID item in
  let path := outputFilePath item in
  present <- fileExists path ;;
  if present then ret None
  else
    fetched <- fetchSpecification (Item.Link item) ;;
    specData <- match fetched with
                | inr err =>
                    Printf "Failed to fetch specification for %s: %v\n"
                           [AStr (Item.Link item); AErr err] ;;;
                    ret None
                | inl data => ret (Some data)
                end ;;
    err <- ioutil_WriteFile path (formattedItem item specData) ;;
    match err with
    | Some e =>
        Printf "Failed to write product file %s: %v\n" [AStr path; AErr e] ;;;
        ret (Some (fmt_Errorf_w "Failed to write product file %s: %v\n" [path] e))
    | None =>
        err <- uploadFile path ;;
        match err with
        | Some e =>
            Printf "Failed to upload product file %s: %v\n" [AStr path; AErr e] ;;;
            ret (Some (fmt_Errorf_w "Failed to upload product file %s: %v\n"
                                    [path] e))
        | None =>
            Printf "Processed and uploaded item with ID %s\n" [AStr title] ;;;
            ret None
        end
    end.

(** ** worker (source lines 362-410)

    The body between [mutex.Lock] and the deferred [mutex.Unlock]; the
    locks and the wait group belong to the scheduler below. *)

Definition new_product (item : Item.t) : Product.t :=
  Product.mk (Item.ID item) (Item.Price item) (Item.MPN item) "new".

Definition insert_then_process (item : Item.t) : M (option error) :=
  err <- insertProduct (new_product item) ;;
  match err with
  | None => processItem item
  | Some e => ret (Some e)
  end.

Definition worker (item : Item.t) : M unit :=
  found <- productExists (Item.ID item) ;;
  let '(exists_, price, err) := found in
  match err with
  | Some e => Printf "Error checking product existence: %v" [AErr e]
  | None =>
      err <- (if exists_ then
                if float64_eq price (Item.Price item)
                then updateProductStatus (Item.ID item) "existing" (Item.Price item)
                else
                  updateProductStatus (Item.ID item) "updated" (Item.Price item) ;;;
                  err <- deleteFile (Item.ID item) ;;
                  match err with
                  | Some e => Printf "Failed to delete document %s: %v"
                                     [AStr (Item.ID item); AErr e]
                  | None => ret tt
                  end ;;;
                  insert_then_process item
              else insert_then_process item) ;;
      match err with
      | Some e => Printf "Failed to process item: %v" [AErr e]
      | None => ret tt
      end
  end.

(** ** Two fragments of [worker], named for the statements below *)

(** Source lines 379-382: the removal of the prior document, with the
    console line when it reports an error. *)
Definition remove_prior (uniqueCode : string) : M unit :=
  err <- deleteFile uniqueCode ;;
  match err with
  | Some e => Printf "Failed to delete document %s: %v" [AStr uniqueCode; AErr e]
  | None => ret tt
  end.

(** The last statement of [worker] (source lines 407-409). *)
Definition report (err : option error) : M unit :=
  match err with
  | Some e => Printf "Failed to process item: %v" [AErr e]
  | None => ret tt
  end.

(** * The scheduler: processXMLData (source lines 427-443)

    The loop of [processXMLData] starts one goroutine per item, bounded by
    the buffered channel [sem] of capacity [maxWorkers], and waits on the
    wait group.  A goroutine runs [worker], which takes the run-wide mutex
    for its whole body.  The interleavings are those of a transition
    system: the main thread and every goroutine advance one statement at a
    time, in an order chosen by a schedule.  Nothing but a worker body
    touches the world during the loop, and the mutex lets one goroutine at
    a time into its body, so the body is one step of the system. *)

(** Where a goroutine stands. *)
Inductive Phase : Set :=
| Spawned      (* started; next is mutex.Lock, line 365 *)
| Holding      (* holds the mutex; next is the body, lines 368-409 *)
| BodyDone     (* next is the deferred mutex.Unlock *)
| Unlocked     (* next is the deferred wg.Done *)
| Signalled    (* worker has returned; next is the deferred <-sem *)
| Exited.

(** Where the main thread stands. *)
Inductive MainPc : Set :=
| AtSend (rest : list Item.t)                 (* line 432, or the loop exit *)
| AtAdd (item : Item.t) (rest : list Item.t)  (* line 433 *)
| AtGo (item : Item.t) (rest : list Item.t)   (* line 434 *)
| AtWait                                      (* line 440 *)
| Returned.                                   (* line 442 *)

Record Run : Set := mkRun {
  world : World;
  pc : MainPc;
  goroutines : list (Item.t * Phase);
  sem : Z;        (* tokens in the channel *)
  wg : Z;         (* counter of the wait group *)
  mutex : bool    (* true: locked *)
}.

Inductive Choice : Set :=
| Main
| Goroutine (k : nat).

Fixpoint set_phase (k : nat) (ph : Phase) (gs : list (Item.t * Phase))
  : list (Item.t * Phase) :=
  match gs, k with
  | [], _ => []
  | (item, _) :: rest, O => (item, ph) :: rest
  | g :: rest, S k' => g :: set_phase k' ph rest
  end.

(** One statement of the main thread; [None] when it blocks. *)
Definition main_step (r : Run) : option Run :=
  match pc r with
  | AtSend [] =>
      Some (mkRun (world r) AtWait (goroutines r) (sem r) (wg r) (mutex r))
  | AtSend (item :: rest) =>
      if sem r <? maxWorkers
      then Some (mkRun (world r) (AtAdd item rest) (goroutines r) (sem r + 1)
                       (wg r) (mutex r))
      else None
  | AtAdd item rest =>
      Some (mkRun (world r) (AtGo item rest) (goroutines r) (sem r)
                  (wg r + 1) (mutex r))
  | AtGo item rest =>
      Some (mkRun (world r) (AtSend rest) (goroutines r ++ [(item, Spawned)])
                  (sem r) (wg r) (mutex r))
  | AtWait =>
      if wg r =? 0
      then Some (mkRun (world r) Returned (goroutines r) (sem r) (wg r) (mutex r))
      else None
  | Returned => None
  end.

(** One statement of goroutine [k]; [None] when it blocks or has ended. *)
Definition goroutine_step (k : nat) (r : Run) : option Run :=
  match nth_error (goroutines r) k with
  | None => None
  | Some (item, ph) =>
      let gs := fun ph' => set_phase k ph' (goroutines r) in
      match ph with
      | Spawned =>
          if mutex r then None
          else Some (mkRun (world r) (pc r) (gs Holding) (sem r) (wg r) true)
      | Holding =>
          Some (mkRun (snd (worker item (world r))) (pc r) (gs BodyDone)
                      (sem r) (wg r) (mutex r))
      | BodyDone =>
          Some (mkRun (world r) (pc r) (gs Unlocked) (sem r) (wg r) false)
      | Unlocked =>
          Some (mkRun (world r) (pc r) (gs Signalled) (sem r) (wg r - 1) (mutex r))
      | Signalled =>
          Some (mkRun (world r) (pc r) (gs Exited) (sem r - 1) (wg r) (mutex r))
      | Exited => None
      end
  end.

Definition step (c : Choice) (r : Run) : option Run :=
  match c with
  | Main => main_step r
  | Goroutine k => goroutine_step k r
  end.

(** A schedule names who moves next; a move that is blocked is skipped. *)
Fixpoint run_schedule (s : list Choice) (r : Run) : Run :=
  match s with
  | [] => r
  | c :: s' =>
      match step c r with
      | Some r' => run_schedule s' r'
      | None => run_schedule s' r
      end
  end.

Definition processXMLData (items : list Item.t) (w : World) : Run :=
  mkRun w (AtSend items) [] 0 0 false.

(** ** main (source lines 462-472), on a feed already fetched and parsed

    [None] is the exit through [log.Fatalf] when marking fails. *)
Definition main (items : list Item.t) (s : list Choice) (w : World)
  : option Run :=
  let (err, w1) := markAllRecordsAsDeleted w in
  match err with
  | Some _ => None
  | None => Some (run_schedule s (processXMLData items w1))
  end.

(** * Vocabulary of the statements *)

(** ** Retries *)

Definition transient (e : error) : Prop := is_busy_or_locked e = true.

(** The events of [k] failed attempts in a row, the first with loop
    variable [i]: each attempt is followed by its back-off. *)
Fixpoint backoff_events (q : Stmt) (i : Z) (k : nat) : list Event :=
  match k with
  | O => []
  | S k' =>
      EvExec q :: EvSleep ((i + 1) * time_Millisecond * 100)
      :: backoff_events q (i + 1) k'
  end.

(** The world after [k] failed attempts: nothing changed but the script
    of faults, now [rest], and the trace. *)
Definition after_failures (q : Stmt) (i : Z) (k : nat)
    (rest : list (option error)) (w : World) : World :=
  mkWorld (rows w) (unique_code_is_key w) (fs w) rest (query_faults w)
          (write_faults w) (http_replies w) (enrich_results w)
          (trace w ++ backoff_events q i k).

(** The world at the moment an attempt is sent. *)
Definition attempt (q : Stmt) (w : World) : World := snd (emit (EvExec q) w).

Definition sleeps (t : list Event) : list Z :=
  flat_map (fun e => match e with EvSleep d => [d] | _ => [] end) t.

(** The mutating store calls that a worker makes for an item, each with
    the statement it sends: both go through [executeWithRetry]. *)
Inductive per_item_call : M (option error) -> Stmt -> Prop :=
| call_insert (product : Product.t) :
    per_item_call (insertProduct product) (InsertRow product)
| call_update (uniqueCode status : string) (price : float64) :
    per_item_call (updateProductStatus uniqueCode status price)
                  (UpdateRow status price uniqueCode).

(** ** Relations between the world before a call and the world after *)

Definition preserves {A : Type} (R : World -> World -> Prop) (m : M A) : Prop :=
  forall w, R w (snd (m w)).

(** The table is as it was. *)
Definition same_table (w w' : World) : Prop :=
  rows w' = rows w /\ unique_code_is_key w' = unique_code_is_key w.

(** The local files are as they were. *)
Definition same_fs (w w' : World) : Prop := fs w' = fs w.

(** The events added all satisfy [P]. *)
Definition emits (P : Event -> bool) (w w' : World) : Prop :=
  exists t, trace w' = trace w ++ t /\ forallb P t = true.

(** The events added satisfy [P] and [e] is one of them. *)
Definition emits_with (P : Event -> bool) (e : Event) (w w' : World) : Prop :=
  exists t, trace w' = trace w ++ t /\ forallb P t = true /\ In e t.

Definition identifiers (w : World) : list string :=
  map Product.UniqueCode (rows w).

Definition other_rows (uniqueCode : string) (w : World) : list Product.t :=
  filter (fun r => negb (has_code uniqueCode r)) (rows w).

(** What a step on behalf of one identifier may do to the table: rows of
    other identifiers stay as they are, no row changes its identifier (the
    old column of identifiers is a prefix of the new one, and what is added
    carries this identifier), the schema stays, and under a key no
    identifier comes to occur twice. *)
Definition table_step (uniqueCode : string) (w w' : World) : Prop :=
  other_rows uniqueCode w' = other_rows uniqueCode w
  /\ (exists n : nat,
        identifiers w' = identifiers w ++ repeat uniqueCode n)
  /\ unique_code_is_key w' = unique_code_is_key w
  /\ (unique_code_is_key w = true -> NoDup (identifiers w) ->
      NoDup (identifiers w')).

(** A statement that names the identifier [c] in its [WHERE] clause or in
    the row it adds. *)
Definition about (c : string) (q : Stmt) : Prop :=
  match q with
  | MarkAllDeleted => False
  | InsertRow p => Product.UniqueCode p = c
  | UpdateRow _ _ c' => c' = c
  end.

(** The in-place update of the rows of one identifier. *)
Definition updated_rows (uniqueCode status : string) (price : float64)
    (l : list Product.t) : list Product.t :=
  map (fun r => if has_code uniqueCode r then set_status_price status price r
                else r) l.

(** ** Classes of events *)

(** Calls on the persisted store, pauses and console lines. *)
Definition store_event (e : Event) : bool :=
  match e with
  | EvExec _ | EvQuery _ | EvSleep _ | EvPrintf _ _ => true
  | _ => false
  end.

(** Everything but the steps of producing and publishing a document:
    enrichment, the local write, opening the file for upload, the upload. *)
Definition no_publish (e : Event) : bool :=
  match e with
  | EvEnrich _ | EvWriteFile _ _ | EvOpen _ => false
  | EvHttp method _ => negb (String.eqb method "POST")
  | _ => true
  end.

(** ** Goroutines by phase, and the invariant of the scheduler *)

Definition in_flight (ph : Phase) : bool :=
  match ph with Exited => false | _ => true end.

Definition unsignalled (ph : Phase) : bool :=
  match ph with Signalled | Exited => false | _ => true end.

Definition in_critical (ph : Phase) : bool :=
  match ph with Holding | BodyDone => true | _ => false end.

Fixpoint tally (f : Phase -> bool) (gs : list (Item.t * Phase)) : Z :=
  match gs with
  | [] => 0
  | (_, ph) :: rest => (if f ph then 1 else 0) + tally f rest
  end.

Definition pending (p : MainPc) : list Item.t :=
  match p with
  | AtSend rest => rest
  | AtAdd item rest | AtGo item rest => item :: rest
  | AtWait | Returned => []
  end.

(** Tokens put in [sem] for a goroutine not started yet. *)
Definition token_ahead (p : MainPc) : Z :=
  match p with AtAdd _ _ | AtGo _ _ => 1 | _ => 0 end.

(** Units added to [wg] for a goroutine not started yet. *)
Definition count_ahead (p : MainPc) : Z :=
  match p with AtGo _ _ => 1 | _ => 0 end.

Record Inv (items : list Item.t) (r : Run) : Prop := mkInv {
  inv_sem : sem r = tally in_flight (goroutines r) + token_ahead (pc r);
  inv_cap : sem r <= maxWorkers;
  inv_wg : wg r = tally unsignalled (goroutines r) + count_ahead (pc r);
  inv_items : map fst (goroutines r) ++ pending (pc r) = items;
  inv_returned : pc r = Returned -> wg r = 0;
  inv_mutex : tally in_critical (goroutines r) = if mutex r then 1 else 0
}.

(** ** Records of identifiers that the feed does not name, and the key *)

Definition in_feed (items : list Item.t) (r : Product.t) : bool :=
  existsb (String.eqb (Product.UniqueCode r)) (map Item.ID items).

(** The rows whose identifier is absent from the feed, in table order. *)
Definition outside (items : list Item.t) (w : World) : list Product.t :=
  filter (fun r => negb (in_feed items r)) (rows w).

(** The table as a run may leave it, starting from [w]: the same schema,
    the same column of identifiers followed by identifiers of the feed,
    and no identifier twice. *)
Definition keyed_extension (items : list Item.t) (w v : World) : Prop :=
  unique_code_is_key v = true
  /\ NoDup (identifiers v)
  /\ exists added, identifiers v = identifiers w ++ added
                   /\ incl added (map Item.ID items).

(** ** The external document store as the specification words it *)

(** The spec's words for the two outcomes: create succeeds on any 2xx,
    delete succeeds on "no content". *)
Definition spec_create_succeeds (StatusCode : Z) : bool :=
  (200 <=? StatusCode) && (StatusCode <? 300).

Definition spec_delete_succeeds (StatusCode : Z) : bool :=
  StatusCode =? http_StatusNoContent.

(** ** Measures of a trace *)

Definition is_attempt (e : Event) : bool :=
  match e with EvExec _ => true | _ => false end.

Definition is_request (e : Event) : bool :=
  match e with EvHttp _ _ => true | _ => false end.

(** The number of statements sent to the store. *)
Definition attempts (t : list Event) : Z :=
  Z.of_nat (List.length (filter is_attempt t)).

(** The time spent in [time.Sleep], in nanoseconds. *)
Definition total_sleep (t : list Event) : Z :=
  fold_right Z.add 0 (sleeps t).

(** The longest a loop of [n] iterations that starts with loop variable
    [i] may sleep. *)
Fixpoint sleep_budget (n : nat) (i : Z) : Z :=
  match n with
  | O => 0
  | S n' => (i + 1) * time_Millisecond * 100 + sleep_budget n' (i + 1)
  end.

(** ** What the environment will answer next *)

(** The enrichment data that the next [chromedp.Run] returns, if any. *)
Definition enriched (w : World) : option (string * string) :=
  match enrich_results w with
  | Some data :: _ => Some data
  | _ => None
  end.

(** The document store answers the next request with 200. *)
Definition store_accepts (w : World) : bool :=
  match http_replies w with
  | Response StatusCode _ :: _ => StatusCode =? http_StatusOK
  | _ => false
  end.

(** The document store answers the next request with a status code. *)
Definition store_responds (w : World) : bool :=
  match http_replies w with
  | Response _ _ :: _ => true
  | _ => false
  end.

(** The path holds a regular file. *)
Definition is_regular (path : string) (w : World) : bool :=
  match fs_lookup path w with
  | Some (RegularFile _) => true
  | _ => false
  end.

(** ** Steps on the local files and on the statuses *)

(** What a step on behalf of one output path may do to the local files:
    bindings of that path are put in front, nothing else changes. *)
Definition files_step (path : string) (w w' : World) : Prop :=
  exists l, fs w' = l ++ fs w /\ Forall (fun kv => fst kv = path) l.

(** The four status tags that the program writes. *)
Definition known_status (status : string) : bool :=
  String.eqb status "new" || String.eqb status "existing"
  || String.eqb status "updated" || String.eqb status "deleted".

Definition statuses_known (w : World) : Prop :=
  Forall (fun r => known_status (Product.Status r) = true) (rows w).

(** A step that keeps the statuses of the table among the four tags. *)
Definition statuses_kept (w w' : World) : Prop :=
  statuses_known w -> statuses_known w'.

(** The status that a statement writes, if any, is one of the four. *)
Definition writes_known_status (q : Stmt) : Prop :=
  match q with
  | MarkAllDeleted => True
  | InsertRow p => known_status (Product.Status p) = true
  | UpdateRow status _ _ => known_status status = true
  end.

(** ** The run as a sequence, and the work that is left *)

(** The workers of the items run one after the other, in the order given. *)
Definition run_sequential (order : list Item.t) (w : World) : World :=
  fold_left (fun v item => snd (worker item v)) order w.

(** The goroutine is past the body of its worker. *)
Definition body_run (ph : Phase) : bool :=
  match ph with Spawned | Holding => false | _ => true end.

(** The items whose worker body has run, in feed order. *)
Definition processed (gs : list (Item.t * Phase)) : list Item.t :=
  map fst (filter (fun g => body_run (snd g)) gs).

(** The statements a goroutine has yet to execute. *)
Definition phase_left (ph : Phase) : nat :=
  match ph with
  | Spawned => 5 | Holding => 4 | BodyDone => 3
  | Unlocked => 2 | Signalled => 1 | Exited => 0
  end.

Fixpoint work_left (gs : list (Item.t * Phase)) : nat :=
  match gs with
  | [] => O
  | (_, ph) :: rest => (phase_left ph + work_left rest)%nat
  end.

(** The statements the main thread has yet to execute, with those of the
    goroutines it has yet to start. *)
Definition main_left (p : MainPc) : nat :=
  match p with
  | AtSend rest => (8 * List.length rest + 2)%nat
  | AtAdd _ rest => (8 * List.length rest + 9)%nat
  | AtGo _ rest => (8 * List.length rest + 8)%nat
  | AtWait => 1%nat
  | Returned => 0%nat
  end.

Definition statements_left (r : Run) : nat :=
  (main_left (pc r) + work_left (goroutines r))%nat.

(** ** Identifiers and paths *)

Fixpoint has_slash (s : string) : bool :=
  match s with
  | EmptyString => false
  | String c s' => Ascii.eqb c "/" || has_slash s'
  end.

(** ** Rows that stay *)

(** The identifier and the part number of every row, in table order. *)
Definition keys_and_parts (w : World) : list (string * string) :=
  map (fun r => (Product.UniqueCode r, Product.MPN r)) (rows w).

(** A step that removes no row, moves none and changes neither the
    identifier nor the part number of any: rows are only added at the
    end. *)
Definition rows_stay (w w' : World) : Prop :=
  exists l, keys_and_parts w' = keys_and_parts w ++ l.

(** ** Calls of [client.Do], by the method of the request *)

Definition is_post (e : Event) : bool :=
  match e with EvHttp method _ => String.eqb method "POST" | _ => false end.

Definition is_delete (e : Event) : bool :=
  match e with EvHttp method _ => String.eqb method "DELETE" | _ => false end.

Definition count (P : Event -> bool) (t : list Event) : nat :=
  List.length (filter P t).

(** The events added hold at most [n] events of the class [P]. *)
Definition at_most (n : nat) (P : Event -> bool) (w w' : World) : Prop :=
  exists t, trace w' = trace w ++ t /\ (count P t <= n)%nat.

(** What a lookup that the store answers returns for a row whose price
    was bound as [price]. *)
Definition scanned (price : float64) : bool * float64 * option error :=
  match sqlite_column price with
  | Some v => (true, v, None)
  | None => (false, PrimFloat.zero, Some scan_null_error)
  end.

(** The error that a failed write reports. *)
Definition fault_error (f : WriteFault) : error :=
  match f with
  | FailsAtOpen e => e
  | FailsAtWrite _ e => e
  end.

(** ** Sample data *)

(** A world where the document of A is on disk and the document store
    answers the next request with [StatusCode]. *)
Definition store_answers (StatusCode : Z) : World :=
  mkWorld [] true [("product/Prod_A.txt", RegularFile [])] [] [] []
          [Response StatusCode "body"] [] [].

Definition sample_item (id : string) (price : float64) : Item.t :=
  Item.mk id "title" "text" price "https://shop.example/p" "https://shop.example/i"
          "brand" "mpn" "gtin" "in stock" "new" 1.

(** Records B (price 20) and C (price 5) from an earlier run, already
    marked; the document of C is on disk. *)
Definition sample_world : World :=
  mkWorld [Product.mk "B" 20%float "mpn" "deleted";
           Product.mk "C" 5%float "mpn" "deleted"]
          true [("product/Prod_C.txt", RegularFile [])] [] [] [] [] [] [].

(** The same records in a table whose schema declares no key. *)
Definition unkeyed_sample_world : World :=
  mkWorld (rows sample_world) false (fs sample_world) [] [] [] [] [] [].

(** The same records in a table whose schema declares no key, with no
    document on disk: the document store answers the removal with 204 and
    the upload with 200, and the enrichment succeeds. *)
Definition unkeyed_publishing_world : World :=
  mkWorld (rows sample_world) false [] [] [] []
          [Response 204 "body"; Response 200 "ok"]
          [Some ("specification", "category")] [].

(** The unkeyed table with the document of C on disk, where the document
    store answers the removal with 204. *)
Definition unkeyed_document_world : World :=
  set_http_replies [Response 204 "body"] unkeyed_sample_world.

(** The same world, where the store fails the next statement with an I/O
    error and the document store answers the next request with 204. *)
Definition failing_update_world : World :=
  set_http_replies [Response 204 "body"]
    (set_exec_faults [Some (sqlite3_Error ErrIoErr)] sample_world).

(** A feed of two items: A is new, B is unchanged; C is absent. *)
Definition sample_feed : list Item.t :=
  [sample_item "A" 10%float; sample_item "B" 20%float].

(** The world before the marking, where the enrichment and the upload of
    the one new document succeed. *)
Definition sample_start : World :=
  mkWorld [Product.mk "B" 20%float "mpn" "new"; Product.mk "C" 5%float "mpn" "existing"]
          true [("product/Prod_C.txt", RegularFile [])] [] [] []
          [Response 200 "ok"] [Some ("specification", "category")] [].

(** The main thread starts both goroutines and reaches the wait, the
    goroutines run one after the other, the main thread returns. *)
Definition sample_schedule : list Choice :=
  repeat Main 7
  ++ repeat (Goroutine 0) 5 ++ repeat (Goroutine 1) 5
  ++ [Main].

(** * Properties *)

(** ** Basic facts on the monad and on single calls *)

Lemma bind_eq {A B : Type} (m : M A) (k : A -> M B) (w w' : World) (a : A) :
  m w = (a, w') -> bind m k w = k a w'.
Proof. unfold bind; intros ->; reflexivity. Qed.

Lemma after_failures_0 q i w :
  after_failures q i 0 (exec_faults w) w = w.
Proof.
  destruct w; unfold after_failures; simpl. now rewrite app_nil_r.
Qed.

Lemma retry_loop_step n i err q w e rest :
  exec_faults w = Some e :: rest ->
  transient e ->
  retry_loop (S n) i err q w =
  retry_loop n (i + 1) (Some e) q (after_failures q i 1 rest w).
Proof.
  intros Hf He. unfold transient in He.
  cbn [retry_loop]. unfold bind, db_Exec, bind, emit, time_Sleep, emit.
  cbn [exec_faults]. rewrite Hf, He.
  unfold after_failures, set_exec_faults. cbn [backoff_events trace rows
    unique_code_is_key fs query_faults write_faults http_replies enrich_results].
  now rewrite <- app_assoc.
Qed.

Lemma after_failures_S q i k rest rest' w :
  after_failures q (i + 1) k rest (after_failures q i 1 rest' w) =
  after_failures q i (S k) rest w.
Proof.
  unfold after_failures. cbn [backoff_events trace rows unique_code_is_key fs
    query_faults write_faults http_replies enrich_results].
  now rewrite <- app_assoc.
Qed.

Lemma last_nonempty {A : Type} (l : list A) :
  forall a b d d' : A, last (a :: b :: l) d = last (b :: l) d'.
Proof.
  induction l as [|c l IH]; intros a b d d'; [reflexivity|].
  change (last (b :: c :: l) d = last (c :: l) d').
  rewrite (IH b c d d'). symmetry. apply (IH b c d' d').
Qed.

Lemma last_map_Some {A : Type} (l : list A) :
  forall (a : A) (d : option A), exists b, last (map Some (a :: l)) d = Some b.
Proof.
  induction l as [|c l IH]; intros a d; [now exists a|].
  destruct (IH c d) as [b Hb]. exists b. rewrite <- Hb. reflexivity.
Qed.

Lemma retry_loop_transient (es : list error) :
  forall (n : nat) (i : Z) (err : option error) (q : Stmt) (w : World)
         (rest : list (option error)),
    Forall transient es ->
    exec_faults w = map Some es ++ rest ->
    (List.length es <= n)%nat ->
    retry_loop n i err q w =
    retry_loop (n - List.length es) (i + Z.of_nat (List.length es))
               (last (map Some es) err) q
               (after_failures q i (List.length es) rest w).
Proof.
  induction es as [|e es IH]; intros n i err q w rest Htr Hf Hn.
  - simpl in *. subst rest. rewrite after_failures_0, Nat.sub_0_r, Z.add_0_r.
    reflexivity.
  - destruct n as [|n]; [simpl in Hn; lia|].
    inversion Htr as [|? ? He Htr']; subst.
    erewrite retry_loop_step; [|exact Hf|exact He].
    erewrite IH; [|exact Htr'|reflexivity|simpl in Hn; lia].
    rewrite after_failures_S.
    replace (i + 1 + Z.of_nat (List.length es))
      with (i + Z.of_nat (List.length (e :: es)))
      by (cbn [List.length]; lia).
    replace (last (map Some es) (Some e)) with (last (map Some (e :: es)) err)
      by (destruct es; [reflexivity|apply last_nonempty]).
    reflexivity.
Qed.

Lemma sleeps_backoff_events q (k : nat) :
  forall i : Z,
    sleeps (backoff_events q i k) =
    map (fun j => (i + Z.of_nat j + 1) * (100 * time_Millisecond)) (seq 0 k).
Proof.
  induction k as [|k IH]; intro i; [reflexivity|].
  cbn -[Z.mul Z.add Z.of_nat]. rewrite IH, <- seq_shift, map_map.
  f_equal; [lia|].
  apply map_ext; intro j. f_equal. lia.
Qed.

Lemma run_stmt_result q w :
  fst (run_stmt q w) = None \/
  fst (run_stmt q w) = Some (sqlite3_Error ErrConstraint).
Proof.
  destruct q as [|p|s pr c]; cbn [run_stmt]; try (now left).
  destruct (unique_code_is_key w && existsb (has_code (Product.UniqueCode p)) (rows w));
    [now right|now left].
Qed.

(** One attempt that the environment lets through. *)
Lemma retry_loop_runs n i err q w :
  hd None (exec_faults w) = None ->
  retry_loop (S n) i err q w =
  run_stmt q (set_exec_faults (tl (exec_faults w)) (attempt q w)).
Proof.
  intro Hhd. cbn [retry_loop]. unfold bind at 1.
  assert (Hexec : db_Exec q w =
                  run_stmt q (set_exec_faults (tl (exec_faults w)) (attempt q w))).
  { unfold db_Exec, bind, attempt, emit. cbn [snd exec_faults].
    destruct (exec_faults w) as [|[e|] l] eqn:Hf; cbn in Hhd; try discriminate;
      reflexivity. }
  rewrite Hexec.
  destruct (run_stmt q _) as [r w'] eqn:Hr.
  destruct (run_stmt_result q (set_exec_faults (tl (exec_faults w)) (attempt q w)))
    as [H|H]; rewrite Hr in H; cbn in H; subst r; reflexivity.
Qed.

(** One attempt failed by the environment for another reason than
    contention. *)
Lemma retry_loop_fails n i err q w e rest :
  exec_faults w = Some e :: rest ->
  is_busy_or_locked e = false ->
  retry_loop (S n) i err q w = (Some e, set_exec_faults rest (attempt q w)).
Proof.
  intros Hf He. cbn [retry_loop].
  unfold bind, db_Exec, bind, attempt, emit. cbn [snd exec_faults].
  now rewrite Hf, He.
Qed.

(** The retry loop of [executeWithRetry], with the first [k] attempts
    failed by contention (busy or locked). *)
Lemma executeWithRetry_policy (q : Stmt) (w : World) (es : list error)
    (rest : list (option error)) :
  exec_faults w = map Some es ++ rest ->
  Forall transient es ->
  ((List.length es <= 4)%nat -> hd None rest = None ->
     executeWithRetry q w =
     run_stmt q (attempt q (after_failures q 0 (List.length es) (tl rest) w)))
  /\ ((List.length es <= 4)%nat ->
      forall e rest', rest = Some e :: rest' -> is_busy_or_locked e = false ->
        executeWithRetry q w =
        (Some e, attempt q (after_failures q 0 (List.length es) rest' w)))
  /\ (List.length es = 5%nat ->
      exists e, last (map Some es) None = Some e /\
        executeWithRetry q w =
        (Some (fmt_Errorf_w "query failed after %d retries: %w" ["5"] e),
         after_failures q 0 5 rest w))
  /\ sleeps (backoff_events q 0 (List.length es)) =
     map (fun j => (Z.of_nat j + 1) * (100 * time_Millisecond))
         (seq 0 (List.length es)).
Proof.
  intros Hf Htr.
  assert (Hloop : (List.length es <= 5)%nat ->
            executeWithRetry q w =
            retry_loop (5 - List.length es) (0 + Z.of_nat (List.length es))
                       (last (map Some es) None) q
                       (after_failures q 0 (List.length es) rest w)).
  { intro Hle. unfold executeWithRetry.
    change (Z.to_nat maxRetries) with 5%nat.
    now apply retry_loop_transient. }
  repeat split.
  - intros Hk Hhd. rewrite Hloop by lia.
    destruct (5 - List.length es)%nat as [|m] eqn:Hm; [lia|].
    rewrite retry_loop_runs by exact Hhd. reflexivity.
  - intros Hk e rest' -> He. rewrite Hloop by lia.
    destruct (5 - List.length es)%nat as [|m] eqn:Hm; [lia|].
    erewrite retry_loop_fails; [reflexivity|reflexivity|exact He].
  - intro Hk. rewrite Hloop by lia. rewrite Hk.
    destruct es as [|e es]; [discriminate|].
    destruct (last_map_Some es e None) as [e' He'].
    exists e'. rewrite He'. split; reflexivity.
  - rewrite sleeps_backoff_events. apply map_ext. intro j. f_equal.
Qed.

(** C4, amended: the retry policy of the mutating store calls made for an
    item, the insert and the update.  With the first [k] attempts failed
    by contention (busy or locked): for [k <= 4], an attempt that the
    store lets through gives the outcome of the statement itself, so a
    statement that succeeds is reported as a success, and one that fails
    for another reason is returned at once, with no further attempt; for
    [k = 5] the budget is spent and the call returns the error that wraps
    the last contention error; the pause after failed attempt number [j]
    (from 0) is [(j + 1) * 100ms].  The marking of all records is outside
    this policy: in the same world, with [k >= 1], it makes its one
    attempt and returns the contention error. *)
Theorem store_calls_retry_policy
    (call : M (option error)) (q : Stmt) (w : World) (es : list error)
    (rest : list (option error)) :
  per_item_call call q ->
  exec_faults w = map Some es ++ rest ->
  Forall transient es ->
  ((List.length es <= 4)%nat -> hd None rest = None ->
     call w =
     run_stmt q (attempt q (after_failures q 0 (List.length es) (tl rest) w)))
  /\ ((List.length es <= 4)%nat ->
      forall e rest', rest = Some e :: rest' -> is_busy_or_locked e = false ->
        call w =
        (Some e, attempt q (after_failures q 0 (List.length es) rest' w)))
  /\ (List.length es = 5%nat ->
      exists e, last (map Some es) None = Some e /\
        call w =
        (Some (fmt_Errorf_w "query failed after %d retries: %w" ["5"] e),
         after_failures q 0 5 rest w))
  /\ sleeps (backoff_events q 0 (List.length es)) =
     map (fun j => (Z.of_nat j + 1) * (100 * time_Millisecond))
         (seq 0 (List.length es))
  /\ (forall e es', es = e :: es' ->
      markAllRecordsAsDeleted w
      = (Some e, set_exec_faults (map Some es' ++ rest)
                                 (attempt MarkAllDeleted w))).
Proof.
  intros Hcall Hf Htr.
  assert (Hloop : call = executeWithRetry q) by now destruct Hcall.
  rewrite Hloop.
  destruct (@executeWithRetry_policy q w es rest Hf Htr) as (A & B & C & D).
  repeat (split; [assumption|]).
  intros e es' ->. unfold markAllRecordsAsDeleted, db_Exec, bind, attempt, emit.
  cbn [exec_faults snd]. now rewrite Hf.
Qed.

(** The marking under contention: one busy answer, after which the store
    would have run the statement.  The marking returns the busy error
    after its one attempt, without a pause, and the table keeps its
    statuses; the same statement sent through [executeWithRetry] in the
    same world is retried and succeeds. *)
Lemma marking_is_not_retried :
  is_busy_or_locked (sqlite3_Error ErrBusy) = true
  /\ fst (markAllRecordsAsDeleted
            (set_exec_faults [Some (sqlite3_Error ErrBusy)] sample_start))
     = Some (sqlite3_Error ErrBusy)
  /\ trace (snd (markAllRecordsAsDeleted
                   (set_exec_faults [Some (sqlite3_Error ErrBusy)] sample_start)))
     = [EvExec MarkAllDeleted]
  /\ rows (snd (markAllRecordsAsDeleted
                  (set_exec_faults [Some (sqlite3_Error ErrBusy)] sample_start)))
     = rows sample_start
  /\ fst (executeWithRetry MarkAllDeleted
            (set_exec_faults [Some (sqlite3_Error ErrBusy)] sample_start))
     = None
  /\ trace (snd (executeWithRetry MarkAllDeleted
                   (set_exec_faults [Some (sqlite3_Error ErrBusy)] sample_start)))
     = [EvExec MarkAllDeleted; EvSleep (100 * time_Millisecond);
        EvExec MarkAllDeleted].
Proof. repeat split; reflexivity. Qed.

(** ** Frame reasoning: what a call leaves alone

    [preserves R m] says that every run of [m] relates the world before to
    the world after by [R].  For a preorder [R] the property passes through
    [ret], [bind] and case analysis, so it is proved for the calls on the
    environment once and then follows the shape of the code. *)

Section Preserves.
Variable R : World -> World -> Prop.
Hypothesis R_refl : forall w, R w w.
Hypothesis R_trans : forall a b c, R a b -> R b c -> R a c.

Lemma preserves_ret {A : Type} (a : A) : preserves R (ret a).
Proof. intro w. apply R_refl. Qed.

Lemma preserves_bind {A B : Type} (m : M A) (k : A -> M B) :
  preserves R m -> (forall a, preserves R (k a)) -> preserves R (bind m k).
Proof.
  intros Hm Hk w. unfold bind. specialize (Hm w).
  destruct (m w) as [a w1]. cbn [snd] in Hm.
  eapply R_trans; [exact Hm|apply Hk].
Qed.

Lemma preserves_retry_loop q :
  preserves R (db_Exec q) -> (forall d, preserves R (time_Sleep d)) ->
  forall n i err, preserves R (retry_loop n i err q).
Proof.
  intros Hexec Hsleep. induction n as [|n IH]; intros i err; cbn [retry_loop].
  - apply preserves_ret.
  - apply preserves_bind; [exact Hexec|].
    intros [e|]; [|apply preserves_ret].
    destruct (is_busy_or_locked e); [|apply preserves_ret].
    apply preserves_bind; [apply Hsleep|intro; apply IH].
Qed.
End Preserves.

Lemma same_table_refl w : same_table w w.
Proof. now split. Qed.

Lemma same_table_trans a b c : same_table a b -> same_table b c -> same_table a c.
Proof. intros [H1 H2] [H3 H4]. split; congruence. Qed.

Lemma same_fs_refl w : same_fs w w.
Proof. reflexivity. Qed.

Lemma same_fs_trans a b c : same_fs a b -> same_fs b c -> same_fs a c.
Proof. unfold same_fs; congruence. Qed.

Lemma emits_refl P w : emits P w w.
Proof. exists []. now rewrite app_nil_r. Qed.

Lemma emits_trans P a b c : emits P a b -> emits P b c -> emits P a c.
Proof.
  intros [t1 [H1 F1]] [t2 [H2 F2]]. exists (t1 ++ t2).
  rewrite H2, H1, app_assoc, forallb_app, F1, F2. now split.
Qed.

Lemma table_step_refl c w : table_step c w w.
Proof.
  repeat split; auto. exists 0%nat. cbn. now rewrite app_nil_r.
Qed.

Lemma table_step_trans c w1 w2 w3 :
  table_step c w1 w2 -> table_step c w2 w3 -> table_step c w1 w3.
Proof.
  intros (A1 & [n1 B1] & C1 & D1) (A2 & [n2 B2] & C2 & D2).
  repeat split.
  - congruence.
  - exists (n1 + n2)%nat. rewrite B2, B1, <- app_assoc, repeat_app. reflexivity.
  - congruence.
  - intros Hk Hnd. apply D2; [congruence|]. now apply D1.
Qed.

Lemma same_table_step c w w' : same_table w w' -> table_step c w w'.
Proof.
  intros [Hr Hk]. unfold table_step, other_rows, identifiers.
  rewrite Hr, Hk. repeat split; auto.
  exists 0%nat. cbn. now rewrite app_nil_r.
Qed.

Lemma preserves_weaken {A : Type} (R R' : World -> World -> Prop) (m : M A) :
  (forall w w', R w w' -> R' w w') -> preserves R m -> preserves R' m.
Proof. intros H Hm w. apply H, Hm. Qed.

Create HintDb frame.

#[local] Hint Resolve same_table_refl same_table_trans same_fs_refl same_fs_trans
  emits_refl emits_trans table_step_refl table_step_trans : frame.

Ltac pre_refl :=
  first [ exact same_table_refl | exact same_fs_refl
        | exact (@emits_refl _) | exact (@table_step_refl _) ].

Ltac pre_trans :=
  first [ exact same_table_trans | exact same_fs_trans
        | exact (@emits_trans _) | exact (@table_step_trans _) ].

(** Follows the shape of a monadic term down to calls that the hint
    database knows. *)
Ltac frame :=
  repeat
    (lazymatch goal with
     | |- preserves _ (ret _) => apply preserves_ret; pre_refl
     | |- preserves _ (bind _ _) =>
         apply preserves_bind; [pre_trans | | intro]
     | |- preserves _ (retry_loop _ _ _ _) =>
         apply preserves_retry_loop; [pre_refl | pre_trans | | intro]
     | |- preserves _ (match ?x with _ => _ end) => destruct x
     | |- _ => solve [eauto with frame]
     end).

(** Runs a call on the environment on every script it may find. *)
Ltac prim :=
  (let v := fresh "w" in intro v);
  unfold db_Exec, db_QueryRow_Scan, client_Do, os_Stat, os_Open,
    ioutil_WriteFile, fetchSpecification, Printf, time_Sleep, bind, emit,
    fs_lookup, run_stmt;
  cbn [snd fst rows unique_code_is_key fs exec_faults query_faults write_faults
       http_replies enrich_results trace];
  repeat match goal with
         | |- context [match ?x with _ => _ end] => destruct x eqn:?
         end;
  unfold set_rows, set_fs, set_exec_faults, set_query_faults, set_write_faults,
    set_http_replies, set_enrich_results;
  cbn [snd fst rows unique_code_is_key fs exec_faults query_faults write_faults
       http_replies enrich_results trace].

Section Primitives.
Variable P : Event -> bool.

Lemma emits_one w w' e :
  trace w' = trace w ++ [e] -> P e = true -> emits P w w'.
Proof. intros Ht He. exists [e]. cbn. now rewrite He. Qed.

Lemma emit_emits e : P e = true -> preserves (emits P) (emit e).
Proof. intros He w. now apply emits_one with e. Qed.

Lemma Printf_emits f a :
  P (EvPrintf f a) = true -> preserves (emits P) (Printf f a).
Proof. apply emit_emits. Qed.

Lemma time_Sleep_emits d :
  P (EvSleep d) = true -> preserves (emits P) (time_Sleep d).
Proof. apply emit_emits. Qed.

Lemma db_Exec_emits q :
  P (EvExec q) = true -> preserves (emits P) (db_Exec q).
Proof. intro He. prim; (eapply emits_one; [reflexivity|eassumption]). Qed.

Lemma db_QueryRow_Scan_emits c :
  P (EvQuery c) = true -> preserves (emits P) (db_QueryRow_Scan c).
Proof. intro He. prim; (eapply emits_one; [reflexivity|eassumption]). Qed.

Lemma client_Do_emits m u :
  P (EvHttp m u) = true -> preserves (emits P) (client_Do m u).
Proof. intro He. prim; (eapply emits_one; [reflexivity|eassumption]). Qed.

Lemma os_Stat_emits p :
  P (EvStat p) = true -> preserves (emits P) (os_Stat p).
Proof. intro He. prim; (eapply emits_one; [reflexivity|eassumption]). Qed.
End Primitives.

Lemma emit_same_table e : preserves same_table (emit e).
Proof. prim. now split. Qed.

Lemma Printf_same_table f a : preserves same_table (Printf f a).
Proof. apply emit_same_table. Qed.

Lemma db_QueryRow_Scan_same_table c : preserves same_table (db_QueryRow_Scan c).
Proof. prim; now split. Qed.

Lemma client_Do_same_table m u : preserves same_table (client_Do m u).
Proof. prim; now split. Qed.

Lemma os_Stat_same_table p : preserves same_table (os_Stat p).
Proof. prim; now split. Qed.

Lemma os_Open_same_table p : preserves same_table (os_Open p).
Proof. prim; now split. Qed.

Lemma ioutil_WriteFile_same_table p c : preserves same_table (ioutil_WriteFile p c).
Proof. prim; now split. Qed.

Lemma fetchSpecification_same_table u : preserves same_table (fetchSpecification u).
Proof. prim; now split. Qed.

Lemma emit_same_fs e : preserves same_fs (emit e).
Proof. prim. reflexivity. Qed.

Lemma Printf_same_fs f a : preserves same_fs (Printf f a).
Proof. apply emit_same_fs. Qed.

Lemma time_Sleep_same_fs d : preserves same_fs (time_Sleep d).
Proof. apply emit_same_fs. Qed.

Lemma db_Exec_same_fs q : preserves same_fs (db_Exec q).
Proof. prim; reflexivity. Qed.

Lemma db_QueryRow_Scan_same_fs c : preserves same_fs (db_QueryRow_Scan c).
Proof. prim; reflexivity. Qed.

Lemma client_Do_same_fs m u : preserves same_fs (client_Do m u).
Proof. prim; reflexivity. Qed.

#[local] Hint Resolve emit_emits Printf_emits time_Sleep_emits db_Exec_emits
  db_QueryRow_Scan_emits client_Do_emits os_Stat_emits
  emit_same_table Printf_same_table db_QueryRow_Scan_same_table
  client_Do_same_table os_Stat_same_table os_Open_same_table
  ioutil_WriteFile_same_table fetchSpecification_same_table
  emit_same_fs Printf_same_fs time_Sleep_same_fs db_Exec_same_fs
  db_QueryRow_Scan_same_fs client_Do_same_fs : frame.

(** ** The two statements of a worker and the table *)

Lemma has_code_set_status_price c s p r :
  has_code c (set_status_price s p r) = has_code c r.
Proof. reflexivity. Qed.

Lemma other_rows_update c s p (l : list Product.t) :
  filter (fun r => negb (has_code c r))
         (map (fun r => if has_code c r then set_status_price s p r else r) l)
  = filter (fun r => negb (has_code c r)) l.
Proof.
  induction l as [|r l IH]; [reflexivity|]. cbn [map filter].
  destruct (has_code c r) eqn:Hr.
  - rewrite has_code_set_status_price, Hr. exact IH.
  - rewrite Hr. cbn. now rewrite IH.
Qed.

Lemma identifiers_update c s p (l : list Product.t) :
  map Product.UniqueCode
      (map (fun r => if has_code c r then set_status_price s p r else r) l)
  = map Product.UniqueCode l.
Proof.
  rewrite map_map. apply map_ext. intro r. now destruct (has_code c r).
Qed.

Lemma existsb_has_code c (l : list Product.t) :
  existsb (has_code c) l = false -> ~ In c (map Product.UniqueCode l).
Proof.
  induction l as [|r l IH]; cbn; [tauto|].
  intros H [Hc|Hin]; apply orb_false_iff in H as [H1 H2].
  - unfold has_code in H1. rewrite Hc, String.eqb_refl in H1. discriminate.
  - now apply IH.
Qed.

Lemma NoDup_snoc {A : Type} (l : list A) (a : A) :
  NoDup l -> ~ In a l -> NoDup (l ++ [a]).
Proof.
  intros Hl Ha. apply NoDup_rev in Hl. rewrite <- (rev_involutive (l ++ [a])).
  apply NoDup_rev. rewrite rev_app_distr. cbn. constructor; [|exact Hl].
  now rewrite <- in_rev.
Qed.

Lemma run_stmt_update_table_step c s p w :
  table_step c w (snd (run_stmt (UpdateRow s p c) w)).
Proof.
  unfold table_step, other_rows, identifiers. cbn.
  rewrite other_rows_update, identifiers_update. repeat split; auto.
  exists 0%nat. cbn. now rewrite app_nil_r.
Qed.

Lemma run_stmt_insert_table_step p w :
  table_step (Product.UniqueCode p) w (snd (run_stmt (InsertRow p) w)).
Proof.
  cbn [run_stmt].
  destruct (unique_code_is_key w && existsb (has_code (Product.UniqueCode p)) (rows w))
    eqn:Hg; [apply table_step_refl|].
  unfold table_step, other_rows, identifiers. cbn.
  rewrite filter_app, map_app. cbn.
  unfold has_code at 2. rewrite String.eqb_refl. cbn. rewrite app_nil_r.
  repeat split; auto.
  - now exists 1%nat.
  - intros Hk Hnd. rewrite Hk in Hg. cbn in Hg.
    apply NoDup_snoc; [exact Hnd|now apply existsb_has_code].
Qed.

Lemma same_table_preserves_step {A : Type} c (m : M A) :
  preserves same_table m -> preserves (table_step c) m.
Proof. apply preserves_weaken. apply same_table_step. Qed.

Lemma emit_table_step c e : preserves (table_step c) (emit e).
Proof. apply same_table_preserves_step, emit_same_table. Qed.

Lemma db_Exec_table_step c q : about c q -> preserves (table_step c) (db_Exec q).
Proof.
  intros Hq w. unfold db_Exec, bind.
  destruct (emit (EvExec q) w) as [u w1] eqn:He.
  assert (H1 : table_step c w w1).
  { pose proof (emit_table_step c (EvExec q) w) as H. now rewrite He in H. }
  assert (Hset : forall l, table_step c w1 (set_exec_faults l w1)).
  { intro l. apply same_table_step. now split. }
  assert (Hrun : forall w', table_step c w' (snd (run_stmt q w'))).
  { intro w'. destruct q as [|p|s p c']; cbn in Hq; [tauto|subst c|subst c'].
    - apply run_stmt_insert_table_step.
    - apply run_stmt_update_table_step. }
  destruct (exec_faults w1) as [|[e|] l].
  - eapply table_step_trans; [exact H1|apply Hrun].
  - cbn [snd]. eapply table_step_trans; [exact H1|apply Hset].
  - eapply table_step_trans; [exact H1|].
    eapply table_step_trans; [apply Hset|apply Hrun].
Qed.

#[local] Hint Resolve same_table_preserves_step db_Exec_table_step : frame.
#[local] Hint Extern 1 (_ = true) => reflexivity : frame.
#[local] Hint Extern 1 (about _ _) => reflexivity : frame.

(** ** What each function of the program leaves alone *)

Lemma executeWithRetry_table_step c q :
  about c q -> preserves (table_step c) (executeWithRetry q).
Proof. intro Hq. unfold executeWithRetry, time_Sleep. frame. Qed.

Lemma executeWithRetry_same_fs q : preserves same_fs (executeWithRetry q).
Proof. unfold executeWithRetry. frame. Qed.

Lemma productExists_same_table c : preserves same_table (productExists c).
Proof. unfold productExists. frame. Qed.

Lemma productExists_same_fs c : preserves same_fs (productExists c).
Proof. unfold productExists. frame. Qed.

Lemma fileExists_same_table p : preserves same_table (fileExists p).
Proof. unfold fileExists. frame. Qed.

Lemma uploadFile_same_table p : preserves same_table (uploadFile p).
Proof. unfold uploadFile. frame. Qed.

Lemma deleteFile_same_table c : preserves same_table (deleteFile c).
Proof. unfold deleteFile. frame. Qed.

Lemma deleteFile_same_fs c : preserves same_fs (deleteFile c).
Proof. unfold deleteFile. frame. Qed.

#[local] Hint Resolve executeWithRetry_table_step executeWithRetry_same_fs
  productExists_same_table productExists_same_fs fileExists_same_table
  uploadFile_same_table deleteFile_same_table deleteFile_same_fs : frame.

Lemma processItem_same_table item : preserves same_table (processItem item).
Proof. unfold processItem. frame. Qed.

#[local] Hint Resolve processItem_same_table : frame.

Lemma insertProduct_table_step p :
  preserves (table_step (Product.UniqueCode p)) (insertProduct p).
Proof. unfold insertProduct. frame. Qed.

Lemma updateProductStatus_table_step c s p :
  preserves (table_step c) (updateProductStatus c s p).
Proof. unfold updateProductStatus. frame. Qed.

#[local] Hint Resolve insertProduct_table_step updateProductStatus_table_step : frame.

Lemma worker_table_step item :
  preserves (table_step (Item.ID item)) (worker item).
Proof.
  unfold worker, insert_then_process.
  pose proof (insertProduct_table_step (new_product item)) as Hins.
  cbn [new_product Product.UniqueCode] in Hins.
  frame.
Qed.

(** ** The outcome of a store call and the table *)

Lemma run_stmt_same_table q w w2 :
  same_table w w2 ->
  fst (run_stmt q w2) = fst (run_stmt q w) /\
  rows (snd (run_stmt q w2)) = rows (snd (run_stmt q w)).
Proof.
  intros [Hr Hk]. destruct q as [|p|s p c]; cbn; rewrite ?Hr, ?Hk; auto.
  destruct (unique_code_is_key w && existsb (has_code (Product.UniqueCode p)) (rows w));
    cbn; auto.
Qed.

Lemma run_stmt_error_rows q w e :
  fst (run_stmt q w) = Some e -> rows (snd (run_stmt q w)) = rows w.
Proof.
  destruct q as [|p|s p c]; cbn; try discriminate.
  now destruct (unique_code_is_key w && existsb (has_code (Product.UniqueCode p)) (rows w)).
Qed.

(** A store call that reports success ran its statement once, on the table
    it found; one that reports an error left the table as it was. *)
Lemma retry_loop_outcome (n : nat) :
  forall i err q w r w',
    retry_loop n i err q w = (r, w') ->
    match r with
    | None => fst (run_stmt q w) = None /\
              rows w' = rows (snd (run_stmt q w))
    | Some _ => rows w' = rows w
    end.
Proof.
  induction n as [|n IH]; intros i err q w r w' H.
  - cbn in H. injection H as <- <-. reflexivity.
  - cbn [retry_loop] in H. unfold bind at 1 in H.
    destruct (db_Exec q w) as [e w1] eqn:He.
    assert (Hcases :
              (exists e0, e = Some e0 /\ same_table w w1) \/
              (exists w2, same_table w w2 /\ (e, w1) = run_stmt q w2)).
    { revert He. unfold db_Exec, bind, emit.
      cbn [exec_faults]. destruct (exec_faults w) as [|[e0|] l]; intro He.
      - right. eexists. split; [|symmetry; exact He]. now split.
      - left. exists e0. injection He as <- <-. now split.
      - right. eexists. split; [|symmetry; exact He]. now split. }
    destruct Hcases as [[e0 [-> Hs]]|[w2 [Hs Hrun]]].
    + destruct (is_busy_or_locked e0).
      * unfold bind, time_Sleep, emit in H.
        apply IH in H. cbn [rows unique_code_is_key] in H.
        assert (Hs' : same_table w
                  (mkWorld (rows w1) (unique_code_is_key w1) (fs w1) (exec_faults w1)
                     (query_faults w1) (write_faults w1) (http_replies w1)
                     (enrich_results w1)
                     (trace w1 ++ [EvSleep ((i + 1) * time_Millisecond * 100)])))
          by exact Hs.
        destruct (run_stmt_same_table q Hs') as [Hf Hr]. destruct Hs as [Hrw Hk].
        destruct r; [congruence|]. destruct H as [H1 H2]. split; congruence.
      * injection H as <- <-. apply Hs.
    + destruct (run_stmt_same_table q Hs) as [Hf Hr].
      rewrite <- Hrun in Hf, Hr. cbn [fst snd] in Hf, Hr.
      destruct e as [e0|].
      * assert (e0 = sqlite3_Error ErrConstraint) as ->.
        { destruct (run_stmt_result q w) as [Hn|Hc]; congruence. }
        cbn in H. injection H as <- <-. rewrite Hr.
        now apply run_stmt_error_rows with (sqlite3_Error ErrConstraint).
      * injection H as <- <-. split; [now symmetry|exact Hr].
Qed.

Lemma executeWithRetry_outcome q w r w' :
  executeWithRetry q w = (r, w') ->
  match r with
  | None => fst (run_stmt q w) = None /\ rows w' = rows (snd (run_stmt q w))
  | Some _ => rows w' = rows w
  end.
Proof. apply retry_loop_outcome. Qed.

Section EmitsStore.
Variable P : Event -> bool.
Hypothesis P_exec : forall q, P (EvExec q) = true.
Hypothesis P_query : forall c, P (EvQuery c) = true.
Hypothesis P_sleep : forall d, P (EvSleep d) = true.
Hypothesis P_printf : forall f a, P (EvPrintf f a) = true.

Lemma productExists_emits c : preserves (emits P) (productExists c).
Proof. unfold productExists. frame. Qed.

Lemma executeWithRetry_emits q : preserves (emits P) (executeWithRetry q).
Proof. unfold executeWithRetry. frame. Qed.

Lemma deleteFile_emits c :
  (forall u, P (EvHttp "DELETE" u) = true) ->
  preserves (emits P) (deleteFile c).
Proof. intro Hd. unfold deleteFile. frame. Qed.
End EmitsStore.

Lemma store_event_no_publish e : store_event e = true -> no_publish e = true.
Proof. destruct e; cbn; congruence. Qed.

(** ** The worker, case by case *)

Unset Implicit Arguments.

Lemma updated_rows_In c s p l r :
  In r (updated_rows c s p l) -> has_code c r = true ->
  Product.Status r = s /\ Product.Price r = p.
Proof.
  unfold updated_rows. intros Hin Hc. apply in_map_iff in Hin as [r0 [Hr0 _]].
  destruct (has_code c r0) eqn:H0; subst r; [now split|congruence].
Qed.

Lemma report_emits err : preserves (emits store_event) (report err).
Proof. unfold report. frame. Qed.

Lemma report_same_table err : preserves same_table (report err).
Proof. unfold report. frame. Qed.

Lemma report_same_fs err : preserves same_fs (report err).
Proof. unfold report. frame. Qed.

Lemma updateProductStatus_same_fs c s p :
  preserves same_fs (updateProductStatus c s p).
Proof. unfold updateProductStatus. frame. Qed.

Lemma insertProduct_same_fs p : preserves same_fs (insertProduct p).
Proof. unfold insertProduct. frame. Qed.

Lemma worker_unchanged_eq item w w0 p :
  productExists (Item.ID item) w = ((true, p, None), w0) ->
  float64_eq p (Item.Price item) = true ->
  worker item w =
  (let (err, w1) :=
     updateProductStatus (Item.ID item) "existing" (Item.Price item) w0 in
   report err w1).
Proof.
  intros Hlook Heq. unfold worker. erewrite bind_eq; [|exact Hlook].
  cbn iota beta. rewrite Heq. unfold bind.
  destruct (updateProductStatus _ _ _ w0) as [err w1]. reflexivity.
Qed.

(** C5: an item whose record exists with a persisted price equal to the
    item's price.  The worker causes store calls, pauses and console lines
    only: no request to the external store, no enrichment, no file access;
    the local files are as before.  When the update reports success, the
    rows of the identifier have status [existing] and a price equal to the
    persisted one, and all other rows are as they were; when it reports an
    error the table is as it was. *)
Theorem worker_price_unchanged (item : Item.t) (w w0 : World) (p : float64) :
  productExists (Item.ID item) w = ((true, p, None), w0) ->
  float64_eq p (Item.Price item) = true ->
  let upd := updateProductStatus (Item.ID item) "existing" (Item.Price item) w0 in
  let w' := snd (worker item w) in
  emits store_event w w'
  /\ fs w' = fs w
  /\ (fst upd = None ->
      rows w' = updated_rows (Item.ID item) "existing" (Item.Price item) (rows w)
      /\ forall r, In r (rows w') -> has_code (Item.ID item) r = true ->
           Product.Status r = "existing"
           /\ float64_eq p (Product.Price r) = true)
  /\ (forall e, fst upd = Some e -> rows w' = rows w).
Proof.
  intros Hlook Heq upd w'.
  pose proof (worker_unchanged_eq item w w0 p Hlook Heq) as Hw.
  pose proof (productExists_same_table (Item.ID item) w) as [Hr0 _].
  pose proof (productExists_same_fs (Item.ID item) w) as Hf0.
  assert (He0 : emits store_event w w0).
  { assert (H : preserves (emits store_event) (productExists (Item.ID item)))
      by (apply productExists_emits; intros; reflexivity).
    specialize (H w). now rewrite Hlook in H. }
  rewrite Hlook in Hr0, Hf0. cbn [snd] in Hr0, Hf0.
  subst w'. rewrite Hw. subst upd.
  assert (He1 : emits store_event w0
            (snd (executeWithRetry
                    (UpdateRow "existing" (Item.Price item) (Item.ID item)) w0)))
    by (apply executeWithRetry_emits; intros; reflexivity).
  pose proof (updateProductStatus_same_fs (Item.ID item) "existing"
                (Item.Price item) w0) as Hf1.
  pose proof (@executeWithRetry_outcome
                (UpdateRow "existing" (Item.Price item) (Item.ID item)) w0) as Hout.
  unfold updateProductStatus in *.
  destruct (executeWithRetry _ w0) as [err w1]. cbn [fst snd] in *.
  specialize (Hout err w1 eq_refl).
  pose proof (report_emits err w1) as He2.
  pose proof (report_same_table err w1) as [Hr2 _].
  pose proof (report_same_fs err w1) as Hf2.
  unfold same_fs in *.
  split; [eapply emits_trans; [exact He0|eapply emits_trans; eassumption]|].
  split; [congruence|]. split.
  - intros ->. destruct Hout as [_ Hrows]. cbn in Hrows.
    assert (Hrw : rows (snd (report None w1)) =
                  updated_rows (Item.ID item) "existing" (Item.Price item) (rows w))
      by (rewrite Hr2, Hrows, Hr0; reflexivity).
    split; [exact Hrw|].
    intros r Hin Hc. rewrite Hrw in Hin.
    destruct (updated_rows_In _ _ _ _ _ Hin Hc) as [Hs Hp].
    split; [exact Hs|]. now rewrite Hp.
  - intros e ->. congruence.
Qed.

Lemma fileExists_present path content v :
  fs_lookup path v = Some (RegularFile content) ->
  fileExists path v = (true, snd (emit (EvStat path) v)).
Proof.
  intro Hfs. unfold fileExists, os_Stat, bind. cbn [emit snd].
  unfold fs_lookup in *. cbn [fs]. now rewrite Hfs.
Qed.

Lemma processItem_present item content v :
  fs_lookup (outputFilePath item) v = Some (RegularFile content) ->
  processItem item v = (None, snd (emit (EvStat (outputFilePath item)) v)).
Proof.
  intro Hfs. unfold processItem.
  erewrite bind_eq; [|apply fileExists_present with content; exact Hfs].
  reflexivity.
Qed.

(** C7: when the output document of an item is on local storage,
    [processItem] asks for that path once and returns success: the world
    gains that one event and nothing else, so there is no enrichment, no
    local write and no upload; the path depends on the identifier alone;
    and running [processItem] again does the same. *)
Theorem processItem_short_circuit (item : Item.t) (w : World) (content : Document) :
  fs_lookup (outputFilePath item) w = Some (RegularFile content) ->
  let seen := snd (emit (EvStat (outputFilePath item)) w) in
  processItem item w = (None, seen)
  /\ processItem item seen
     = (None, snd (emit (EvStat (outputFilePath item)) seen))
  /\ fs seen = fs w /\ rows seen = rows w
  /\ http_replies seen = http_replies w
  /\ enrich_results seen = enrich_results w
  /\ (forall item', Item.ID item' = Item.ID item ->
        outputFilePath item' = outputFilePath item).
Proof.
  intros Hfs seen.
  assert (Hrun : forall v, fs v = fs w ->
            processItem item v = (None, snd (emit (EvStat (outputFilePath item)) v))).
  { intros v Hv. apply processItem_present with content.
    unfold fs_lookup in *. now rewrite Hv. }
  repeat split.
  - apply Hrun. reflexivity.
  - apply Hrun. reflexivity.
  - intros item' Hid. unfold outputFilePath. now rewrite Hid.
Qed.

(** ** The price-changed path *)

Lemma emits_with_emits P e w w' : emits_with P e w w' -> emits P w w'.
Proof. intros (t & Ht & Hp & _). now exists t. Qed.

Lemma emits_with_then P e a b c :
  emits_with P e a b -> emits P b c -> emits_with P e a c.
Proof.
  intros (t1 & H1 & F1 & I1) (t2 & H2 & F2). exists (t1 ++ t2).
  rewrite H2, H1, app_assoc, forallb_app, F1, F2. repeat split.
  apply in_or_app. now left.
Qed.

Lemma emits_then_with P e a b c :
  emits P a b -> emits_with P e b c -> emits_with P e a c.
Proof.
  intros (t1 & H1 & F1) (t2 & H2 & F2 & I2). exists (t1 ++ t2).
  rewrite H2, H1, app_assoc, forallb_app, F1, F2. repeat split.
  apply in_or_app. now right.
Qed.

Lemma emits_weaken (P Q : Event -> bool) w w' :
  (forall e, P e = true -> Q e = true) -> emits P w w' -> emits Q w w'.
Proof.
  intros HPQ (t & Ht & Hp). exists t. split; [exact Ht|].
  rewrite forallb_forall in *. auto.
Qed.

Lemma emits_first P e w w1 w' :
  trace w1 = trace w ++ [e] -> P e = true -> emits P w1 w' ->
  emits_with P e w w'.
Proof.
  intros H1 He (t & Ht & Hp). exists (e :: t).
  rewrite Ht, H1, <- app_assoc. cbn. rewrite He, Hp. repeat split. now left.
Qed.

Section EmitsWith.
Variable P : Event -> bool.
Hypothesis P_exec : forall q, P (EvExec q) = true.
Hypothesis P_sleep : forall d, P (EvSleep d) = true.
Hypothesis P_printf : forall f a, P (EvPrintf f a) = true.
Hypothesis P_delete : forall u, P (EvHttp "DELETE" u) = true.

(** Every store call makes at least its first attempt. *)
Lemma executeWithRetry_attempts q w :
  emits_with P (EvExec q) w (snd (executeWithRetry q w)).
Proof.
  unfold executeWithRetry. change (Z.to_nat maxRetries) with 5%nat.
  cbn [retry_loop]. unfold bind at 1. unfold db_Exec at 1. unfold bind at 1.
  destruct (emit (EvExec q) w) as [u w1] eqn:He.
  assert (Ht : trace w1 = trace w ++ [EvExec q])
    by (unfold emit in He; injection He as _ <-; reflexivity).
  set (next := fun v : World =>
         match exec_faults v with
         | [] => run_stmt q v
         | Some e :: rest => (Some e, set_exec_faults rest v)
         | None :: rest => run_stmt q (set_exec_faults rest v)
         end).
  assert (Hnext : emits P w1 (snd (next w1))).
  { exists []. rewrite app_nil_r. split; [|reflexivity]. subst next. cbn beta.
    destruct (exec_faults w1) as [|[e|] l]; try reflexivity;
      destruct q; cbn; try reflexivity;
      match goal with |- context [if ?b then _ else _] => destruct b end;
      reflexivity. }
  change (emits_with P (EvExec q) w
            (snd (let (a, w') := next w1 in
                  match a with
                  | Some e' =>
                      if is_busy_or_locked e'
                      then (time_Sleep ((0 + 1) * time_Millisecond * 100);;;
                            retry_loop 4 (0 + 1) (Some e') q)
                      else ret (Some e')
                  | None => ret None
                  end w'))).
  destruct (next w1) as [a w2]. cbn [snd] in Hnext.
  apply emits_first with w1; [exact Ht|apply P_exec|].
  eapply emits_trans; [exact Hnext|].
  destruct a as [e'|]; [|apply emits_refl].
  destruct (is_busy_or_locked e'); [|apply emits_refl].
  assert (H : preserves (emits P)
                (time_Sleep ((0 + 1) * time_Millisecond * 100);;;
                 retry_loop 4 (0 + 1) (Some e') q)) by frame.
  apply H.
Qed.

(** The removal sends its request whenever the URL can be built. *)
Lemma remove_prior_requests c w :
  url_parses (delete_url c) = true ->
  emits_with P (EvHttp "DELETE" (delete_url c)) w (snd (remove_prior c w)).
Proof.
  intro Hurl. unfold remove_prior, deleteFile, http_NewRequest.
  rewrite Hurl. unfold bind at 1. unfold bind at 1.
  unfold client_Do at 1. unfold bind at 1.
  destruct (emit (EvHttp "DELETE" (delete_url c)) w) as [u w1] eqn:He.
  assert (Ht : trace w1 = trace w ++ [EvHttp "DELETE" (delete_url c)])
    by (unfold emit in He; injection He as _ <-; reflexivity).
  apply emits_first with w1; [exact Ht|apply P_delete|].
  destruct (http_replies w1) as [|[msg|code body] l].
  - cbn. eapply emits_one; [reflexivity|apply P_printf].
  - cbn. eapply emits_one; [reflexivity|apply P_printf].
  - cbn [snd]. unfold bind.
    destruct (code =? http_StatusNoContent); cbn;
      (eapply emits_one; [reflexivity|apply P_printf]).
Qed.

Lemma remove_prior_emits c : preserves (emits P) (remove_prior c).
Proof. unfold remove_prior, deleteFile. frame. Qed.
End EmitsWith.

Lemma remove_prior_same_table c : preserves same_table (remove_prior c).
Proof. unfold remove_prior. frame. Qed.

Lemma remove_prior_same_fs c : preserves same_fs (remove_prior c).
Proof. unfold remove_prior. frame. Qed.

Lemma productExists_found c w w0 p :
  productExists c w = ((true, p, None), w0) -> In c (identifiers w).
Proof.
  unfold productExists, db_QueryRow_Scan, bind, emit, identifiers.
  cbn [query_faults rows].
  assert (Hfind : forall l, find (has_code c) l <> None ->
                            In c (map Product.UniqueCode l)).
  { intros l Hl. destruct (find (has_code c) l) as [r|] eqn:Hr; [|congruence].
    apply find_some in Hr as [Hin Hc]. unfold has_code in Hc.
    apply String.eqb_eq in Hc. rewrite <- Hc. now apply in_map. }
  destruct (query_faults w) as [|[e|] l].
  - destruct (find (has_code c) (rows w)) as [r|] eqn:Hr;
      [destruct (sqlite_column (Product.Price r))|]; cbn; intro H;
      solve [apply Hfind; congruence|discriminate].
  - destruct e; cbn; discriminate.
  - unfold set_query_faults. cbn [rows].
    destruct (find (has_code c) (rows w)) as [r|] eqn:Hr;
      [destruct (sqlite_column (Product.Price r))|]; cbn; intro H;
      solve [apply Hfind; congruence|discriminate].
Qed.

Lemma In_existsb_has_code c (l : list Product.t) :
  In c (map Product.UniqueCode l) -> existsb (has_code c) l = true.
Proof.
  intro H. destruct (existsb (has_code c) l) eqn:E; [reflexivity|].
  now apply existsb_has_code in E.
Qed.

(** The two statements of the price-changed path when the store lets the
    first attempt through: the update runs; the insert, of an identifier
    that is in the table, is decided by the key. *)
Lemma changed_calls_let_through item w w0 p :
  productExists (Item.ID item) w = ((true, p, None), w0) ->
  let upd := updateProductStatus (Item.ID item) "updated" (Item.Price item) w0 in
  let del := remove_prior (Item.ID item) (snd upd) in
  let ins := insertProduct (new_product item) (snd del) in
  (hd None (exec_faults w0) = None -> fst upd = None)
  /\ (hd None (exec_faults (snd del)) = None ->
      fst ins = if unique_code_is_key w
                then Some (sqlite3_Error ErrConstraint) else None).
Proof.
  intros Hlook upd del ins. split.
  - intro Hhd. subst upd. unfold updateProductStatus, executeWithRetry.
    change (Z.to_nat maxRetries) with 5%nat.
    rewrite retry_loop_runs by exact Hhd. reflexivity.
  - intro Hhd.
    pose proof (productExists_found _ _ _ _ Hlook) as Hin.
    pose proof (productExists_same_table (Item.ID item) w) as [Hr0 Hk0].
    rewrite Hlook in Hr0, Hk0. cbn [snd] in Hr0, Hk0.
    destruct (updateProductStatus_table_step (Item.ID item) "updated"
                (Item.Price item) w0) as (_ & [n Hn] & Hk1 & _).
    fold upd in Hn, Hk1.
    pose proof (remove_prior_same_table (Item.ID item) (snd upd)) as [Hr2 Hk2].
    fold del in Hr2, Hk2.
    assert (Hpresent : existsb (has_code (Item.ID item)) (rows (snd del)) = true).
    { apply In_existsb_has_code. rewrite Hr2.
      change (In (Item.ID item) (identifiers (snd upd))). rewrite Hn.
      apply in_or_app. left. unfold identifiers. now rewrite Hr0. }
    assert (Hkey : unique_code_is_key (snd del) = unique_code_is_key w)
      by congruence.
    subst ins. unfold insertProduct, executeWithRetry.
    change (Z.to_nat maxRetries) with 5%nat.
    rewrite retry_loop_runs by exact Hhd. cbn [run_stmt].
    unfold set_exec_faults, attempt, emit.
    cbn [snd rows unique_code_is_key new_product Product.UniqueCode].
    rewrite Hkey, Hpresent. now destruct (unique_code_is_key w).
Qed.

Lemma worker_changed_eq item w w0 p :
  productExists (Item.ID item) w = ((true, p, None), w0) ->
  float64_eq p (Item.Price item) = false ->
  worker item w =
  (let (_, w1) :=
     updateProductStatus (Item.ID item) "updated" (Item.Price item) w0 in
   let (_, w2) := remove_prior (Item.ID item) w1 in
   let (err, w3) := insertProduct (new_product item) w2 in
   match err with
   | None => let (err', w4) := processItem item w3 in report err' w4
   | Some e => report (Some e) w3
   end).
Proof.
  intros Hlook Hne. unfold worker. erewrite bind_eq; [|exact Hlook].
  cbn iota beta. rewrite Hne. unfold insert_then_process, remove_prior, bind.
  destruct (updateProductStatus _ _ _ w0) as [e1 w1].
  destruct (deleteFile (Item.ID item) w1) as [[e2|] w2].
  - destruct (Printf _ _ w2) as [u w2'].
    destruct (insertProduct _ w2') as [[e3|] w3]; [reflexivity|].
    destruct (processItem item w3) as [e4 w4]. reflexivity.
  - cbn [ret].
    destruct (insertProduct _ w2) as [[e3|] w3]; [reflexivity|].
    destruct (processItem item w3) as [e4 w4]. reflexivity.
Qed.

(** C1: an item whose record exists with a persisted price different from
    the item's price.  The worker (1) calls the update to status [updated]
    with the new price, which succeeds whenever the store lets its first
    attempt through, and on success leaves exactly the rows of this
    identifier so marked; (2) attempts the removal of the prior document,
    which never touches the table, sends its DELETE request whenever the
    URL can be built, and whatever it returns, the worker goes on; (3)
    attempts the insert of the row (identifier, price, mpn, [new]): when
    the store lets the first attempt through, the insert succeeds if the
    schema declares no key on the identifier and is refused with the
    constraint error if it does, the identifier being in the table; on
    success the row is appended to the table; and (4) runs [processItem]
    exactly when that insert reported success: after a failed insert the
    worker only prints the error. *)
Theorem worker_price_changed (item : Item.t) (w w0 : World) (p : float64) :
  productExists (Item.ID item) w = ((true, p, None), w0) ->
  float64_eq p (Item.Price item) = false ->
  let upd := updateProductStatus (Item.ID item) "updated" (Item.Price item) w0 in
  let del := remove_prior (Item.ID item) (snd upd) in
  let ins := insertProduct (new_product item) (snd del) in
  emits_with store_event
    (EvExec (UpdateRow "updated" (Item.Price item) (Item.ID item))) w0 (snd upd)
  /\ (fst upd = None ->
      rows (snd upd)
      = updated_rows (Item.ID item) "updated" (Item.Price item) (rows w))
  /\ rows (snd del) = rows (snd upd)
  /\ (url_parses (delete_url (Item.ID item)) = true ->
      emits_with no_publish (EvHttp "DELETE" (delete_url (Item.ID item)))
                 (snd upd) (snd del))
  /\ emits_with store_event (EvExec (InsertRow (new_product item)))
                (snd del) (snd ins)
  /\ (fst ins = None ->
      rows (snd ins) = rows (snd del) ++ [new_product item]
      /\ worker item w
         = (let (err, w4) := processItem item (snd ins) in report err w4))
  /\ (forall e, fst ins = Some e ->
      rows (snd ins) = rows (snd del)
      /\ worker item w = report (Some e) (snd ins))
  /\ (hd None (exec_faults w0) = None -> fst upd = None)
  /\ (hd None (exec_faults (snd del)) = None ->
      fst ins = if unique_code_is_key w
                then Some (sqlite3_Error ErrConstraint) else None).
Proof.
  intros Hlook Hne upd del ins.
  pose proof (changed_calls_let_through item w w0 p Hlook) as Hthrough.
  cbv zeta in Hthrough. fold upd del ins in Hthrough.
  destruct Hthrough as [Hthrough1 Hthrough2].
  rewrite <- !and_assoc. split; [split; [|exact Hthrough1]|exact Hthrough2].
  rewrite !and_assoc. clear Hthrough1 Hthrough2.
  pose proof (worker_changed_eq item w w0 p Hlook Hne) as Hw.
  pose proof (productExists_same_table (Item.ID item) w) as [Hr0 _].
  rewrite Hlook in Hr0. cbn [snd] in Hr0.
  subst ins del upd.
  destruct (updateProductStatus _ _ _ w0) as [e1 w1] eqn:Hupd. cbn [fst snd] in *.
  destruct (remove_prior _ w1) as [u w2] eqn:Hdel. cbn [fst snd] in *.
  destruct (insertProduct _ w2) as [e3 w3] eqn:Hins. cbn [fst snd] in *.
  split.
  { replace w1 with (snd (executeWithRetry
       (UpdateRow "updated" (Item.Price item) (Item.ID item)) w0))
      by (unfold updateProductStatus in Hupd; now rewrite Hupd).
    apply executeWithRetry_attempts; intros; reflexivity. }
  split.
  { intros ->. apply executeWithRetry_outcome in Hupd as [_ Hrows].
    rewrite Hrows. cbn. now rewrite Hr0. }
  split.
  { pose proof (remove_prior_same_table (Item.ID item) w1) as [H _].
    now rewrite Hdel in H. }
  split.
  { intro Hurl. replace w2 with (snd (remove_prior (Item.ID item) w1))
      by now rewrite Hdel.
    apply remove_prior_requests; intros; try reflexivity. exact Hurl. }
  split.
  { replace w3 with (snd (executeWithRetry (InsertRow (new_product item)) w2))
      by (unfold insertProduct in Hins; now rewrite Hins).
    apply executeWithRetry_attempts; intros; reflexivity. }
  split.
  - intros ->. split; [|exact Hw].
    apply executeWithRetry_outcome in Hins as [Hrun Hrows].
    rewrite Hrows. cbn [run_stmt] in *.
    destruct (unique_code_is_key w2 && _); [discriminate|reflexivity].
  - intros e ->. split; [|exact Hw].
    now apply executeWithRetry_outcome in Hins.
Qed.

Lemma processItem_present_emits item content w :
  fs_lookup (outputFilePath item) w = Some (RegularFile content) ->
  emits no_publish w (snd (processItem item w))
  /\ fst (processItem item w) = None
  /\ fs (snd (processItem item w)) = fs w.
Proof.
  intro Hfs.
  rewrite (processItem_present item content w Hfs). cbn [fst snd]. repeat split.
  eapply emits_one; [reflexivity|reflexivity].
Qed.

(** A price-changed item whose output document is already on local
    storage: everything the worker causes is free of publishing steps (no
    enrichment, no local write, no file opened for upload, no POST to the
    external store), although the insert of the new row is attempted and,
    whenever the URL can be built, the DELETE request for the prior
    document is sent. *)
Lemma worker_changed_document_present_frame
    (item : Item.t) (w w0 : World) (p : float64) (content : Document) :
  productExists (Item.ID item) w = ((true, p, None), w0) ->
  float64_eq p (Item.Price item) = false ->
  fs_lookup (outputFilePath item) w = Some (RegularFile content) ->
  let w' := snd (worker item w) in
  emits_with no_publish (EvExec (InsertRow (new_product item))) w w'
  /\ (url_parses (delete_url (Item.ID item)) = true ->
      emits_with no_publish (EvHttp "DELETE" (delete_url (Item.ID item))) w w')
  /\ fs w' = fs w
  /\ (forall v, fs v = fs w ->
      processItem item v = (None, snd (emit (EvStat (outputFilePath item)) v))).
Proof.
  intros Hlook Hne Hfs w'.
  pose proof (worker_changed_eq item w w0 p Hlook Hne) as Hw.
  assert (Hnp : forall e, store_event e = true -> no_publish e = true)
    by apply store_event_no_publish.
  assert (E0 : emits no_publish w w0).
  { assert (H : preserves (emits no_publish) (productExists (Item.ID item)))
      by (apply productExists_emits; intros; reflexivity).
    specialize (H w). now rewrite Hlook in H. }
  pose proof (productExists_same_fs (Item.ID item) w) as F0.
  rewrite Hlook in F0. cbn [snd] in F0.
  assert (E1 : emits no_publish w0
                 (snd (updateProductStatus (Item.ID item) "updated"
                         (Item.Price item) w0)))
    by (apply executeWithRetry_emits; intros; reflexivity).
  pose proof (updateProductStatus_same_fs (Item.ID item) "updated"
                (Item.Price item) w0) as F1.
  destruct (updateProductStatus _ _ _ w0) as [e1 w1]. cbn [snd] in *.
  assert (E2 : emits no_publish w1 (snd (remove_prior (Item.ID item) w1)))
    by (apply remove_prior_emits; intros; reflexivity).
  assert (E2' : url_parses (delete_url (Item.ID item)) = true ->
                emits_with no_publish
                  (EvHttp "DELETE" (delete_url (Item.ID item))) w1
                  (snd (remove_prior (Item.ID item) w1)))
    by (intro Hurl; apply remove_prior_requests; intros; try reflexivity;
        exact Hurl).
  pose proof (remove_prior_same_fs (Item.ID item) w1) as F2.
  destruct (remove_prior _ w1) as [u w2]. cbn [snd] in *.
  assert (E3 : emits_with no_publish (EvExec (InsertRow (new_product item))) w2
                 (snd (insertProduct (new_product item) w2)))
    by (apply executeWithRetry_attempts; intros; reflexivity).
  pose proof (insertProduct_same_fs (new_product item) w2) as F3.
  destruct (insertProduct _ w2) as [e3 w3]. cbn [snd] in *.
  unfold same_fs in *.
  assert (Hfs3 : fs_lookup (outputFilePath item) w3 = Some (RegularFile content))
    by (unfold fs_lookup in *; rewrite F3, F2, F1, F0; exact Hfs).
  assert (Tail : emits no_publish w3 w' /\ fs w' = fs w3).
  { subst w'. rewrite Hw. destruct e3 as [e|].
    - split.
      + apply emits_weaken with store_event; [exact Hnp|apply report_emits].
      + apply report_same_fs.
    - destruct (processItem_present_emits item content w3 Hfs3) as (E4 & _ & F4).
      destruct (processItem item w3) as [e4 w4]. cbn [snd] in *. split.
      + eapply emits_trans; [exact E4|].
        apply emits_weaken with store_event; [exact Hnp|apply report_emits].
      + rewrite <- F4. apply report_same_fs. }
  destruct Tail as [E5 F5].
  split.
  { apply emits_then_with with w2;
      [eapply emits_trans; [exact E0|eapply emits_trans; eassumption]|].
    apply emits_with_then with w3; assumption. }
  split.
  { intro Hurl. apply emits_then_with with w1;
      [eapply emits_trans; eassumption|].
    apply emits_with_then with w2; [now apply E2'|].
    eapply emits_trans; [apply emits_with_emits in E3; exact E3|exact E5]. }
  split; [congruence|].
  intros v Hv. apply processItem_present with content.
  unfold fs_lookup in *. now rewrite Hv.
Qed.

(** C10: a price-changed item whose output document is already on local
    storage.  The worker sends the update, which runs whenever the store
    lets its first attempt through and leaves the rows of the identifier
    marked [updated] at the new price; it sends the DELETE request for the
    prior document whenever the URL can be built; it attempts the insert
    of the new row, which, when the store lets the first attempt through,
    succeeds if the schema declares no key on the identifier and is
    refused if it does.  After an insert that succeeded the table is the
    one after the update with the row (identifier, price, mpn, [new])
    appended, and all that the worker does then is the file check of
    [processItem], which finds the document and returns success: the
    world at the end is the world after the insert with that one event
    added.  After an insert that failed the worker prints the error and
    the table is the one after the update.  On either path there is no
    enrichment, no local write, no file opened for an upload and no POST:
    nothing is uploaded, and the local files are as before. *)
Theorem worker_price_changed_document_present
    (item : Item.t) (w w0 : World) (p : float64) (content : Document) :
  productExists (Item.ID item) w = ((true, p, None), w0) ->
  float64_eq p (Item.Price item) = false ->
  fs_lookup (outputFilePath item) w = Some (RegularFile content) ->
  let upd := updateProductStatus (Item.ID item) "updated" (Item.Price item) w0 in
  let del := remove_prior (Item.ID item) (snd upd) in
  let ins := insertProduct (new_product item) (snd del) in
  let w' := snd (worker item w) in
  (hd None (exec_faults w0) = None ->
   fst upd = None
   /\ rows (snd upd)
      = updated_rows (Item.ID item) "updated" (Item.Price item) (rows w))
  /\ (url_parses (delete_url (Item.ID item)) = true ->
      emits_with no_publish (EvHttp "DELETE" (delete_url (Item.ID item))) w w')
  /\ emits_with no_publish (EvExec (InsertRow (new_product item))) w w'
  /\ (hd None (exec_faults (snd del)) = None ->
      fst ins = if unique_code_is_key w
                then Some (sqlite3_Error ErrConstraint) else None)
  /\ (fst ins = None ->
      worker item w = (tt, snd (emit (EvStat (outputFilePath item)) (snd ins)))
      /\ rows w' = rows (snd upd) ++ [new_product item])
  /\ (forall e, fst ins = Some e ->
      worker item w = report (Some e) (snd ins)
      /\ rows w' = rows (snd upd))
  /\ fs w' = fs w
  /\ (forall v, fs v = fs w ->
      processItem item v = (None, snd (emit (EvStat (outputFilePath item)) v))).
Proof.
  intros Hlook Hne Hfs upd del ins w'.
  pose proof (worker_changed_document_present_frame item w w0 p content
                Hlook Hne Hfs) as Hframe.
  cbv zeta in Hframe. fold w' in Hframe.
  destruct Hframe as (Hinsert & Hdelete & Hfiles & Hcheck).
  pose proof (changed_calls_let_through item w w0 p Hlook) as Hthrough.
  cbv zeta in Hthrough. fold upd del ins in Hthrough.
  destruct Hthrough as [Hthrough1 Hthrough2].
  pose proof (worker_changed_eq item w w0 p Hlook Hne) as Hw.
  pose proof (productExists_same_table (Item.ID item) w) as [Hr0 _].
  rewrite Hlook in Hr0. cbn [snd] in Hr0.
  pose proof (productExists_same_fs (Item.ID item) w) as F0.
  rewrite Hlook in F0. cbn [snd] in F0.
  pose proof (updateProductStatus_same_fs (Item.ID item) "updated"
                (Item.Price item) w0) as F1. fold upd in F1.
  pose proof (remove_prior_same_fs (Item.ID item) (snd upd)) as F2.
  fold del in F2.
  pose proof (remove_prior_same_table (Item.ID item) (snd upd)) as [R2 _].
  fold del in R2.
  pose proof (insertProduct_same_fs (new_product item) (snd del)) as F3.
  fold ins in F3. unfold same_fs in *.
  assert (Hfs3 : fs_lookup (outputFilePath item) (snd ins)
                 = Some (RegularFile content))
    by (unfold fs_lookup in *; rewrite F3, F2, F1, F0; exact Hfs).
  assert (Hupd : upd = (fst upd, snd upd)) by apply surjective_pairing.
  assert (Hdel : del = (fst del, snd del)) by apply surjective_pairing.
  assert (Hins : ins = (fst ins, snd ins)) by apply surjective_pairing.
  fold upd in Hw. rewrite Hupd in Hw. fold del in Hw. rewrite Hdel in Hw.
  fold ins in Hw. rewrite Hins in Hw.
  split.
  { intro Hhd. specialize (Hthrough1 Hhd). split; [exact Hthrough1|].
    pose proof (@executeWithRetry_outcome
                  (UpdateRow "updated" (Item.Price item) (Item.ID item))
                  w0 (fst upd) (snd upd)) as Hout.
    rewrite <- surjective_pairing in Hout. specialize (Hout eq_refl).
    rewrite Hthrough1 in Hout. destruct Hout as [_ Hout].
    rewrite Hout. cbn. now rewrite Hr0. }
  split; [exact Hdelete|]. split; [exact Hinsert|]. split; [exact Hthrough2|].
  pose proof (@executeWithRetry_outcome (InsertRow (new_product item))
                (snd del) (fst ins) (snd ins)) as Hout.
  rewrite <- surjective_pairing in Hout. specialize (Hout eq_refl).
  split.
  { intro Hok. rewrite Hok in Hw, Hout.
    rewrite (processItem_present item content (snd ins) Hfs3) in Hw.
    split; [exact Hw|]. subst w'. rewrite Hw. cbn [snd emit rows].
    destruct Hout as [Hrun Hrows]. rewrite Hrows. cbn [run_stmt] in *.
    destruct (unique_code_is_key (snd del) && _); [discriminate|].
    cbn. now rewrite R2. }
  split.
  { intros e He. rewrite He in Hw, Hout. split; [exact Hw|].
    subst w'. rewrite Hw.
    pose proof (report_same_table (Some e) (snd ins)) as [Hrep _].
    rewrite Hrep, Hout. exact R2. }
  split; assumption.
Qed.

(** ** The scheduler *)

Lemma tally_nonneg f gs : 0 <= tally f gs.
Proof.
  induction gs as [|[i ph] gs IH]; cbn; [lia|]. destruct (f ph); lia.
Qed.

Lemma tally_app f gs gs' : tally f (gs ++ gs') = tally f gs + tally f gs'.
Proof.
  induction gs as [|[i ph] gs IH]; cbn; [lia|]. rewrite IH. lia.
Qed.

Lemma tally_set_phase f gs :
  forall k item ph ph',
    nth_error gs k = Some (item, ph) ->
    tally f (set_phase k ph' gs)
    = tally f gs - (if f ph then 1 else 0) + (if f ph' then 1 else 0).
Proof.
  induction gs as [|[i p] gs IH]; intros k item ph ph' Hk.
  - destruct k; discriminate.
  - destruct k as [|k]; cbn in *.
    + injection Hk as -> ->. lia.
    + rewrite (IH k item ph ph' Hk). lia.
Qed.

Lemma map_fst_set_phase gs :
  forall k ph', map fst (set_phase k ph' gs) = map fst gs.
Proof.
  induction gs as [|[i p] gs IH]; intros k ph'; [now destruct k|].
  destruct k as [|k]; cbn; [reflexivity|]. now rewrite IH.
Qed.

Lemma tally_zero_Forall f gs :
  tally f gs = 0 -> Forall (fun g => f (snd g) = false) gs.
Proof.
  induction gs as [|[i ph] gs IH]; cbn; intro H; constructor.
  - cbn. pose proof (tally_nonneg f gs). destruct (f ph); [lia|reflexivity].
  - apply IH. pose proof (tally_nonneg f gs). destruct (f ph); lia.
Qed.

Lemma Inv_start items w : Inv items (processXMLData items w).
Proof. constructor; cbn; try reflexivity; try discriminate. Qed.

Lemma Inv_main_step items r r' :
  Inv items r -> main_step r = Some r' -> Inv items r' /\ world r' = world r.
Proof.
  intros [Hsem Hcap Hwg Hitems Hret Hmx] Hstep. unfold main_step in Hstep.
  destruct (pc r) as [[|item rest]|item rest|item rest| |] eqn:Hpc;
    cbn in *; try discriminate.
  - injection Hstep as <-. split; [|reflexivity].
    constructor; cbn; try assumption; try lia; discriminate.
  - destruct (sem r <? maxWorkers) eqn:Hlt; [|discriminate].
    injection Hstep as <-. split; [|reflexivity].
    apply Z.ltb_lt in Hlt.
    constructor; cbn; try assumption; try lia; discriminate.
  - injection Hstep as <-. split; [|reflexivity].
    constructor; cbn; try assumption; try lia; discriminate.
  - injection Hstep as <-. split; [|reflexivity].
    constructor; cbn; rewrite ?tally_app, ?map_app; cbn; try lia.
    + now rewrite <- app_assoc.
    + discriminate.
  - destruct (wg r =? 0) eqn:Hz; [|discriminate].
    injection Hstep as <-. split; [|reflexivity].
    apply Z.eqb_eq in Hz.
    constructor; cbn; try assumption; try lia.
Qed.

Lemma nth_error_map_fst_In (gs : list (Item.t * Phase)) k item ph :
  nth_error gs k = Some (item, ph) -> In item (map fst gs).
Proof.
  intro H. apply nth_error_In in H. apply in_map_iff. now exists (item, ph).
Qed.

Lemma Inv_goroutine_step items k r r' :
  Inv items r -> goroutine_step k r = Some r' ->
  Inv items r' /\
  (world r' = world r \/
   exists item, In item items /\ world r' = snd (worker item (world r))).
Proof.
  intros [Hsem Hcap Hwg Hitems Hret Hmx] Hstep. unfold goroutine_step in Hstep.
  destruct (nth_error (goroutines r) k) as [[item ph]|] eqn:Hk; [|discriminate].
  assert (Hin : In item items).
  { rewrite <- Hitems. apply in_or_app. left.
    now apply nth_error_map_fst_In with k ph. }
  pose proof (fun f ph' => tally_set_phase f (goroutines r) k item ph ph' Hk) as Ht.
  pose proof (fun f ph' => tally_nonneg f (set_phase k ph' (goroutines r))) as Hn.
  destruct ph; cbn in Hstep.
  - destruct (mutex r) eqn:Hm; [discriminate|]. injection Hstep as <-.
    split; [|now left].
    constructor; cbn; rewrite ?Ht, ?map_fst_set_phase; cbn; try assumption; lia.
  - injection Hstep as <-. split; [|right; now exists item].
    constructor; cbn; rewrite ?Ht, ?map_fst_set_phase; cbn; try assumption; lia.
  - injection Hstep as <-. split; [|now left].
    constructor; cbn; rewrite ?Ht, ?map_fst_set_phase; cbn; try assumption; try lia.
    specialize (Hn in_critical Unlocked). rewrite Ht in Hn. cbn in Hn.
    destruct (mutex r); lia.
  - injection Hstep as <-. split; [|now left].
    constructor; cbn; rewrite ?Ht, ?map_fst_set_phase; cbn; try assumption; try lia.
    intro Hp. specialize (Hret Hp). specialize (Hn unsignalled Signalled).
    rewrite Ht in Hn. cbn in Hn. rewrite Hp in Hwg. cbn in Hwg. lia.
  - injection Hstep as <-. split; [|now left].
    constructor; cbn; rewrite ?Ht, ?map_fst_set_phase; cbn; try assumption; lia.
  - discriminate.
Qed.

(** What holds of the world at the start and is kept by the worker of
    every item of the feed holds of the world all along the run. *)
Lemma run_schedule_invariant (items : list Item.t) (Q : World -> Prop) :
  (forall item w, In item items -> Q w -> Q (snd (worker item w))) ->
  forall s r, Inv items r -> Q (world r) ->
              Inv items (run_schedule s r) /\ Q (world (run_schedule s r)).
Proof.
  intros HQ. induction s as [|c s IH]; intros r Hinv Hq; [now split|].
  cbn [run_schedule]. destruct (step c r) as [r'|] eqn:Hstep; [|now apply IH].
  destruct c as [|k]; cbn in Hstep.
  - destruct (Inv_main_step items r r' Hinv Hstep) as [Hinv' Hw].
    apply IH; [exact Hinv'|now rewrite Hw].
  - destruct (Inv_goroutine_step items k r r' Hinv Hstep)
      as [Hinv' [Hw|[item [Hin Hw]]]].
    + apply IH; [exact Hinv'|now rewrite Hw].
    + apply IH; [exact Hinv'|]. rewrite Hw. now apply HQ.
Qed.

(** C9: along every interleaving of [processXMLData], the goroutines that
    have started and not yet given their token back are at most
    [maxWorkers] = 5 (and at most one of them is inside the body of
    [worker]); and once the main thread is past [wg.Wait], every item of
    the feed has a goroutine, in feed order, and the worker of every one of
    them has returned. *)
Theorem processXMLData_bound_and_barrier
    (items : list Item.t) (w : World) (s : list Choice) :
  let r := run_schedule s (processXMLData items w) in
  tally in_flight (goroutines r) <= 5
  /\ tally in_critical (goroutines r) <= 1
  /\ (pc r = Returned ->
      map fst (goroutines r) = items
      /\ Forall (fun g => unsignalled (snd g) = false) (goroutines r)).
Proof.
  intro r.
  destruct (run_schedule_invariant items (fun _ => True) (fun _ _ _ _ => I) s
              (processXMLData items w) (Inv_start items w) I)
    as [[Hsem Hcap Hwg Hitems Hret Hmx] _].
  fold r in Hsem, Hcap, Hwg, Hitems, Hret, Hmx.
  assert (Hahead : 0 <= token_ahead (pc r)) by (destruct (pc r); cbn; lia).
  split; [change 5 with maxWorkers; lia|].
  split; [rewrite Hmx; destruct (mutex r); lia|].
  intro Hpc. specialize (Hret Hpc). rewrite Hpc in Hitems, Hwg.
  cbn in Hitems, Hwg. rewrite app_nil_r in Hitems. split; [exact Hitems|].
  apply tally_zero_Forall. lia.
Qed.

(** ** Records of identifiers that the feed does not name *)

Lemma filter_filter_implied {A : Type} (f g : A -> bool) (l : list A) :
  (forall x, f x = true -> g x = true) ->
  filter f (filter g l) = filter f l.
Proof.
  intro Hfg. induction l as [|x l IH]; [reflexivity|]. cbn.
  destruct (g x) eqn:Hg; cbn.
  - now rewrite IH.
  - destruct (f x) eqn:Hf; [|exact IH]. apply Hfg in Hf. congruence.
Qed.

Lemma in_feed_has_code items item r :
  In item items -> has_code (Item.ID item) r = true -> in_feed items r = true.
Proof.
  intros Hin Hc. unfold in_feed. apply existsb_exists.
  exists (Item.ID item). split; [now apply in_map|exact Hc].
Qed.

Lemma outside_table_step items item w w' :
  In item items -> table_step (Item.ID item) w w' ->
  outside items w' = outside items w.
Proof.
  intros Hin (Hother & _). unfold outside, other_rows in *.
  assert (Himp : forall r, negb (in_feed items r) = true ->
                           negb (has_code (Item.ID item) r) = true).
  { intros r Hr. destruct (has_code (Item.ID item) r) eqn:Hc; [|reflexivity].
    rewrite (in_feed_has_code items item r Hin Hc) in Hr. discriminate. }
  rewrite <- (filter_filter_implied _ _ (rows w') Himp), Hother.
  apply filter_filter_implied, Himp.
Qed.

Lemma markAllRecordsAsDeleted_outcome w w1 :
  markAllRecordsAsDeleted w = (None, w1) ->
  rows w1 = map (set_status "deleted") (rows w)
  /\ unique_code_is_key w1 = unique_code_is_key w.
Proof.
  unfold markAllRecordsAsDeleted, db_Exec, bind, emit. cbn [exec_faults].
  destruct (exec_faults w) as [|[e|] l]; cbn; intro H; try discriminate;
    injection H as <-; now split.
Qed.

Lemma main_completes items s w r :
  main items s w = Some r ->
  exists w1, markAllRecordsAsDeleted w = (None, w1)
             /\ r = run_schedule s (processXMLData items w1).
Proof.
  unfold main. destruct (markAllRecordsAsDeleted w) as [[e|] w1];
    [discriminate|]. intro H. injection H as <-. now exists w1.
Qed.

(** C6: in a run that gets past the marking, [markAllRecordsAsDeleted] has
    set the status of every row to [deleted] and changed nothing else; and
    at every point of the run, under every interleaving, the rows whose
    identifier is absent from the feed are exactly those rows, still with
    status [deleted]. *)
Theorem absent_identifiers_stay_deleted
    (items : list Item.t) (s : list Choice) (w : World) (r : Run) :
  main items s w = Some r ->
  exists w1,
    markAllRecordsAsDeleted w = (None, w1)
    /\ rows w1 = map (set_status "deleted") (rows w)
    /\ (forall x, In x (rows w1) -> Product.Status x = "deleted")
    /\ outside items (world r) = outside items w1
    /\ (forall x, In x (rows (world r)) -> in_feed items x = false ->
          Product.Status x = "deleted").
Proof.
  intro Hmain. destruct (main_completes items s w r Hmain) as (w1 & Hmark & ->).
  exists w1. destruct (markAllRecordsAsDeleted_outcome w w1 Hmark) as [Hrows _].
  assert (Hdel : forall x, In x (rows w1) -> Product.Status x = "deleted").
  { intros x Hx. rewrite Hrows in Hx. apply in_map_iff in Hx as [x0 [<- _]].
    reflexivity. }
  destruct (run_schedule_invariant items
              (fun v => outside items v = outside items w1)) with
    (s := s) (r := processXMLData items w1) as [_ Hout].
  - intros item v Hin Hv. rewrite <- Hv.
    apply outside_table_step with item; [exact Hin|apply worker_table_step].
  - apply Inv_start.
  - reflexivity.
  - repeat split; try assumption.
    intros x Hx Hfeed. apply Hdel.
    assert (Hxo : In x (outside items (world (run_schedule s (processXMLData items w1))))).
    { unfold outside. apply filter_In. split; [exact Hx|now rewrite Hfeed]. }
    rewrite Hout in Hxo. unfold outside in Hxo. now apply filter_In in Hxo.
Qed.

(** ** One record per identifier *)

Lemma markAllRecordsAsDeleted_identifiers w :
  identifiers (snd (markAllRecordsAsDeleted w)) = identifiers w.
Proof.
  unfold markAllRecordsAsDeleted, db_Exec, bind, emit, identifiers.
  cbn [exec_faults].
  destruct (exec_faults w) as [|[e|] l]; cbn; try reflexivity;
    rewrite map_map; now apply map_ext.
Qed.

Lemma markAllRecordsAsDeleted_key w :
  unique_code_is_key (snd (markAllRecordsAsDeleted w)) = unique_code_is_key w.
Proof.
  unfold markAllRecordsAsDeleted, db_Exec, bind, emit. cbn [exec_faults].
  destruct (exec_faults w) as [|[e|] l]; reflexivity.
Qed.

Lemma keyed_extension_worker items item w v :
  In item items -> keyed_extension items w v ->
  keyed_extension items w (snd (worker item v)).
Proof.
  intros Hin (Hk & Hnd & added & Hids & Hincl).
  destruct (worker_table_step item v) as (_ & [n Hn] & Hk' & Hnd').
  split; [congruence|]. split; [now apply Hnd'|].
  exists (added ++ repeat (Item.ID item) n). split.
  - now rewrite Hn, Hids, app_assoc.
  - intros c Hc. apply in_app_or in Hc as [Hc|Hc]; [now apply Hincl|].
    apply repeat_spec in Hc. subst c. now apply in_map.
Qed.

Lemma insertProduct_refused_under_key item v :
  In (Item.ID item) (identifiers v) -> unique_code_is_key v = true ->
  exists e, fst (insertProduct (new_product item) v) = Some e
            /\ rows (snd (insertProduct (new_product item) v)) = rows v.
Proof.
  intros Hin Hkv. unfold insertProduct.
  destruct (executeWithRetry (InsertRow (new_product item)) v) as [[e|] v'] eqn:Hrun.
  - exists e. split; [reflexivity|].
    now apply executeWithRetry_outcome in Hrun.
  - exfalso. apply executeWithRetry_outcome in Hrun as [Hrun _].
    cbn in Hrun. rewrite Hkv in Hrun. cbn in Hrun.
    destruct (existsb (has_code (Item.ID item)) (rows v)) eqn:Hex;
      [discriminate|].
    apply existsb_has_code in Hex. now apply Hex.
Qed.

(** C2: under the key on the identifier, every operation of a run keeps
    one record per identifier and never changes the identifier of a row:
    the marking keeps the column of identifiers as it is; a worker, on
    every path, keeps it as a prefix and adds at most rows of its own
    identifier, without any identifier coming to occur twice; so does the
    whole run under every interleaving.  On the price-changed path, where
    the identifier is present, a successful update is followed by an
    insert that the key refuses. *)
Theorem one_record_per_identifier
    (items : list Item.t) (s : list Choice) (w : World) :
  unique_code_is_key w = true ->
  NoDup (identifiers w) ->
  identifiers (snd (markAllRecordsAsDeleted w)) = identifiers w
  /\ (forall item,
        table_step (Item.ID item) w (snd (worker item w))
        /\ NoDup (identifiers (snd (worker item w))))
  /\ keyed_extension items w (world (run_schedule s (processXMLData items w)))
  /\ (forall item v,
        In (Item.ID item) (identifiers v) -> unique_code_is_key v = true ->
        exists e, fst (insertProduct (new_product item) v) = Some e
                  /\ rows (snd (insertProduct (new_product item) v)) = rows v).
Proof.
  intros Hk Hnd. split; [apply markAllRecordsAsDeleted_identifiers|].
  split.
  { intro item. pose proof (worker_table_step item w) as Hstep.
    split; [exact Hstep|]. destruct Hstep as (_ & _ & _ & H). now apply H. }
  split.
  { destruct (run_schedule_invariant items (keyed_extension items w)) with
      (s := s) (r := processXMLData items w) as [_ H].
    - intros item v Hin Hv. now apply keyed_extension_worker.
    - apply Inv_start.
    - split; [exact Hk|]. split; [exact Hnd|]. exists [].
      split; [now rewrite app_nil_r|intros c []].
    - exact H. }
  intros item v. apply insertProduct_refused_under_key.
Qed.

(** Without the key the price-changed path leaves two rows for the
    identifier: the old one, marked [updated], and the new one. *)
Example unkeyed_table_gets_second_row :
  rows (snd (worker (sample_item "C" 7.5%float) unkeyed_sample_world))
  = [Product.mk "B" 20%float "mpn" "deleted";
     Product.mk "C" 7.5%float "mpn" "updated";
     Product.mk "C" 7.5%float "mpn" "new"].
Proof. reflexivity. Qed.

(** The lookup, when the store answers it: the price column of the first
    row of the identifier, if there is one. *)
Lemma productExists_answer c w :
  hd None (query_faults w) = None ->
  fst (productExists c w)
  = match find (has_code c) (rows w) with
    | Some r =>
        match sqlite_column (Product.Price r) with
        | Some price => (true, price, None)
        | None => (false, PrimFloat.zero, Some scan_null_error)
        end
    | None => (false, PrimFloat.zero, None)
    end.
Proof.
  unfold productExists, db_QueryRow_Scan, bind, emit.
  cbn [query_faults rows].
  destruct (query_faults w) as [|[e|] l]; cbn [hd]; intro H; try discriminate;
    unfold set_query_faults; cbn [rows];
    destruct (find (has_code c) (rows w)) as [r|]; try reflexivity;
    destruct (sqlite_column (Product.Price r)); reflexivity.
Qed.

(** X1: under the key, a price-changed item is never published: the insert
    that follows the update is refused, so the worker causes no enrichment,
    no local write and no upload, adds no row, and leaves the table either
    with the rows of the identifier marked [updated] at the new price or,
    when the update failed, as it was. *)
Theorem price_changed_not_published_under_key
    (item : Item.t) (w w0 : World) (p : float64) :
  unique_code_is_key w = true ->
  productExists (Item.ID item) w = ((true, p, None), w0) ->
  float64_eq p (Item.Price item) = false ->
  let w' := snd (worker item w) in
  emits no_publish w w'
  /\ fs w' = fs w
  /\ (rows w' = updated_rows (Item.ID item) "updated" (Item.Price item) (rows w)
      \/ rows w' = rows w).
Proof.
  intros Hk Hlook Hne w'.
  pose proof (worker_changed_eq item w w0 p Hlook Hne) as Hw.
  pose proof (productExists_found _ _ _ _ Hlook) as Hin.
  assert (Hnp : forall e, store_event e = true -> no_publish e = true)
    by apply store_event_no_publish.
  assert (E0 : emits no_publish w w0).
  { assert (H : preserves (emits no_publish) (productExists (Item.ID item)))
      by (apply productExists_emits; intros; reflexivity).
    specialize (H w). now rewrite Hlook in H. }
  pose proof (productExists_same_fs (Item.ID item) w) as F0.
  pose proof (productExists_same_table (Item.ID item) w) as [R0 K0].
  rewrite Hlook in F0, R0, K0. cbn [snd] in F0, R0, K0.
  assert (E1 : emits no_publish w0
                 (snd (updateProductStatus (Item.ID item) "updated"
                         (Item.Price item) w0)))
    by (apply executeWithRetry_emits; intros; reflexivity).
  pose proof (updateProductStatus_same_fs (Item.ID item) "updated"
                (Item.Price item) w0) as F1.
  pose proof (updateProductStatus_table_step (Item.ID item) "updated"
                (Item.Price item) w0) as (_ & [n1 I1] & K1 & _).
  assert (R1 : rows (snd (updateProductStatus (Item.ID item) "updated"
                            (Item.Price item) w0))
               = updated_rows (Item.ID item) "updated" (Item.Price item) (rows w)
               \/ rows (snd (updateProductStatus (Item.ID item) "updated"
                               (Item.Price item) w0)) = rows w).
  { unfold updateProductStatus.
    destruct (executeWithRetry _ w0) as [[e|] v] eqn:Hrun;
      apply executeWithRetry_outcome in Hrun; cbn [snd].
    - right. congruence.
    - left. destruct Hrun as [_ Hrun]. rewrite Hrun. cbn. now rewrite R0. }
  destruct (updateProductStatus _ _ _ w0) as [e1 w1]. cbn [snd] in *.
  assert (E2 : emits no_publish w1 (snd (remove_prior (Item.ID item) w1)))
    by (apply remove_prior_emits; intros; reflexivity).
  pose proof (remove_prior_same_fs (Item.ID item) w1) as F2.
  pose proof (remove_prior_same_table (Item.ID item) w1) as [R2 K2].
  destruct (remove_prior _ w1) as [u w2]. cbn [snd] in *.
  assert (Hin2 : In (Item.ID item) (identifiers w2)).
  { unfold identifiers in *. rewrite R2, I1, R0. apply in_or_app. now left. }
  assert (Hk2 : unique_code_is_key w2 = true) by congruence.
  destruct (insertProduct_refused_under_key item w2 Hin2 Hk2) as (e & He & R3).
  assert (E3 : emits no_publish w2 (snd (insertProduct (new_product item) w2)))
    by (apply executeWithRetry_emits; intros; reflexivity).
  pose proof (insertProduct_same_fs (new_product item) w2) as F3.
  destruct (insertProduct _ w2) as [e3 w3]. cbn [fst snd] in *. subst e3.
  subst w'. rewrite Hw.
  pose proof (report_emits (Some e) w3) as E4.
  pose proof (report_same_fs (Some e) w3) as F4.
  pose proof (report_same_table (Some e) w3) as [R4 _].
  unfold same_fs in *. split.
  { eapply emits_trans; [exact E0|]. eapply emits_trans; [exact E1|].
    eapply emits_trans; [exact E2|]. eapply emits_trans; [exact E3|].
    apply emits_weaken with store_event; assumption. }
  split; [congruence|].
  destruct R1 as [R1|R1]; [left|right]; congruence.
Qed.

(** X2: an item with no record: the worker attempts the insert of the row
    (identifier, price, mpn, [new]); on success the row is appended to the
    table and [processItem] runs; on failure the table is as it was and the
    worker only prints the error. *)
Theorem worker_new_item (item : Item.t) (w w0 : World) (p : float64) :
  productExists (Item.ID item) w = ((false, p, None), w0) ->
  let ins := insertProduct (new_product item) w0 in
  (fst ins = None ->
   rows (snd ins) = rows w ++ [new_product item]
   /\ worker item w
      = (let (err, w2) := processItem item (snd ins) in report err w2))
  /\ (forall e, fst ins = Some e ->
      rows (snd ins) = rows w
      /\ worker item w = report (Some e) (snd ins)).
Proof.
  intros Hlook ins.
  pose proof (productExists_same_table (Item.ID item) w) as [R0 _].
  rewrite Hlook in R0. cbn [snd] in R0.
  assert (Hw : worker item w =
               (let (err, w1) := insertProduct (new_product item) w0 in
                match err with
                | None => let (err', w2) := processItem item w1 in report err' w2
                | Some e => report (Some e) w1
                end)).
  { unfold worker. erewrite bind_eq; [|exact Hlook]. cbn iota beta.
    unfold insert_then_process, bind.
    destruct (insertProduct _ w0) as [[e|] w1]; [reflexivity|].
    destruct (processItem item w1) as [e' w2]. reflexivity. }
  subst ins. unfold insertProduct in *.
  destruct (executeWithRetry _ w0) as [e1 w1] eqn:Hins. cbn [fst snd].
  apply executeWithRetry_outcome in Hins. split.
  - intros ->. split; [|exact Hw]. destruct Hins as [Hrun Hrows].
    rewrite Hrows. cbn [run_stmt] in *.
    destruct (unique_code_is_key w0 && _); [discriminate|]. cbn. now rewrite R0.
  - intros e ->. split; [congruence|exact Hw].
Qed.

(** ** The external document store *)

(** C8, as stated, fails on the code at two inputs: the store answers the
    upload with 201, a 2xx status, and [uploadFile] returns an error; the
    store answers the removal with 500, not "no content", and [deleteFile]
    returns no error. *)
Lemma external_store_success_counterexample :
  spec_create_succeeds 201 = true
  /\ fst (uploadFile "product/Prod_A.txt" (store_answers 201))
     = Some (fmt_Errorf "failed to upload file: %d - %s" ["201"; "body"])
  /\ spec_delete_succeeds 500 = false
  /\ fst (deleteFile "A" (store_answers 500)) = None.
Proof. repeat split; reflexivity. Qed.

Lemma os_Open_present path content w :
  fs_lookup path w = Some (RegularFile content) ->
  os_Open path w = (inl content, snd (emit (EvOpen path) w)).
Proof.
  intro Hfs. unfold os_Open, bind. cbn [emit snd].
  unfold fs_lookup in *. cbn [fs]. now rewrite Hfs.
Qed.

(** C8 (amended): when the store answers a request with a status code,
    [uploadFile] on a file that is on disk returns no error exactly when
    the status is 200; [deleteFile], whenever its URL can be built, returns
    no error whatever the status, and the console line it prints says
    "Deleted" exactly when the status is 204 and "Failed to delete"
    otherwise. *)
Theorem external_store_outcomes
    (w : World) (StatusCode : Z) (body : string) (rest : list HttpReply) :
  http_replies w = Response StatusCode body :: rest ->
  (forall filePath content,
      fs_lookup filePath w = Some (RegularFile content) ->
      (fst (uploadFile filePath w) = None <-> StatusCode = 200))
  /\ (forall documentID,
        url_parses (delete_url documentID) = true ->
        fst (deleteFile documentID w) = None
        /\ trace (snd (deleteFile documentID w))
           = trace w
             ++ [EvHttp "DELETE" (delete_url documentID);
                 if StatusCode =? 204
                 then EvPrintf "Deleted document ID %s\n" [AStr documentID]
                 else EvPrintf "Failed to delete document ID %s: %d - %s\n"
                               [AStr documentID; AStr (itoa StatusCode);
                                AStr body]]).
Proof.
  intro Hreply. split.
  - intros filePath content Hfs. unfold uploadFile.
    erewrite bind_eq; [|apply os_Open_present; exact Hfs].
    change (http_NewRequest "POST" upload_url) with (@None error). cbn iota.
    unfold client_Do, bind, emit. cbn [http_replies snd]. rewrite Hreply.
    unfold http_StatusOK. destruct (StatusCode =? 200) eqn:Hc; cbn.
    + apply Z.eqb_eq in Hc. now split.
    + apply Z.eqb_neq in Hc. split; [discriminate|contradiction].
  - intros documentID Hurl. unfold deleteFile, http_NewRequest. rewrite Hurl.
    unfold client_Do, bind, emit. cbn [http_replies snd]. rewrite Hreply.
    unfold http_StatusNoContent, Printf, emit.
    destruct (StatusCode =? 204); cbn; rewrite <- app_assoc; now split.
Qed.

(** ** Store errors inside a worker *)

Lemma worker_lookup_error item w w0 found price e :
  productExists (Item.ID item) w = ((found, price, Some e), w0) ->
  worker item w = Printf "Error checking product existence: %v" [AErr e] w0.
Proof.
  intro Hlook. unfold worker. erewrite bind_eq; [|exact Hlook]. reflexivity.
Qed.

Lemma insert_then_process_error item w e w1 :
  insertProduct (new_product item) w = (Some e, w1) ->
  insert_then_process item w = (Some e, w1).
Proof.
  intro Hins. unfold insert_then_process. erewrite bind_eq; [|exact Hins].
  reflexivity.
Qed.

(** C3, the failing input: record C has price 5, the item C arrives with
    price 7.5, and the store fails the update with an I/O error, which is
    not contention.  [updateProductStatus] returns that error at once, and
    the worker goes on all the same: it has the document of C deleted from
    the external store and attempts the insert; the record of C keeps its
    old price and status. *)
Example worker_goes_on_after_failed_update :
  let w := failing_update_world in
  let item := sample_item "C" 7.5%float in
  fst (updateProductStatus "C" "updated" 7.5%float (snd (productExists "C" w)))
  = Some (sqlite3_Error ErrIoErr)
  /\ trace (snd (worker item w))
     = [EvQuery "C";
        EvExec (UpdateRow "updated" 7.5%float "C");
        EvHttp "DELETE" "https://b2b.my-buddy.ai/v1/datasets/guid/documents/C";
        EvPrintf "Deleted document ID %s\n" [AStr "C"];
        EvExec (InsertRow (new_product item));
        EvPrintf "Failed to process item: %v"
          [AErr (sqlite3_Error ErrConstraint)]]
  /\ rows (snd (worker item w)) = rows sample_world.
Proof. repeat split; reflexivity. Qed.

(** The end-to-end scenario of the specification: after the run, A has a
    record with status [new] and price 10 and its document was uploaded, B
    has status [existing] and price 20, and C, absent from the feed, is
    [deleted]. *)
Example sample_run :
  match main sample_feed sample_schedule sample_start with
  | Some r =>
      pc r = Returned
      /\ rows (world r)
         = [Product.mk "B" 20%float "mpn" "existing";
            Product.mk "C" 5%float "mpn" "deleted";
            Product.mk "A" 10%float "mpn" "new"]
      /\ filter (fun e => match e with EvHttp _ _ => true | _ => false end)
                (trace (world r))
         = [EvHttp "POST" upload_url]
  | None => False
  end.
Proof. vm_compute. repeat split; reflexivity. Qed.

(** With seven items and the main thread alone running, five goroutines
    are started and the main thread blocks on the sixth send. *)
Example sixth_item_waits :
  let items := map (fun id => sample_item id 1%float)
                   ["1"; "2"; "3"; "4"; "5"; "6"; "7"] in
  let r := run_schedule (repeat Main 40) (processXMLData items sample_world) in
  pc r = AtSend (skipn 5 items)
  /\ sem r = 5
  /\ tally in_flight (goroutines r) = 5
  /\ main_step r = None.
Proof. vm_compute. repeat split; reflexivity. Qed.

(** ** Witnesses: the theorems at the sample data *)

Lemma store_calls_retry_policy_witness :
  updateProductStatus "B" "existing" 20%float
    (set_exec_faults [Some (sqlite3_Error ErrBusy); Some (sqlite3_Error ErrLocked);
                      Some (sqlite3_Error ErrBusy); Some (sqlite3_Error ErrBusy)]
                     sample_world)
  = run_stmt (UpdateRow "existing" 20%float "B")
      (attempt (UpdateRow "existing" 20%float "B")
         (after_failures (UpdateRow "existing" 20%float "B") 0 4 []
            (set_exec_faults
               [Some (sqlite3_Error ErrBusy); Some (sqlite3_Error ErrLocked);
                Some (sqlite3_Error ErrBusy); Some (sqlite3_Error ErrBusy)]
               sample_world))).
Proof.
  refine (proj1 (@store_calls_retry_policy
                   (updateProductStatus "B" "existing" 20%float)
                   (UpdateRow "existing" 20%float "B")
                   (set_exec_faults
                      [Some (sqlite3_Error ErrBusy); Some (sqlite3_Error ErrLocked);
                       Some (sqlite3_Error ErrBusy); Some (sqlite3_Error ErrBusy)]
                      sample_world)
                   [sqlite3_Error ErrBusy; sqlite3_Error ErrLocked;
                    sqlite3_Error ErrBusy; sqlite3_Error ErrBusy]
                   [] (call_update "B" "existing" 20%float) eq_refl _) _ eq_refl).
  - repeat constructor.
  - simpl. lia.
Defined.

Lemma worker_price_changed_witness :
  fst (insertProduct (new_product (sample_item "C" 7.5%float))
         (snd (remove_prior "C"
                 (snd (updateProductStatus "C" "updated" 7.5%float
                         (snd (productExists "C" unkeyed_publishing_world)))))))
  = None
  /\ rows (snd (worker (sample_item "C" 7.5%float) unkeyed_publishing_world))
     = [Product.mk "B" 20%float "mpn" "deleted";
        Product.mk "C" 7.5%float "mpn" "updated";
        Product.mk "C" 7.5%float "mpn" "new"]
  /\ filter is_request
       (trace (snd (worker (sample_item "C" 7.5%float) unkeyed_publishing_world)))
     = [EvHttp "DELETE" (delete_url "C"); EvHttp "POST" upload_url].
Proof.
  pose proof (worker_price_changed (sample_item "C" 7.5%float)
                unkeyed_publishing_world
                (snd (productExists "C" unkeyed_publishing_world)) 5%float
                eq_refl eq_refl) as H.
  cbv zeta in H. destruct H as (_ & _ & _ & _ & _ & Hok & _ & _ & Hins).
  specialize (Hins eq_refl). split; [exact Hins|].
  destruct (Hok Hins) as [_ Hw]. rewrite Hw. split; reflexivity.
Defined.

Lemma worker_price_unchanged_witness :
  rows (snd (worker (sample_item "B" 20%float) sample_world))
  = updated_rows "B" "existing" 20%float (rows sample_world).
Proof.
  pose proof (worker_price_unchanged (sample_item "B" 20%float) sample_world
                (snd (productExists "B" sample_world)) 20%float
                eq_refl eq_refl) as H.
  cbv zeta in H. destruct H as (_ & _ & H & _). apply H. reflexivity.
Defined.

Lemma processItem_short_circuit_witness :
  processItem (sample_item "C" 7.5%float) sample_world
  = (None, snd (emit (EvStat "product/Prod_C.txt") sample_world)).
Proof.
  pose proof (processItem_short_circuit (sample_item "C" 7.5%float) sample_world
                [] eq_refl) as H.
  cbv zeta in H. destruct H as (H & _). exact H.
Defined.

Lemma worker_price_changed_document_present_witness :
  rows (snd (worker (sample_item "C" 7.5%float) unkeyed_document_world))
  = [Product.mk "B" 20%float "mpn" "deleted";
     Product.mk "C" 7.5%float "mpn" "updated";
     Product.mk "C" 7.5%float "mpn" "new"]
  /\ trace (snd (worker (sample_item "C" 7.5%float) unkeyed_document_world))
     = [EvQuery "C"; EvExec (UpdateRow "updated" 7.5%float "C");
        EvHttp "DELETE" (delete_url "C");
        EvPrintf "Deleted document ID %s\n" [AStr "C"];
        EvExec (InsertRow (new_product (sample_item "C" 7.5%float)));
        EvStat "product/Prod_C.txt"].
Proof.
  pose proof (worker_price_changed_document_present
                (sample_item "C" 7.5%float) unkeyed_document_world
                (snd (productExists "C" unkeyed_document_world)) 5%float []
                eq_refl eq_refl eq_refl) as H.
  cbv zeta in H. destruct H as (_ & _ & _ & Hins & Hok & _).
  destruct (Hok (Hins eq_refl)) as [Hw Hrows]. split.
  - exact Hrows.
  - rewrite Hw. reflexivity.
Defined.

Lemma external_store_outcomes_witness :
  fst (uploadFile "product/Prod_A.txt" (store_answers 200)) = None.
Proof.
  pose proof (external_store_outcomes (store_answers 200) 200 "body" []
                eq_refl) as [H _].
  apply (H "product/Prod_A.txt" [] eq_refl). reflexivity.
Defined.

Lemma absent_identifiers_stay_deleted_witness :
  exists w1,
    markAllRecordsAsDeleted sample_start = (None, w1)
    /\ rows w1 = map (set_status "deleted") (rows sample_start)
    /\ (forall x, In x (rows w1) -> Product.Status x = "deleted")
    /\ outside sample_feed
         (world (run_schedule sample_schedule
                   (processXMLData sample_feed
                      (snd (markAllRecordsAsDeleted sample_start)))))
       = outside sample_feed w1
    /\ (forall x,
          In x (rows (world (run_schedule sample_schedule
                               (processXMLData sample_feed
                                  (snd (markAllRecordsAsDeleted sample_start)))))) ->
          in_feed sample_feed x = false -> Product.Status x = "deleted").
Proof.
  apply (absent_identifiers_stay_deleted sample_feed sample_schedule sample_start).
  reflexivity.
Defined.

Lemma one_record_per_identifier_witness :
  keyed_extension sample_feed sample_world
    (world (run_schedule sample_schedule (processXMLData sample_feed sample_world))).
Proof.
  assert (Hnd : NoDup (identifiers sample_world)).
  { simpl. repeat constructor; simpl; intuition discriminate. }
  pose proof (one_record_per_identifier sample_feed sample_schedule sample_world
                eq_refl Hnd) as (_ & _ & H & _).
  exact H.
Defined.

Lemma processXMLData_bound_and_barrier_witness :
  pc (run_schedule sample_schedule (processXMLData sample_feed sample_world))
  = Returned
  /\ map fst (goroutines (run_schedule sample_schedule
                            (processXMLData sample_feed sample_world)))
     = sample_feed.
Proof.
  pose proof (processXMLData_bound_and_barrier sample_feed sample_world
                sample_schedule) as H.
  cbv zeta in H. destruct H as (_ & _ & H).
  split; [reflexivity|]. apply H. reflexivity.
Defined.

Lemma price_changed_not_published_under_key_witness :
  rows (snd (worker (sample_item "C" 7.5%float) sample_world))
  = updated_rows "C" "updated" 7.5%float (rows sample_world)
  \/ rows (snd (worker (sample_item "C" 7.5%float) sample_world))
     = rows sample_world.
Proof.
  pose proof (price_changed_not_published_under_key
                (sample_item "C" 7.5%float) sample_world
                (snd (productExists "C" sample_world)) 5%float
                eq_refl eq_refl eq_refl) as H.
  cbv zeta in H. destruct H as (_ & _ & H). exact H.
Defined.

Lemma worker_new_item_witness :
  rows (snd (insertProduct (new_product (sample_item "A" 10%float))
               (snd (productExists "A" sample_world))))
  = rows sample_world ++ [new_product (sample_item "A" 10%float)].
Proof.
  pose proof (worker_new_item (sample_item "A" 10%float) sample_world
                (snd (productExists "A" sample_world)) 0%float eq_refl) as H.
  cbv zeta in H. destruct H as (H & _). apply H. reflexivity.
Defined.

(** * Further properties of the code *)

(** ** Bounds on a store call *)

Lemma db_Exec_trace q w :
  trace (snd (db_Exec q w)) = trace w ++ [EvExec q].
Proof.
  unfold db_Exec, bind, emit. cbn [exec_faults].
  destruct (exec_faults w) as [|[e|] l]; try reflexivity;
    destruct q; cbn; try reflexivity;
    match goal with |- context [if ?b then _ else _] => destruct b end;
    reflexivity.
Qed.

Lemma attempts_app t t' : attempts (t ++ t') = attempts t + attempts t'.
Proof.
  unfold attempts. rewrite filter_app, length_app. lia.
Qed.

Lemma total_sleep_app t t' : total_sleep (t ++ t') = total_sleep t + total_sleep t'.
Proof.
  unfold total_sleep, sleeps. rewrite flat_map_app.
  induction (flat_map _ t) as [|d l IH]; cbn; [reflexivity|]. rewrite IH. lia.
Qed.

Lemma sleep_budget_nonneg n : forall i, 0 <= i -> 0 <= sleep_budget n i.
Proof.
  induction n as [|n IH]; intros i Hi; cbn -[Z.mul]; [lia|].
  specialize (IH (i + 1)). unfold time_Millisecond in *. lia.
Qed.

Lemma retry_loop_bounds n :
  forall i err q w, 0 <= i ->
    exists t, trace (snd (retry_loop n i err q w)) = trace w ++ t
              /\ attempts t <= Z.of_nat n
              /\ (n <> O -> 1 <= attempts t)
              /\ 0 <= total_sleep t <= sleep_budget n i
              /\ forallb store_event t = true.
Proof.
  induction n as [|n IH]; intros i err q w Hi.
  - exists []. cbn. rewrite app_nil_r. repeat split; try lia; try congruence.
  - cbn [retry_loop]. unfold bind at 1.
    pose proof (db_Exec_trace q w) as Ht.
    destruct (db_Exec q w) as [e w1]. cbn [snd] in Ht.
    assert (Hone : exists t, trace w1 = trace w ++ t /\ attempts t <= Z.of_nat (S n)
                     /\ (S n <> O -> 1 <= attempts t)
                     /\ 0 <= total_sleep t <= sleep_budget (S n) i
                     /\ forallb store_event t = true).
    { exists [EvExec q]. split; [exact Ht|].
      pose proof (sleep_budget_nonneg (S n) i Hi).
      change (attempts [EvExec q]) with 1.
      change (total_sleep [EvExec q]) with 0.
      repeat split; try lia; reflexivity. }
    destruct e as [e|]; [|exact Hone].
    destruct (is_busy_or_locked e); [|exact Hone].
    unfold bind, time_Sleep, emit.
    match goal with |- context [retry_loop n (i + 1) (Some e) q ?v] =>
      destruct (IH (i + 1) (Some e) q v ltac:(lia)) as (t & Htr & Ha & _ & Hs & Hp)
    end.
    cbn [trace] in Htr.
    exists ([EvExec q; EvSleep ((i + 1) * time_Millisecond * 100)] ++ t).
    split; [rewrite Htr, Ht, <- !app_assoc; reflexivity|].
    rewrite attempts_app, total_sleep_app, forallb_app, Hp.
    change (attempts [EvExec q; EvSleep ((i + 1) * time_Millisecond * 100)])
      with 1.
    replace (total_sleep [EvExec q; EvSleep ((i + 1) * time_Millisecond * 100)])
      with ((i + 1) * time_Millisecond * 100)
      by (unfold total_sleep; cbn -[Z.mul]; lia).
    change (sleep_budget (S n) i)
      with ((i + 1) * time_Millisecond * 100 + sleep_budget n (i + 1)).
    assert (0 <= (i + 1) * time_Millisecond * 100)
      by (unfold time_Millisecond; lia).
    assert (0 <= attempts t)
      by (unfold attempts; lia).
    repeat split; try lia; reflexivity.
Qed.

(** X3: whatever the store answers, a mutating store call sends its
    statement at least once and at most five times, sleeps at most
    100 + 200 + 300 + 400 + 500 = 1500 ms in all, and causes no file
    access, no enrichment and no request to the document store. *)
Theorem executeWithRetry_bounds (q : Stmt) (w : World) :
  exists t,
    trace (snd (executeWithRetry q w)) = trace w ++ t
    /\ 1 <= attempts t <= 5
    /\ 0 <= total_sleep t <= 1500 * time_Millisecond
    /\ forallb store_event t = true.
Proof.
  unfold executeWithRetry.
  destruct (retry_loop_bounds (Z.to_nat maxRetries) 0 None q w ltac:(lia))
    as (t & Ht & Ha & Ha' & Hs & Hp).
  exists t. split; [exact Ht|]. change (Z.to_nat maxRetries) with 5%nat in *.
  change (sleep_budget 5 0) with (1500 * time_Millisecond) in Hs.
  assert (1 <= attempts t) by (apply Ha'; discriminate).
  repeat split; try lia; assumption.
Qed.

(** ** Round trips through the store *)

Lemma existsb_false_find {A : Type} (f : A -> bool) (l : list A) :
  existsb f l = false -> find f l = None.
Proof.
  induction l as [|x l IH]; cbn; [reflexivity|].
  destruct (f x); cbn; [discriminate|exact IH].
Qed.

Lemma find_existsb {A : Type} (f : A -> bool) (l : list A) :
  existsb f l = true -> exists x, find f l = Some x /\ f x = true.
Proof.
  induction l as [|x l IH]; cbn; [discriminate|].
  destruct (f x) eqn:Hx; cbn; [intros _; now exists x|exact IH].
Qed.

Lemma find_app_first {A : Type} (f : A -> bool) (l l' : list A) :
  find f (l ++ l') = match find f l with Some x => Some x | None => find f l' end.
Proof.
  induction l as [|x l IH]; [reflexivity|]. cbn. now destruct (f x).
Qed.

Lemma find_updated_rows c s p l :
  find (has_code c) (updated_rows c s p l)
  = option_map (set_status_price s p) (find (has_code c) l).
Proof.
  unfold updated_rows. induction l as [|r l IH]; [reflexivity|]. cbn.
  destruct (has_code c r) eqn:Hr.
  - now rewrite has_code_set_status_price, Hr.
  - now rewrite Hr.
Qed.

Lemma updated_rows_absent c s p l :
  existsb (has_code c) l = false -> updated_rows c s p l = l.
Proof.
  unfold updated_rows. induction l as [|r l IH]; cbn; [reflexivity|].
  intro H. apply orb_false_iff in H as [Hr Hl]. rewrite Hr. now rewrite IH.
Qed.

(** What the price column gives back, by the class of the float that was
    bound. *)
Lemma scanned_cases price :
  scanned price
  = match PrimFloat.classify price with
    | FloatClass.NaN => (false, PrimFloat.zero, Some scan_null_error)
    | FloatClass.NZero => (true, PrimFloat.zero, None)
    | _ => (true, price, None)
    end.
Proof.
  unfold scanned, sqlite_column. now destruct (PrimFloat.classify price).
Qed.

Example scanned_examples :
  scanned PrimFloat.nan = (false, PrimFloat.zero, Some scan_null_error)
  /\ scanned (-0)%float = (true, PrimFloat.zero, None)
  /\ scanned 7.5%float = (true, 7.5%float, None).
Proof. repeat split; reflexivity. Qed.

(** X4: insert, then lookup.  After an insert that reported success the
    table is the old one with the row appended, and a lookup of its
    identifier that the store answers reads the price column of the first
    row of the identifier: the inserted row when the identifier was new,
    which is always the case under the key.  The column gives back the
    price that was bound, except that a NaN was stored as NULL, on which
    the lookup fails with the error of [Scan], and a negative zero comes
    back as zero. *)
Theorem insert_then_lookup (p : Product.t) (w : World) :
  fst (insertProduct p w) = None ->
  hd None (query_faults (snd (insertProduct p w))) = None ->
  let w1 := snd (insertProduct p w) in
  rows w1 = rows w ++ [p]
  /\ fst (productExists (Product.UniqueCode p) w1)
     = scanned match find (has_code (Product.UniqueCode p)) (rows w) with
               | Some r => Product.Price r
               | None => Product.Price p
               end
  /\ (unique_code_is_key w = true ->
      fst (productExists (Product.UniqueCode p) w1)
      = match PrimFloat.classify (Product.Price p) with
        | FloatClass.NaN => (false, PrimFloat.zero, Some scan_null_error)
        | FloatClass.NZero => (true, PrimFloat.zero, None)
        | _ => (true, Product.Price p, None)
        end).
Proof.
  intros Hok Hq w1. subst w1. unfold insertProduct in *.
  destruct (executeWithRetry (InsertRow p) w) as [e w1] eqn:Hrun.
  cbn [fst snd] in *. subst e.
  apply executeWithRetry_outcome in Hrun as [Hrun Hrows].
  cbn [run_stmt] in Hrun, Hrows.
  destruct (unique_code_is_key w && existsb (has_code (Product.UniqueCode p)) (rows w))
    eqn:Hg; [discriminate|]. cbn [snd] in Hrows.
  assert (Hrw : rows w1 = rows w ++ [p]) by exact Hrows.
  assert (Hlook : fst (productExists (Product.UniqueCode p) w1)
                  = scanned
                      match find (has_code (Product.UniqueCode p)) (rows w) with
                      | Some r => Product.Price r
                      | None => Product.Price p
                      end).
  { rewrite (productExists_answer _ _ Hq), Hrw, find_app_first.
    destruct (find _ (rows w)); [reflexivity|]. cbn.
    unfold has_code. now rewrite String.eqb_refl. }
  split; [exact Hrw|]. split; [exact Hlook|].
  intro Hk. rewrite Hlook, Hk in *. cbn in Hg.
  rewrite (existsb_false_find _ _ Hg). apply scanned_cases.
Qed.

(** X5: update, then lookup.  After an update that reported success the
    rows of the identifier carry the new status and price and nothing else
    changed; a lookup that the store answers reads the new price back
    when the identifier is present: the price that was bound, except that
    a NaN was stored as NULL, on which the lookup fails, and a negative
    zero comes back as zero.  An update of an identifier that is absent
    reports success too: it changes nothing and the lookup still reports
    absence. *)
Theorem update_then_lookup (c s : string) (price : float64) (w : World) :
  fst (updateProductStatus c s price w) = None ->
  hd None (query_faults (snd (updateProductStatus c s price w))) = None ->
  let w1 := snd (updateProductStatus c s price w) in
  rows w1 = updated_rows c s price (rows w)
  /\ fst (productExists c w1)
     = (if existsb (has_code c) (rows w)
        then match PrimFloat.classify price with
             | FloatClass.NaN => (false, PrimFloat.zero, Some scan_null_error)
             | FloatClass.NZero => (true, PrimFloat.zero, None)
             | _ => (true, price, None)
             end
        else (false, PrimFloat.zero, None))
  /\ (existsb (has_code c) (rows w) = false -> rows w1 = rows w).
Proof.
  intros Hok Hq w1. subst w1. unfold updateProductStatus in *.
  destruct (executeWithRetry (UpdateRow s price c) w) as [e w1] eqn:Hrun.
  cbn [fst snd] in *. subst e.
  apply executeWithRetry_outcome in Hrun as [_ Hrows].
  assert (Hrw : rows w1 = updated_rows c s price (rows w)) by exact Hrows.
  split; [exact Hrw|]. split.
  - rewrite (productExists_answer _ _ Hq), Hrw, find_updated_rows.
    destruct (existsb (has_code c) (rows w)) eqn:Hex.
    + destruct (find_existsb _ _ Hex) as (r & -> & _).
      cbn [Product.Price set_status_price]. apply scanned_cases.
    + now rewrite (existsb_false_find _ _ Hex).
  - intro Hex. rewrite Hrw. now apply updated_rows_absent.
Qed.

(** ** The marking *)

(** X6: the marking is attempted once.  Any error of the store, contention
    included, is returned at once, with the table as it was and nothing
    caused but that one attempt, and [main] then stops before any item is
    processed.  A marking that succeeds keeps every identifier, price and
    part number, and marking twice is the same as marking once. *)
Theorem markAllRecordsAsDeleted_once
    (w : World) (e : error) (rest : list (option error))
    (items : list Item.t) (s : list Choice) :
  exec_faults w = Some e :: rest ->
  markAllRecordsAsDeleted w
  = (Some e, set_exec_faults rest (attempt MarkAllDeleted w))
  /\ main items s w = None
  /\ (forall v v1 v2,
        markAllRecordsAsDeleted v = (None, v1) ->
        markAllRecordsAsDeleted v1 = (None, v2) ->
        rows v2 = rows v1
        /\ map (fun r => (Product.UniqueCode r, Product.Price r, Product.MPN r))
               (rows v1)
           = map (fun r => (Product.UniqueCode r, Product.Price r, Product.MPN r))
                 (rows v)).
Proof.
  intro Hf.
  assert (Hm : markAllRecordsAsDeleted w
               = (Some e, set_exec_faults rest (attempt MarkAllDeleted w))).
  { unfold markAllRecordsAsDeleted, db_Exec, bind, attempt, emit.
    cbn [exec_faults snd]. now rewrite Hf. }
  split; [exact Hm|]. split; [unfold main; now rewrite Hm|].
  intros v v1 v2 H1 H2.
  apply markAllRecordsAsDeleted_outcome in H1 as [H1 _].
  apply markAllRecordsAsDeleted_outcome in H2 as [H2 _].
  rewrite H2, H1, !map_map. split.
  - apply map_ext. reflexivity.
  - apply map_ext. reflexivity.
Qed.

(** ** The two calls on the document store *)

(** X7: [uploadFile] returns no error exactly when the file is a regular
    file on disk and the store answers the request with 200.  It never
    changes the table or the local files, and when the file cannot be
    opened it sends no request at all. *)
Theorem uploadFile_result (filePath : string) (w : World) :
  (fst (uploadFile filePath w) = None
   <-> is_regular filePath w = true /\ store_accepts w = true)
  /\ rows (snd (uploadFile filePath w)) = rows w
  /\ fs (snd (uploadFile filePath w)) = fs w
  /\ (is_regular filePath w = false ->
      trace (snd (uploadFile filePath w)) = trace w ++ [EvOpen filePath]
      /\ http_replies (snd (uploadFile filePath w)) = http_replies w).
Proof.
  unfold uploadFile, os_Open, is_regular, store_accepts, bind, emit, fs_lookup.
  cbn [fs snd].
  change (http_NewRequest "POST" upload_url) with (@None error).
  destruct (find _ (fs w)) as [[p [content|]]|]; cbn [snd fst ret];
    try (repeat split; try discriminate; try reflexivity;
         intros [H _]; discriminate).
  unfold client_Do, bind, emit, Printf, emit. cbn [http_replies].
  destruct (http_replies w) as [|[msg|code body] l]; cbn;
    try (repeat split; try discriminate; try reflexivity;
         intros [_ H]; discriminate).
  unfold http_StatusOK. destruct (code =? 200); cbn;
    repeat split; try discriminate; try reflexivity;
    intros [_ H]; discriminate.
Qed.

(** X8: [deleteFile] returns no error exactly when its URL can be built and
    the store answers the request with a status code, whatever the code.
    It never changes the table or the local files, and when the URL cannot
    be built it leaves the world as it is: no request is sent. *)
Theorem deleteFile_result (documentID : string) (w : World) :
  (fst (deleteFile documentID w) = None
   <-> url_parses (delete_url documentID) = true /\ store_responds w = true)
  /\ rows (snd (deleteFile documentID w)) = rows w
  /\ fs (snd (deleteFile documentID w)) = fs w
  /\ (url_parses (delete_url documentID) = false ->
      snd (deleteFile documentID w) = w).
Proof.
  unfold deleteFile, http_NewRequest, store_responds.
  destruct (url_parses (delete_url documentID)); cbn [ret fst snd];
    [|repeat split; try discriminate; intros [H _]; discriminate].
  unfold client_Do, bind, emit, Printf, emit. cbn [http_replies].
  destruct (http_replies w) as [|[msg|code body] l]; cbn;
    try (repeat split; try discriminate; try reflexivity;
         intros [_ H]; discriminate).
  unfold http_StatusNoContent. destruct (code =? 204); cbn;
    repeat split; try discriminate; reflexivity.
Qed.

(** ** Producing and publishing a document *)

Lemma fs_lookup_written path content (l : list (string * FsEntry)) w :
  fs w = (path, RegularFile content) :: l ->
  fs_lookup path w = Some (RegularFile content).
Proof.
  intro H. unfold fs_lookup. rewrite H. cbn. now rewrite String.eqb_refl.
Qed.

(** The run of [processItem] when the output file is absent and the write
    is not failed by the environment: up to the upload. *)
Lemma processItem_writes item w :
  fs_lookup (outputFilePath item) w = None ->
  hd None (write_faults w) = None ->
  exists w1 t,
    processItem item w
    = (let (err, w2) := uploadFile (outputFilePath item) w1 in
       match err with
       | Some e =>
           Printf "Failed to upload product file %s: %v\n"
                  [AStr (outputFilePath item); AErr e] ;;;
           ret (Some (fmt_Errorf_w "Failed to upload product file %s: %v\n"
                                   [outputFilePath item] e))
       | None =>
           Printf "Processed and uploaded item with ID %s\n"
                  [AStr (Item.ID item)] ;;;
           ret None
       end w2)
    /\ fs w1 = (outputFilePath item,
                RegularFile (formattedItem item (enriched w))) :: fs w
    /\ rows w1 = rows w
    /\ http_replies w1 = http_replies w
    /\ trace w1 = trace w ++ t
    /\ filter is_request t = []
    /\ In (EvWriteFile (outputFilePath item) (formattedItem item (enriched w))) t.
Proof.
  intros Hfs Hwf. unfold processItem.
  set (path := outputFilePath item) in *. clearbody path.
  unfold fileExists, os_Stat, fetchSpecification, ioutil_WriteFile, enriched,
    Printf, bind, emit, fs_lookup in *.
  cbn [fs enrich_results write_faults trace snd fst] in *.
  destruct (find _ (fs w)) as [kv|] eqn:Hfind; [discriminate|].
  cbn [ret os_IsNotExist].
  destruct (enrich_results w) as [|[data|] le];
    unfold set_enrich_results; cbn [fs enrich_results write_faults trace ret];
    rewrite ?Hfind;
    destruct (write_faults w) as [|[ew|] lw]; cbn in Hwf; try discriminate;
    unfold set_write_faults, set_fs;
    cbn [fs enrich_results write_faults trace ret rows unique_code_is_key
         query_faults exec_faults http_replies];
    rewrite ?Hfind;
    (eexists; eexists; split; [reflexivity|];
     cbn [fs rows http_replies trace];
     split; [reflexivity|]; split; [reflexivity|]; split; [reflexivity|];
     split; [rewrite <- ?app_assoc; reflexivity|];
     split; [reflexivity|]; cbn; tauto).
Qed.

Lemma uploadFile_regular path content w :
  fs_lookup path w = Some (RegularFile content) ->
  (fst (uploadFile path w) = None <-> store_accepts w = true)
  /\ fs (snd (uploadFile path w)) = fs w
  /\ rows (snd (uploadFile path w)) = rows w
  /\ exists t, trace (snd (uploadFile path w)) = trace w ++ t
               /\ filter is_request t = [EvHttp "POST" upload_url]
               /\ forallb (fun e => negb (is_attempt e)) t = true.
Proof.
  intro Hfs. unfold uploadFile.
  erewrite bind_eq; [|apply os_Open_present; exact Hfs].
  change (http_NewRequest "POST" upload_url) with (@None error). cbn iota.
  unfold store_accepts, client_Do, bind, emit, Printf, emit.
  cbn [http_replies snd].
  destruct (http_replies w) as [|[msg|code body] l]; cbn [fst snd ret].
  - repeat split; try discriminate.
    exists [EvOpen path; EvHttp "POST" upload_url].
    cbn. rewrite <- app_assoc. now repeat split.
  - repeat split; try discriminate.
    exists [EvOpen path; EvHttp "POST" upload_url].
    cbn. rewrite <- app_assoc. now repeat split.
  - unfold http_StatusOK. destruct (code =? 200); cbn [negb fst snd ret].
    + repeat split; try reflexivity.
      exists [EvOpen path; EvHttp "POST" upload_url;
              EvPrintf "File %s uploaded successfully\n" [AStr path]].
      cbn. rewrite <- !app_assoc. now repeat split.
    + repeat split; try discriminate.
      exists [EvOpen path; EvHttp "POST" upload_url].
      cbn. rewrite <- app_assoc. now repeat split.
Qed.

Lemma filter_app_nil_l {A : Type} (f : A -> bool) (t t' : list A) :
  filter f t = [] -> filter f (t ++ t') = filter f t'.
Proof. intro H. now rewrite filter_app, H. Qed.

(** The run of [processItem] when the output file is absent and the write
    goes through: what holds whether the upload succeeds or not. *)
Lemma processItem_absent item w :
  fs_lookup (outputFilePath item) w = None ->
  hd None (write_faults w) = None ->
  let w' := snd (processItem item w) in
  (fst (processItem item w) = None <-> store_accepts w = true)
  /\ fs w' = (outputFilePath item,
              RegularFile (formattedItem item (enriched w))) :: fs w
  /\ rows w' = rows w
  /\ exists t, trace w' = trace w ++ t
               /\ filter is_request t = [EvHttp "POST" upload_url]
               /\ In (EvWriteFile (outputFilePath item)
                        (formattedItem item (enriched w))) t.
Proof.
  intros Hfs Hwf w'.
  destruct (processItem_writes item w Hfs Hwf)
    as (w1 & t1 & Hrun & Hfs1 & Hr1 & Hh1 & Ht1 & Hq1 & Hin1).
  subst w'. rewrite Hrun.
  pose proof (fs_lookup_written _ _ _ _ Hfs1) as Hreg.
  destruct (uploadFile_regular _ _ _ Hreg) as (Hok & Hfs2 & Hr2 & t2 & Ht2 & Hq2 & _).
  assert (Hacc : store_accepts w1 = store_accepts w)
    by (unfold store_accepts; now rewrite Hh1).
  destruct (uploadFile (outputFilePath item) w1) as [[e|] w2];
    cbn [fst snd] in *; unfold bind, Printf, emit; cbn [fst snd ret fs rows trace].
  - split; [rewrite <- Hacc, <- Hok; split; discriminate|].
    split; [congruence|]. split; [congruence|].
    eexists (t1 ++ t2 ++ [_]). split; [rewrite Ht2, Ht1, <- !app_assoc; reflexivity|].
    split.
    + rewrite (filter_app_nil_l _ _ _ Hq1), filter_app, Hq2. reflexivity.
    + apply in_or_app. now left.
  - split; [rewrite <- Hacc, <- Hok; now split|].
    split; [congruence|]. split; [congruence|].
    eexists (t1 ++ t2 ++ [_]). split; [rewrite Ht2, Ht1, <- !app_assoc; reflexivity|].
    split.
    + rewrite (filter_app_nil_l _ _ _ Hq1), filter_app, Hq2. reflexivity.
    + apply in_or_app. now left.
Qed.

(** X9: the first publication.  With the output file absent, the write not
    failed and the store answering 200, [processItem] returns no error
    whether the enrichment succeeded or not; the file then holds the
    document built from the item and from whatever the enrichment gave;
    exactly one request was sent, the POST of the upload; the table is
    untouched; and a second call returns at the file check. *)
Theorem processItem_publishes (item : Item.t) (w : World) :
  fs_lookup (outputFilePath item) w = None ->
  hd None (write_faults w) = None ->
  store_accepts w = true ->
  let w' := snd (processItem item w) in
  fst (processItem item w) = None
  /\ fs w' = (outputFilePath item,
              RegularFile (formattedItem item (enriched w))) :: fs w
  /\ rows w' = rows w
  /\ (exists t, trace w' = trace w ++ t
                /\ filter is_request t = [EvHttp "POST" upload_url]
                /\ In (EvWriteFile (outputFilePath item)
                         (formattedItem item (enriched w))) t)
  /\ processItem item w' = (None, snd (emit (EvStat (outputFilePath item)) w')).
Proof.
  intros Hfs Hwf Hacc w'.
  destruct (processItem_absent item w Hfs Hwf) as (Hok & Hfs' & Hr & Ht).
  fold w' in Hok, Hfs', Hr, Ht.
  split; [now apply Hok|]. split; [exact Hfs'|]. split; [exact Hr|].
  split; [exact Ht|].
  apply processItem_present with (formattedItem item (enriched w)).
  now apply fs_lookup_written with (fs w).
Qed.

(** X10: an upload that fails is not tried again.  With the output file
    absent and the write not failed, when the store does not answer the
    upload with 200, [processItem] returns an error but the file it wrote
    stays on disk; so the next call for the item finds the file and returns
    success without any request: the document never reaches the store. *)
Theorem failed_upload_is_not_retried (item : Item.t) (w : World) :
  fs_lookup (outputFilePath item) w = None ->
  hd None (write_faults w) = None ->
  store_accepts w = false ->
  let w' := snd (processItem item w) in
  (exists e, fst (processItem item w) = Some e)
  /\ is_regular (outputFilePath item) w' = true
  /\ forall v, fs v = fs w' ->
       processItem item v = (None, snd (emit (EvStat (outputFilePath item)) v)).
Proof.
  intros Hfs Hwf Hacc w'.
  destruct (processItem_absent item w Hfs Hwf) as (Hok & Hfs' & _).
  fold w' in Hok, Hfs'.
  assert (Hreg : fs_lookup (outputFilePath item) w'
                 = Some (RegularFile (formattedItem item (enriched w))))
    by now apply fs_lookup_written with (fs w).
  split.
  - destruct (fst (processItem item w)) as [e|]; [now exists e|].
    rewrite (proj1 Hok eq_refl) in Hacc. discriminate.
  - split; [unfold is_regular; now rewrite Hreg|].
    intros v Hv. apply processItem_present with (formattedItem item (enriched w)).
    unfold fs_lookup in *. now rewrite Hv.
Qed.

(** X11: a write that fails stops the item before the upload.  With the
    output file absent, when [ioutil.WriteFile] fails, [processItem]
    returns an error that wraps the failure; the table is as before, no
    request is sent and no file is opened for an upload.  If the file
    could not be opened for writing the local files are as before.  If
    the write failed after the file was created, the file stays behind
    with the part of the document that was written, possibly none, and
    from then on [processItem] takes it for the finished document:
    it returns success at the file check, so the item is neither written
    again nor uploaded. *)
Theorem failed_write_sends_nothing
    (item : Item.t) (w : World) (fault : WriteFault)
    (rest : list (option WriteFault)) :
  fs_lookup (outputFilePath item) w = None ->
  write_faults w = Some fault :: rest ->
  let w' := snd (processItem item w) in
  fst (processItem item w)
  = Some (fmt_Errorf_w "Failed to write product file %s: %v\n"
                       [outputFilePath item] (fault_error fault))
  /\ fs w'
     = match fault with
       | FailsAtOpen _ => fs w
       | FailsAtWrite written _ =>
           (outputFilePath item, RegularFile written) :: fs w
       end
  /\ rows w' = rows w
  /\ http_replies w' = http_replies w
  /\ (exists t, trace w' = trace w ++ t
                /\ forallb (fun ev => negb (is_request ev)
                                      && match ev with EvOpen _ => false | _ => true end)
                           t = true)
  /\ (forall written e, fault = FailsAtWrite written e ->
      forall v, fs v = fs w' ->
        processItem item v = (None, snd (emit (EvStat (outputFilePath item)) v))).
Proof.
  intros Hfs Hwf w'.
  assert (Hrun :
    fst (processItem item w)
    = Some (fmt_Errorf_w "Failed to write product file %s: %v\n"
                         [outputFilePath item] (fault_error fault))
    /\ fs w'
       = match fault with
         | FailsAtOpen _ => fs w
         | FailsAtWrite written _ =>
             (outputFilePath item, RegularFile written) :: fs w
         end
    /\ rows w' = rows w
    /\ http_replies w' = http_replies w
    /\ (exists t, trace w' = trace w ++ t
                  /\ forallb (fun ev => negb (is_request ev)
                                        && match ev with EvOpen _ => false | _ => true end)
                             t = true)).
  { subst w'. unfold processItem.
    set (path := outputFilePath item) in *. clearbody path.
    unfold fileExists, os_Stat, fetchSpecification, ioutil_WriteFile,
      Printf, bind, emit, fs_lookup in *.
    cbn [fs enrich_results write_faults trace snd fst] in *.
    destruct (find _ (fs w)) as [kv|] eqn:Hfind; [discriminate|].
    cbn [ret os_IsNotExist].
    destruct (enrich_results w) as [|[data|] le];
      unfold set_enrich_results; cbn [fs enrich_results write_faults trace ret];
      rewrite Hwf; destruct fault as [e|n e]; unfold set_write_faults, set_fs;
      cbn [fs enrich_results write_faults trace ret rows http_replies fst snd];
      rewrite ?Hfind;
      cbn [fs enrich_results write_faults trace ret rows http_replies fst snd
           fault_error];
      (split; [reflexivity|]; split; [reflexivity|]; split; [reflexivity|];
       split; [reflexivity|];
       eexists; split; [rewrite <- ?app_assoc; reflexivity|reflexivity]). }
  destruct Hrun as (Herr & Hfiles & Hrows & Hreplies & Htrace).
  repeat (split; [assumption|]).
  intros written e -> v Hv.
  apply processItem_present with written.
  apply fs_lookup_written with (fs w). now rewrite Hv.
Qed.

(** ** A lookup that fails *)

(** X12: when the store fails the lookup with an error other than "no
    rows", the worker prints it and does nothing else: the table and the
    local files are as before and the only events are the query and the
    console line. *)
Theorem lookup_error_stops_worker
    (item : Item.t) (w : World) (e : error) (rest : list (option error)) :
  query_faults w = Some e :: rest ->
  e <> sql_ErrNoRows ->
  rows (snd (worker item w)) = rows w
  /\ fs (snd (worker item w)) = fs w
  /\ http_replies (snd (worker item w)) = http_replies w
  /\ trace (snd (worker item w))
     = trace w ++ [EvQuery (Item.ID item);
                   EvPrintf "Error checking product existence: %v" [AErr e]].
Proof.
  intros Hq Hne.
  unfold worker, productExists, db_QueryRow_Scan, bind, emit, Printf, emit.
  cbn [query_faults]. rewrite Hq.
  destruct e; try contradiction; cbn; rewrite <- app_assoc; now repeat split.
Qed.

(** ** What a worker may do to the local files and to the statuses *)

Create HintDb frame2.

Ltac frame_by rfl trs :=
  repeat
    (lazymatch goal with
     | |- preserves _ (ret _) => apply preserves_ret; exact rfl
     | |- preserves _ (bind _ _) => apply preserves_bind; [exact trs | | intro]
     | |- preserves _ (retry_loop _ _ _ _) =>
         apply preserves_retry_loop; [exact rfl | exact trs | | intro]
     | |- preserves _ (match ?x with _ => _ end) => destruct x
     | |- _ => solve [eauto with frame frame2]
     end).

Lemma files_step_refl path w : files_step path w w.
Proof. exists []. now split. Qed.

Lemma files_step_trans path a b c :
  files_step path a b -> files_step path b c -> files_step path a c.
Proof.
  intros (l1 & H1 & F1) (l2 & H2 & F2). exists (l2 ++ l1).
  rewrite H2, H1, app_assoc. split; [reflexivity|]. apply Forall_app. now split.
Qed.

Lemma same_fs_files_step {A : Type} path (m : M A) :
  preserves same_fs m -> preserves (files_step path) m.
Proof.
  apply preserves_weaken. intros w w' H. exists []. now split.
Qed.

Lemma os_Stat_same_fs p : preserves same_fs (os_Stat p).
Proof. prim; reflexivity. Qed.

Lemma os_Open_same_fs p : preserves same_fs (os_Open p).
Proof. prim; reflexivity. Qed.

Lemma fetchSpecification_same_fs u : preserves same_fs (fetchSpecification u).
Proof. prim; reflexivity. Qed.

Lemma ioutil_WriteFile_files_step path content :
  preserves (files_step path) (ioutil_WriteFile path content).
Proof.
  prim; first [ exists []; split; [reflexivity|constructor]
              | eexists [(path, _)]; split; [reflexivity|now constructor] ].
Qed.

#[local] Hint Resolve os_Stat_same_fs os_Open_same_fs fetchSpecification_same_fs
  same_fs_files_step ioutil_WriteFile_files_step : frame2.

Lemma fileExists_same_fs p : preserves same_fs (fileExists p).
Proof. unfold fileExists. frame_by same_fs_refl same_fs_trans. Qed.

Lemma uploadFile_same_fs p : preserves same_fs (uploadFile p).
Proof. unfold uploadFile. frame_by same_fs_refl same_fs_trans. Qed.

#[local] Hint Resolve fileExists_same_fs uploadFile_same_fs
  updateProductStatus_same_fs insertProduct_same_fs : frame2.

Lemma processItem_files_step item :
  preserves (files_step (outputFilePath item)) (processItem item).
Proof.
  unfold processItem.
  frame_by (files_step_refl (outputFilePath item))
           (files_step_trans (outputFilePath item)).
Qed.

#[local] Hint Resolve processItem_files_step : frame2.

Lemma worker_files_step item :
  preserves (files_step (outputFilePath item)) (worker item).
Proof.
  unfold worker, insert_then_process.
  frame_by (files_step_refl (outputFilePath item))
           (files_step_trans (outputFilePath item)).
Qed.

Lemma files_step_lookup path p w w' :
  files_step path w w' -> p <> path -> fs_lookup p w' = fs_lookup p w.
Proof.
  intros (l & Hl & Hall) Hp. unfold fs_lookup. rewrite Hl. clear Hl.
  induction Hall as [|kv l Hkv Hall IH]; [reflexivity|]. cbn.
  destruct (String.eqb (fst kv) p) eqn:He; [|exact IH].
  apply String.eqb_eq in He. congruence.
Qed.

(** X13: a worker writes no file but the output file of its own item, and
    so does the whole run: under every interleaving, at every point, a path
    that is the output path of no item of the feed holds what it held at
    the start. *)
Theorem run_keeps_other_files
    (items : list Item.t) (w : World) (s : list Choice) (p : string) :
  (forall item, In item items -> outputFilePath item <> p) ->
  fs_lookup p (world (run_schedule s (processXMLData items w))) = fs_lookup p w
  /\ forall item v, outputFilePath item <> p ->
       fs_lookup p (snd (worker item v)) = fs_lookup p v.
Proof.
  intro Hp. split.
  - destruct (run_schedule_invariant items
                (fun v => fs_lookup p v = fs_lookup p w)) with
      (s := s) (r := processXMLData items w) as [_ H].
    + intros item v Hin Hv. rewrite <- Hv.
      apply files_step_lookup with (outputFilePath item);
        [apply worker_files_step|].
      intro Heq. now apply (Hp item Hin).
    + apply Inv_start.
    + reflexivity.
    + exact H.
  - intros item v Hne.
    apply files_step_lookup with (outputFilePath item);
      [apply worker_files_step|]. congruence.
Qed.

Lemma statuses_kept_refl w : statuses_kept w w.
Proof. intro H. exact H. Qed.

Lemma statuses_kept_trans a b c :
  statuses_kept a b -> statuses_kept b c -> statuses_kept a c.
Proof. unfold statuses_kept. auto. Qed.

Lemma same_table_statuses_kept {A : Type} (m : M A) :
  preserves same_table m -> preserves statuses_kept m.
Proof.
  apply preserves_weaken. intros w w' [Hr _] H.
  unfold statuses_known in *. now rewrite Hr.
Qed.

Lemma run_stmt_statuses_kept q w :
  writes_known_status q -> statuses_kept w (snd (run_stmt q w)).
Proof.
  intros Hq H. unfold statuses_known in *.
  destruct q as [|p|s pr c]; cbn [run_stmt].
  - cbn. apply Forall_map. apply Forall_forall. reflexivity.
  - destruct (unique_code_is_key w && _); cbn; [exact H|].
    apply Forall_app. split; [exact H|]. constructor; [exact Hq|constructor].
  - cbn. apply Forall_map. apply Forall_impl with (2 := H).
    intros r Hr. destruct (has_code c r); [exact Hq|exact Hr].
Qed.

Lemma db_Exec_statuses_kept q :
  writes_known_status q -> preserves statuses_kept (db_Exec q).
Proof.
  intros Hq w. unfold db_Exec, bind, emit. cbn [exec_faults].
  destruct (exec_faults w) as [|[e|] l].
  - intro H. now apply (run_stmt_statuses_kept q _ Hq).
  - intro H. exact H.
  - intro H. now apply (run_stmt_statuses_kept q _ Hq).
Qed.

#[local] Hint Resolve same_table_statuses_kept db_Exec_statuses_kept : frame2.
#[local] Hint Extern 1 (writes_known_status _) => reflexivity : frame2.

Lemma executeWithRetry_statuses_kept q :
  writes_known_status q -> preserves statuses_kept (executeWithRetry q).
Proof.
  intro Hq. unfold executeWithRetry, time_Sleep.
  frame_by statuses_kept_refl statuses_kept_trans.
Qed.

#[local] Hint Resolve executeWithRetry_statuses_kept : frame2.

Lemma worker_statuses_kept item : preserves statuses_kept (worker item).
Proof.
  unfold worker, insert_then_process, insertProduct, updateProductStatus.
  frame_by statuses_kept_refl statuses_kept_trans.
Qed.

(** X14: the statuses stay among the four tags.  A worker that finds every
    status of the table among [new], [existing], [updated] and [deleted]
    leaves it so; and whatever the table held before, once the marking has
    succeeded every status is one of the four at every point of the run,
    under every interleaving. *)
Theorem statuses_stay_known
    (items : list Item.t) (s : list Choice) (w : World) (r : Run) :
  main items s w = Some r ->
  statuses_known (world r)
  /\ forall item v, statuses_known v -> statuses_known (snd (worker item v)).
Proof.
  intro Hmain. split; [|intros item v; apply worker_statuses_kept].
  destruct (main_completes items s w r Hmain) as (w1 & Hmark & ->).
  destruct (markAllRecordsAsDeleted_outcome w w1 Hmark) as [Hrows _].
  destruct (run_schedule_invariant items statuses_known) with
    (s := s) (r := processXMLData items w1) as [_ H].
  - intros item v _. apply worker_statuses_kept.
  - apply Inv_start.
  - unfold statuses_known. cbn [world processXMLData]. rewrite Hrows.
    apply Forall_map. apply Forall_forall. reflexivity.
  - exact H.
Qed.

(** ** The run is a sequence of workers *)

Lemma run_schedule_keeps (P : Run -> Prop) :
  (forall c r r', step c r = Some r' -> P r -> P r') ->
  forall s r, P r -> P (run_schedule s r).
Proof.
  intro Hstep. induction s as [|c s IH]; intros r Hr; [exact Hr|].
  cbn [run_schedule]. destruct (step c r) as [r'|] eqn:Hc.
  - apply IH. now apply (Hstep c r r').
  - now apply IH.
Qed.

Lemma processed_app gs gs' : processed (gs ++ gs') = processed gs ++ processed gs'.
Proof. unfold processed. now rewrite filter_app, map_app. Qed.

Lemma processed_set_phase_same gs :
  forall k item ph ph',
    nth_error gs k = Some (item, ph) -> body_run ph' = body_run ph ->
    processed (set_phase k ph' gs) = processed gs.
Proof.
  induction gs as [|[i p] gs IH]; intros k item ph ph' Hk Hb.
  - destruct k; discriminate.
  - destruct k as [|k]; cbn in Hk.
    + injection Hk as -> ->. unfold processed. cbn. rewrite Hb.
      now destruct (body_run ph).
    + unfold processed in *. cbn. specialize (IH k item ph ph' Hk Hb).
      destruct (body_run p); cbn; now rewrite IH.
Qed.

Lemma processed_set_phase_done gs :
  forall k item ph ph',
    nth_error gs k = Some (item, ph) ->
    body_run ph = false -> body_run ph' = true ->
    Permutation (item :: processed gs) (processed (set_phase k ph' gs)).
Proof.
  induction gs as [|[i p] gs IH]; intros k item ph ph' Hk Hb Hb'.
  - destruct k; discriminate.
  - destruct k as [|k]; cbn in Hk.
    + injection Hk as -> ->. unfold processed. cbn. rewrite Hb, Hb'.
      reflexivity.
    + specialize (IH k item ph ph' Hk Hb Hb'). unfold processed in *. cbn.
      destruct (body_run p); cbn; [|exact IH].
      eapply perm_trans; [apply perm_swap|]. now apply perm_skip.
Qed.

Lemma run_sequential_snoc order item w :
  run_sequential (order ++ [item]) w
  = snd (worker item (run_sequential order w)).
Proof. unfold run_sequential. now rewrite fold_left_app. Qed.

Lemma Permutation_fold_order {A : Type} (order order' : list A) (item : A) :
  Permutation order order' ->
  Permutation (order ++ [item]) (item :: order').
Proof.
  intro H. rewrite <- H. symmetry. apply Permutation_cons_append.
Qed.

(** The world of a run is that of its workers run in sequence, in the order
    in which their bodies ran. *)
Lemma step_sequential w0 c r r' :
  step c r = Some r' ->
  (exists order, Permutation order (processed (goroutines r))
                 /\ world r = run_sequential order w0) ->
  exists order, Permutation order (processed (goroutines r'))
                /\ world r' = run_sequential order w0.
Proof.
  intros Hstep (order & Hperm & Hw). destruct c as [|k]; cbn in Hstep.
  - unfold main_step in Hstep.
    destruct (pc r) as [[|item rest]|item rest|item rest| |];
      try discriminate;
      try (injection Hstep as <-; exists order; now split).
    + destruct (sem r <? maxWorkers); [|discriminate].
      injection Hstep as <-. exists order. now split.
    + injection Hstep as <-. exists order. cbn [goroutines world].
      rewrite processed_app. unfold processed at 2. cbn.
      rewrite app_nil_r. now split.
    + destruct (wg r =? 0); [|discriminate].
      injection Hstep as <-. exists order. now split.
  - unfold goroutine_step in Hstep.
    destruct (nth_error (goroutines r) k) as [[item ph]|] eqn:Hk; [|discriminate].
    pose proof (fun ph' => processed_set_phase_same (goroutines r) k item ph ph' Hk)
      as Hsame.
    destruct ph; cbn in Hstep.
    + destruct (mutex r); [discriminate|]. injection Hstep as <-.
      exists order. cbn [goroutines world]. rewrite Hsame by reflexivity.
      now split.
    + injection Hstep as <-. exists (order ++ [item]). cbn [goroutines world].
      split.
      * rewrite <- (processed_set_phase_done (goroutines r) k item Holding BodyDone
                      Hk eq_refl eq_refl).
        now apply Permutation_fold_order.
      * now rewrite run_sequential_snoc, Hw.
    + injection Hstep as <-. exists order. cbn [goroutines world].
      rewrite Hsame by reflexivity. now split.
    + injection Hstep as <-. exists order. cbn [goroutines world].
      rewrite Hsame by reflexivity. now split.
    + injection Hstep as <-. exists order. cbn [goroutines world].
      rewrite Hsame by reflexivity. now split.
    + discriminate.
Qed.

Lemma processed_all gs :
  Forall (fun g => unsignalled (snd g) = false) gs -> processed gs = map fst gs.
Proof.
  intro H. unfold processed. induction H as [|[i ph] gs Hg _ IH]; [reflexivity|].
  cbn in *. destruct ph; try discriminate; cbn; now rewrite IH.
Qed.

Lemma Inv_run items s w : Inv items (run_schedule s (processXMLData items w)).
Proof.
  apply (run_schedule_invariant items (fun _ => True) (fun _ _ _ _ => I) s
           (processXMLData items w) (Inv_start items w) I).
Qed.

Lemma Inv_returned items r :
  Inv items r -> pc r = Returned ->
  map fst (goroutines r) = items
  /\ Forall (fun g => unsignalled (snd g) = false) (goroutines r).
Proof.
  intros [Hsem Hcap Hwg Hitems Hret Hmx] Hpc. specialize (Hret Hpc).
  rewrite Hpc in Hitems, Hwg. cbn in Hitems, Hwg. rewrite app_nil_r in Hitems.
  split; [exact Hitems|]. apply tally_zero_Forall. lia.
Qed.

(** X15: a run is a sequence of workers.  Under every interleaving, at
    every point, the world is the one obtained by running one after the
    other the workers of the items whose body has run, each once, in some
    order; and once [processXMLData] has returned, that is a sequential run
    over a permutation of the whole feed: every item was processed exactly
    once. *)
Theorem run_is_sequential (items : list Item.t) (w : World) (s : list Choice) :
  let r := run_schedule s (processXMLData items w) in
  (exists order, Permutation order (processed (goroutines r))
                 /\ world r = run_sequential order w)
  /\ (pc r = Returned ->
      exists order, Permutation order items
                    /\ world r = run_sequential order w).
Proof.
  intro r.
  assert (Hser : exists order, Permutation order (processed (goroutines r))
                               /\ world r = run_sequential order w).
  { subst r. apply run_schedule_keeps.
    - intros c r r'. apply step_sequential.
    - exists []. split; reflexivity. }
  split; [exact Hser|]. intro Hpc.
  destruct (Inv_returned items r (Inv_run items s w) Hpc) as [Hitems Hall].
  destruct Hser as (order & Hperm & Hw). exists order. split; [|exact Hw].
  now rewrite Hperm, (processed_all _ Hall), Hitems.
Qed.

(** ** The run ends *)

Lemma work_left_app gs gs' :
  work_left (gs ++ gs') = (work_left gs + work_left gs')%nat.
Proof.
  induction gs as [|[i ph] gs IH]; cbn; [reflexivity|]. rewrite IH. lia.
Qed.

Lemma work_left_set_phase gs :
  forall k item ph ph',
    nth_error gs k = Some (item, ph) ->
    (work_left (set_phase k ph' gs) + phase_left ph
     = work_left gs + phase_left ph')%nat.
Proof.
  induction gs as [|[i p] gs IH]; intros k item ph ph' Hk.
  - destruct k; discriminate.
  - destruct k as [|k]; cbn in *.
    + injection Hk as -> ->. lia.
    + specialize (IH k item ph ph' Hk). lia.
Qed.

(** Every statement executed is one statement less to execute. *)
Lemma step_statements_left c r r' :
  step c r = Some r' -> S (statements_left r') = statements_left r.
Proof.
  unfold statements_left. destruct c as [|k]; cbn [step].
  - unfold main_step.
    destruct (pc r) as [[|item rest]|item rest|item rest| |]; try discriminate.
    + intro H. injection H as <-. cbn. lia.
    + destruct (sem r <? maxWorkers); [|discriminate].
      intro H. injection H as <-. cbn [pc goroutines main_left List.length]. lia.
    + intro H. injection H as <-. cbn [pc goroutines main_left]. lia.
    + intro H. injection H as <-. cbn [pc goroutines main_left].
      rewrite work_left_app. cbn. lia.
    + destruct (wg r =? 0); [|discriminate].
      intro H. injection H as <-. cbn. lia.
  - unfold goroutine_step.
    destruct (nth_error (goroutines r) k) as [[item ph]|] eqn:Hk; [|discriminate].
    pose proof (fun ph' => work_left_set_phase (goroutines r) k item ph ph' Hk) as Hw.
    destruct ph; cbn [phase_left] in Hw.
    + destruct (mutex r); [discriminate|]. intro H. injection H as <-.
      cbn [pc goroutines]. specialize (Hw Holding). cbn in Hw. lia.
    + intro H. injection H as <-.
      cbn [pc goroutines]. specialize (Hw BodyDone). cbn in Hw. lia.
    + intro H. injection H as <-.
      cbn [pc goroutines]. specialize (Hw Unlocked). cbn in Hw. lia.
    + intro H. injection H as <-.
      cbn [pc goroutines]. specialize (Hw Signalled). cbn in Hw. lia.
    + intro H. injection H as <-.
      cbn [pc goroutines]. specialize (Hw Exited). cbn in Hw. lia.
    + discriminate.
Qed.

Lemma tally_pos_exists f gs :
  0 < tally f gs ->
  exists k item ph, nth_error gs k = Some (item, ph) /\ f ph = true.
Proof.
  induction gs as [|[i ph] gs IH]; cbn; [lia|]. intro H.
  destruct (f ph) eqn:Hf.
  - exists 0%nat, i, ph. now split.
  - destruct (IH ltac:(lia)) as (k & item & ph' & Hk & Hf').
    exists (S k), item, ph'. now split.
Qed.

(** A goroutine that has not ended can move, or the holder of the mutex
    can. *)
Lemma in_flight_can_step items r k item ph :
  Inv items r -> nth_error (goroutines r) k = Some (item, ph) ->
  in_flight ph = true ->
  exists c r', step c r = Some r'.
Proof.
  intros Hinv Hk Hph.
  assert (Hmove : forall k' item' ph',
             nth_error (goroutines r) k' = Some (item', ph') ->
             in_flight ph' = true -> ph' <> Spawned ->
             exists c r', step c r = Some r').
  { intros k' item' ph' Hk' Hf Hns. exists (Goroutine k').
    cbn [step]. unfold goroutine_step. rewrite Hk'.
    destruct ph'; try discriminate; try contradiction; eexists; reflexivity. }
  destruct ph; try discriminate;
    try (apply (Hmove k item _ Hk eq_refl); discriminate).
  destruct (mutex r) eqn:Hm.
  - destruct Hinv as [_ _ _ _ _ Hmx]. rewrite Hm in Hmx.
    destruct (tally_pos_exists in_critical (goroutines r) ltac:(lia))
      as (k' & item' & ph' & Hk' & Hc).
    apply (Hmove k' item' ph' Hk'); destruct ph'; try discriminate; reflexivity.
  - exists (Goroutine k). cbn [step]. unfold goroutine_step.
    rewrite Hk, Hm. eexists. reflexivity.
Qed.

(** No deadlock: as long as the main thread has not returned, somebody can
    move. *)
Lemma Inv_can_step items r :
  Inv items r -> pc r <> Returned -> exists c r', step c r = Some r'.
Proof.
  intros Hinv Hpc.
  pose proof Hinv as [Hsem Hcap Hwg Hitems Hret Hmx].
  assert (Hgo : forall f, 0 < tally f (goroutines r) ->
                          (forall ph, f ph = true -> in_flight ph = true) ->
                          exists c r', step c r = Some r').
  { intros f Hpos Himp.
    destruct (tally_pos_exists f (goroutines r) Hpos) as (k & item & ph & Hk & Hf).
    apply (in_flight_can_step items r k item ph Hinv Hk). now apply Himp. }
  destruct (pc r) as [[|item rest]|item rest|item rest| |] eqn:Hp;
    try (exists Main; cbn [step]; unfold main_step; rewrite Hp;
         eexists; reflexivity).
  - destruct (sem r <? maxWorkers) eqn:Hlt.
    + exists Main. cbn [step]. unfold main_step. rewrite Hp, Hlt.
      eexists. reflexivity.
    + apply Z.ltb_ge in Hlt. cbn in Hsem.
      apply (Hgo in_flight); [unfold maxWorkers in *; lia|auto].
  - destruct (wg r =? 0) eqn:Hz.
    + exists Main. cbn [step]. unfold main_step. rewrite Hp, Hz.
      eexists. reflexivity.
    + apply Z.eqb_neq in Hz. cbn in Hwg.
      pose proof (tally_nonneg unsignalled (goroutines r)).
      apply (Hgo unsignalled); [lia|]. intros ph; now destruct ph.
  - contradiction.
Qed.

Lemma Inv_step items c r r' : Inv items r -> step c r = Some r' -> Inv items r'.
Proof.
  intros Hinv Hstep. destruct c as [|k]; cbn in Hstep.
  - now destruct (Inv_main_step items r r' Hinv Hstep).
  - now destruct (Inv_goroutine_step items k r r' Hinv Hstep).
Qed.

Lemma Inv_completes items (n : nat) :
  forall r, Inv items r -> (statements_left r <= n)%nat ->
    exists s, pc (run_schedule s r) = Returned /\ (List.length s <= n)%nat.
Proof.
  induction n as [|n IH]; intros r Hinv Hn.
  - exists []. split; [|cbn; lia]. cbn.
    destruct (pc r) eqn:Hp; try reflexivity;
      unfold statements_left in Hn; rewrite Hp in Hn; cbn in Hn; lia.
  - destruct (pc r) eqn:Hp;
      try (destruct (Inv_can_step items r Hinv ltac:(rewrite Hp; discriminate))
            as (c & r' & Hstep);
           pose proof (step_statements_left c r r' Hstep) as Hdec;
           destruct (IH r' (Inv_step items c r r' Hinv Hstep) ltac:(lia))
             as (s & Hs & Hlen);
           exists (c :: s); cbn [run_schedule List.length]; rewrite Hstep;
           split; [exact Hs|lia]).
    exists []. split; [exact Hp|cbn; lia].
Qed.

Lemma run_schedule_statements_left s :
  forall r, (statements_left (run_schedule s r) <= statements_left r)%nat.
Proof.
  induction s as [|c s IH]; intro r; cbn [run_schedule]; [lia|].
  destruct (step c r) as [r'|] eqn:Hstep; [|apply IH].
  pose proof (step_statements_left c r r' Hstep). specialize (IH r'). lia.
Qed.

(** X16: the run ends.  At every point of every interleaving of
    [processXMLData], as long as the main thread has not returned some
    thread can execute its next statement (no deadlock on the channel, the
    mutex or the wait group); every statement executed leaves one less to
    execute; so from that point at most [8 * n + 2] further statements, for
    a feed of [n] items, bring the main thread past [wg.Wait]. *)
Theorem run_ends (items : list Item.t) (w : World) (s : list Choice) :
  let r := run_schedule s (processXMLData items w) in
  (pc r <> Returned -> exists c r', step c r = Some r')
  /\ (forall c r', step c r = Some r' ->
        S (statements_left r') = statements_left r)
  /\ exists s', pc (run_schedule s' r) = Returned
                /\ (List.length s' <= 8 * List.length items + 2)%nat.
Proof.
  intro r. pose proof (Inv_run items s w) as Hinv. fold r in Hinv.
  split; [now apply Inv_can_step with items|].
  split; [intros c r'; apply step_statements_left|].
  apply Inv_completes with items; [exact Hinv|].
  subst r. etransitivity; [apply run_schedule_statements_left|].
  unfold statements_left. cbn. lia.
Qed.

(** ** The output path of an item *)

Lemma has_slash_append a b : has_slash (a ++ b) = has_slash a || has_slash b.
Proof.
  induction a as [|c a IH]; [reflexivity|]. cbn. rewrite IH.
  now destruct (Ascii.eqb c "/").
Qed.

Lemma append_assoc_string (a b c : string) :
  ((a ++ b) ++ c = a ++ (b ++ c))%string.
Proof. induction a as [|x a IH]; [reflexivity|]. cbn. now rewrite IH. Qed.

Lemma split_slash_plain s :
  forall cur, has_slash s = false -> split_slash s cur = [(cur ++ s)%string].
Proof.
  induction s as [|c s IH]; intros cur H; cbn in *.
  - f_equal. clear H. induction cur as [|x cur IHc]; [reflexivity|].
    cbn. f_equal. exact IHc.
  - apply orb_false_iff in H as [Hc Hs]. rewrite Hc, (IH _ Hs).
    f_equal. apply append_assoc_string.
Qed.

Lemma length_append_string (a b : string) :
  String.length (a ++ b) = (String.length a + String.length b)%nat.
Proof. induction a as [|x a IH]; [reflexivity|]. cbn. now rewrite IH. Qed.

Lemma append_inv_tail_string (s : string) :
  forall a b : string, (a ++ s = b ++ s)%string -> a = b.
Proof.
  induction a as [|x a IH]; intros [|y b] H; cbn in H.
  - reflexivity.
  - apply (f_equal String.length) in H. cbn in H.
    rewrite length_append_string in H. lia.
  - apply (f_equal String.length) in H. cbn in H.
    rewrite length_append_string in H. lia.
  - injection H as -> H. f_equal. now apply IH.
Qed.

Lemma outputFilePath_plain item :
  has_slash (Item.ID item) = false ->
  outputFilePath item = ("product/Prod_" ++ Item.ID item ++ ".txt")%string.
Proof.
  intro H. unfold outputFilePath, filepath_Join, folderPath.
  set (id := Item.ID item) in *. clearbody id.
  cbn [filter String.eqb negb append Ascii.eqb Bool.eqb].
  unfold filepath_Clean. cbn [String.concat append].
  cbn [split_slash Ascii.eqb Bool.eqb append].
  assert (Hs : has_slash (id ++ ".txt") = false)
    by (rewrite has_slash_append, H; reflexivity).
  rewrite (split_slash_plain _ "Prod_" Hs).
  reflexivity.
Qed.

(** The same path for two identifiers: the cleaning of the path removes
    [x/..]. *)
Example outputFilePath_collision :
  outputFilePath (sample_item "x/../Prod_b" 1%float)
  = outputFilePath (sample_item "b" 1%float).
Proof. reflexivity. Qed.

(** X17: for an identifier without a slash the output path is
    [product/Prod_<id>.txt], so two such identifiers that differ have
    different output paths. *)
Theorem outputFilePath_injective (item item' : Item.t) :
  has_slash (Item.ID item) = false ->
  has_slash (Item.ID item') = false ->
  outputFilePath item = ("product/Prod_" ++ Item.ID item ++ ".txt")%string
  /\ (outputFilePath item = outputFilePath item' -> Item.ID item = Item.ID item').
Proof.
  intros H H'. split; [now apply outputFilePath_plain|].
  rewrite (outputFilePath_plain item H), (outputFilePath_plain item' H').
  intro Heq. cbn in Heq. injection Heq as Heq.
  now apply append_inv_tail_string with ".txt"%string.
Qed.

(** ** No record is ever removed *)

Lemma rows_stay_refl w : rows_stay w w.
Proof. exists []. now rewrite app_nil_r. Qed.

Lemma rows_stay_trans a b c : rows_stay a b -> rows_stay b c -> rows_stay a c.
Proof.
  intros [l1 H1] [l2 H2]. exists (l1 ++ l2). now rewrite H2, H1, app_assoc.
Qed.

Lemma same_table_rows_stay {A : Type} (m : M A) :
  preserves same_table m -> preserves rows_stay m.
Proof.
  apply preserves_weaken. intros w w' [Hr _]. exists [].
  unfold keys_and_parts. now rewrite Hr, app_nil_r.
Qed.

Lemma run_stmt_rows_stay q w : rows_stay w (snd (run_stmt q w)).
Proof.
  unfold rows_stay, keys_and_parts. destruct q as [|p|s pr c]; cbn [run_stmt].
  - exists []. cbn. rewrite app_nil_r, map_map. now apply map_ext.
  - destruct (unique_code_is_key w && _); cbn.
    + exists []. now rewrite app_nil_r.
    + eexists. rewrite map_app. reflexivity.
  - exists []. cbn. rewrite app_nil_r, map_map. apply map_ext.
    intro r. now destruct (has_code c r).
Qed.

Lemma db_Exec_rows_stay q : preserves rows_stay (db_Exec q).
Proof.
  intro w. unfold db_Exec, bind, emit. cbn [exec_faults].
  destruct (exec_faults w) as [|[e|] l].
  - eapply rows_stay_trans; [|apply run_stmt_rows_stay].
    exists []. now rewrite app_nil_r.
  - exists []. now rewrite app_nil_r.
  - eapply rows_stay_trans; [|apply run_stmt_rows_stay].
    exists []. now rewrite app_nil_r.
Qed.

#[local] Hint Resolve same_table_rows_stay db_Exec_rows_stay : frame2.

Lemma worker_rows_stay item : preserves rows_stay (worker item).
Proof.
  unfold worker, insert_then_process, insertProduct, updateProductStatus,
    executeWithRetry, time_Sleep.
  frame_by rows_stay_refl rows_stay_trans.
Qed.

(** X18: the statements of the program remove no record.  The program
    sends no DELETE statement, so a row can only go through what the
    schema attaches to an INSERT or an UPDATE.  For the two schemas of
    [run_stmt], a table without a key on the identifier and a table whose
    key refuses a second row, and whatever the store and the network
    answer, the marking, every worker and the whole run, under every
    interleaving, keep every row of the table in its place with its
    identifier and its part number; rows are only added at the end, so
    the table never shrinks.  A schema that replaces the old row on a
    conflict, or that carries a trigger, is outside [run_stmt] and outside
    this statement. *)
Theorem records_are_never_removed
    (items : list Item.t) (s : list Choice) (w : World) :
  rows_stay w (snd (markAllRecordsAsDeleted w))
  /\ (forall item, rows_stay w (snd (worker item w)))
  /\ rows_stay w (world (run_schedule s (processXMLData items w)))
  /\ (List.length (rows w)
      <= List.length (rows (world (run_schedule s (processXMLData items w)))))%nat.
Proof.
  assert (Hrun : rows_stay w (world (run_schedule s (processXMLData items w)))).
  { destruct (run_schedule_invariant items (rows_stay w)) with
      (s := s) (r := processXMLData items w) as [_ H].
    - intros item v _ Hv. apply rows_stay_trans with v; [exact Hv|].
      apply worker_rows_stay.
    - apply Inv_start.
    - apply rows_stay_refl.
    - exact H. }
  split; [apply db_Exec_rows_stay|]. split; [intro; apply worker_rows_stay|].
  split; [exact Hrun|].
  destruct Hrun as [l Hl]. apply (f_equal (@List.length _)) in Hl.
  unfold keys_and_parts in Hl. rewrite length_app, !length_map in Hl. lia.
Qed.

(** ** At most one upload and one removal for an item *)

Lemma count_app P t t' : count P (t ++ t') = (count P t + count P t')%nat.
Proof. unfold count. now rewrite filter_app, length_app. Qed.

Lemma at_most_then n m P a b c :
  at_most n P a b -> at_most m P b c -> at_most (n + m) P a c.
Proof.
  intros (t1 & H1 & C1) (t2 & H2 & C2). exists (t1 ++ t2).
  rewrite H2, H1, app_assoc, count_app. split; [reflexivity|lia].
Qed.

Lemma emits_at_most_0 P w w' :
  emits (fun e => negb (P e)) w w' -> at_most 0 P w w'.
Proof.
  intros (t & Ht & Hp). exists t. split; [exact Ht|].
  unfold count. clear Ht. induction t as [|e t IH]; [cbn; lia|].
  cbn in *. apply andb_true_iff in Hp as [He Hp].
  destruct (P e); [discriminate|]. now apply IH.
Qed.

Lemma at_most_bind_0_l {A B : Type} n P (m : M A) (k : A -> M B) :
  preserves (emits (fun e => negb (P e))) m ->
  (forall a, preserves (at_most n P) (k a)) ->
  preserves (at_most n P) (bind m k).
Proof.
  intros Hm Hk w. unfold bind. specialize (Hm w).
  destruct (m w) as [a w1]. cbn [snd] in Hm.
  apply (at_most_then 0 n P w w1); [now apply emits_at_most_0|apply Hk].
Qed.

Lemma at_most_bind_0_r {A B : Type} n P (m : M A) (k : A -> M B) :
  preserves (at_most n P) m ->
  (forall a, preserves (emits (fun e => negb (P e))) (k a)) ->
  preserves (at_most n P) (bind m k).
Proof.
  intros Hm Hk w. unfold bind. specialize (Hm w).
  destruct (m w) as [a w1]. cbn [snd] in Hm.
  replace n with (n + 0)%nat by lia.
  apply (at_most_then n 0 P w w1); [exact Hm|]. apply emits_at_most_0, Hk.
Qed.

Lemma at_most_of_emits {A : Type} n P (m : M A) :
  preserves (emits (fun e => negb (P e))) m -> preserves (at_most n P) m.
Proof.
  intros Hm w. destruct (emits_at_most_0 P _ _ (Hm w)) as (t & Ht & Hc).
  exists t. split; [exact Ht|lia].
Qed.

Lemma client_Do_at_most_1 P method url :
  preserves (at_most 1 P) (client_Do method url).
Proof.
  intro w. exists [EvHttp method url]. split.
  - unfold client_Do, bind, emit. cbn [http_replies].
    destruct (http_replies w); reflexivity.
  - unfold count. cbn. destruct (P _); cbn; lia.
Qed.

Section EmitsMore.
Variable P : Event -> bool.

Lemma os_Open_emits p : P (EvOpen p) = true -> preserves (emits P) (os_Open p).
Proof. intro He. prim; (eapply emits_one; [reflexivity|eassumption]). Qed.

Lemma ioutil_WriteFile_emits p c :
  P (EvWriteFile p c) = true -> preserves (emits P) (ioutil_WriteFile p c).
Proof. intro He. prim; (eapply emits_one; [reflexivity|eassumption]). Qed.

Lemma fetchSpecification_emits u :
  P (EvEnrich u) = true -> preserves (emits P) (fetchSpecification u).
Proof. intro He. prim; (eapply emits_one; [reflexivity|eassumption]). Qed.
End EmitsMore.

#[local] Hint Resolve os_Open_emits ioutil_WriteFile_emits
  fetchSpecification_emits : frame2.

(** Follows the shape of a term that sends at most [n] events of a class:
    a part that sends none is passed over, on either side of the part that
    may send some. *)
Ltac no_post :=
  solve [ cbv delta [executeWithRetry time_Sleep];
          frame_by (@emits_refl (fun e => negb (is_post e)))
                   (@emits_trans (fun e => negb (is_post e))) ].

Ltac no_delete :=
  solve [ cbv delta [executeWithRetry time_Sleep];
          frame_by (@emits_refl (fun e => negb (is_delete e)))
                   (@emits_trans (fun e => negb (is_delete e))) ].

(** Follows the shape of a term that sends at most [n] events of a class:
    a part that sends none is passed over, on either side of the part that
    may send some. *)
Ltac at_most_frame :=
  repeat
    (first
       [ solve [ apply at_most_of_emits; first [no_post | no_delete] ]
       | apply client_Do_at_most_1
       | apply at_most_bind_0_l; [ first [no_post | no_delete] | intro ]
       | apply at_most_bind_0_r; [ | intro; first [no_post | no_delete] ]
       | match goal with
         | |- preserves _ (match ?x with _ => _ end) => destruct x
         end ]).

Lemma uploadFile_at_most_1_post p : preserves (at_most 1 is_post) (uploadFile p).
Proof. unfold uploadFile. at_most_frame. Qed.

#[local] Hint Resolve productExists_emits executeWithRetry_emits deleteFile_emits
  uploadFile_at_most_1_post : frame2.

Ltac at_most_steps :=
  repeat first [ solve [eauto with frame2] | progress at_most_frame ].

Lemma deleteFile_at_most_1_delete c :
  preserves (at_most 1 is_delete) (deleteFile c).
Proof. unfold deleteFile. at_most_steps. Qed.

Lemma processItem_no_delete item :
  preserves (emits (fun e => negb (is_delete e))) (processItem item).
Proof.
  unfold processItem, fileExists, uploadFile.
  frame_by (@emits_refl (fun e => negb (is_delete e)))
           (@emits_trans (fun e => negb (is_delete e))).
Qed.

Lemma processItem_at_most_1_post item :
  preserves (at_most 1 is_post) (processItem item).
Proof. unfold processItem, fileExists. at_most_steps. Qed.

#[local] Hint Resolve deleteFile_at_most_1_delete processItem_no_delete
  processItem_at_most_1_post : frame2.

Lemma worker_at_most_1_post item : preserves (at_most 1 is_post) (worker item).
Proof.
  unfold worker, insert_then_process, insertProduct, updateProductStatus.
  at_most_steps.
Qed.

Lemma worker_at_most_1_delete item : preserves (at_most 1 is_delete) (worker item).
Proof.
  unfold worker, insert_then_process, insertProduct, updateProductStatus.
  at_most_steps.
Qed.

Lemma at_most_weaken n m P w w' :
  (n <= m)%nat -> at_most n P w w' -> at_most m P w w'.
Proof. intros Hle (t & Ht & Hc). exists t. split; [exact Ht|lia]. Qed.

Lemma run_sequential_at_most P :
  (forall item, preserves (at_most 1 P) (worker item)) ->
  forall order w, at_most (List.length order) P w (run_sequential order w).
Proof.
  intro Hw. induction order as [|item order IH]; intro w.
  - exists []. cbn. rewrite app_nil_r. split; [reflexivity|unfold count; cbn; lia].
  - change (run_sequential (item :: order) w)
      with (run_sequential order (snd (worker item w))).
    change (List.length (item :: order)) with (1 + List.length order)%nat.
    apply at_most_then with (snd (worker item w)); [apply Hw|apply IH].
Qed.

Lemma processed_length gs : (List.length (processed gs) <= List.length gs)%nat.
Proof.
  unfold processed. rewrite length_map. apply filter_length_le.
Qed.

(** X19: at most one upload call and one removal call for an item.
    Whatever the store and the network answer, a worker calls [client.Do]
    at most once with a POST request and at most once with a DELETE
    request; so a run over a feed of [n] items has made, at every point of
    every interleaving, at most [n] calls with a POST and at most [n]
    calls with a DELETE.  This bounds the calls of the program, not the
    requests that reach the server: inside one call the client sends the
    request again for every redirect it follows. *)
Theorem client_calls_are_bounded (items : list Item.t) (w : World) (s : list Choice) :
  (forall item v,
      at_most 1 is_post v (snd (worker item v))
      /\ at_most 1 is_delete v (snd (worker item v)))
  /\ at_most (List.length items) is_post w
             (world (run_schedule s (processXMLData items w)))
  /\ at_most (List.length items) is_delete w
             (world (run_schedule s (processXMLData items w))).
Proof.
  split; [intros item v; split;
          [apply worker_at_most_1_post|apply worker_at_most_1_delete]|].
  set (r := run_schedule s (processXMLData items w)).
  assert (Hser : exists order, Permutation order (processed (goroutines r))
                               /\ world r = run_sequential order w).
  { subst r. apply run_schedule_keeps.
    - intros c r r'. apply step_sequential.
    - exists []. split; reflexivity. }
  destruct Hser as (order & Hperm & Hw).
  assert (Hlen : (List.length order <= List.length items)%nat).
  { rewrite (Permutation_length Hperm).
    etransitivity; [apply processed_length|].
    pose proof (Inv_run items s w) as [_ _ _ Hitems _ _]. fold r in Hitems.
    rewrite <- Hitems, length_app, length_map. lia. }
  rewrite Hw. split.
  - apply at_most_weaken with (List.length order); [exact Hlen|].
    apply run_sequential_at_most. apply worker_at_most_1_post.
  - apply at_most_weaken with (List.length order); [exact Hlen|].
    apply run_sequential_at_most. apply worker_at_most_1_delete.
Qed.

(** ** A new identifier whose document is already on disk *)

Lemma worker_absent_eq item w w0 p :
  productExists (Item.ID item) w = ((false, p, None), w0) ->
  worker item w =
  (let (err, w1) := insertProduct (new_product item) w0 in
   match err with
   | None => let (err', w2) := processItem item w1 in report err' w2
   | Some e => report (Some e) w1
   end).
Proof.
  intro Hlook. unfold worker. erewrite bind_eq; [|exact Hlook]. cbn iota beta.
  unfold insert_then_process, bind.
  destruct (insertProduct _ w0) as [[e|] w1]; [reflexivity|].
  destruct (processItem item w1) as [e' w2]. reflexivity.
Qed.

(** X20: an identifier that has no record but whose output file is already
    on disk is recorded and never published: the worker attempts the
    insert, and when it succeeds the row with status [new] is appended, but
    [processItem] returns at the file check, so there is no enrichment, no
    local write and no request to the document store at all. *)
Theorem new_item_document_present
    (item : Item.t) (w w0 : World) (p : float64) (content : Document) :
  productExists (Item.ID item) w = ((false, p, None), w0) ->
  fs_lookup (outputFilePath item) w = Some (RegularFile content) ->
  let w' := snd (worker item w) in
  emits_with (fun e => no_publish e && negb (is_request e))
             (EvExec (InsertRow (new_product item))) w w'
  /\ fs w' = fs w
  /\ (fst (insertProduct (new_product item) w0) = None ->
      rows w' = rows w ++ [new_product item]).
Proof.
  intros Hlook Hfs w'.
  set (Q := fun e => no_publish e && negb (is_request e)).
  pose proof (worker_absent_eq item w w0 p Hlook) as Hw.
  assert (E0 : emits Q w w0).
  { assert (H : preserves (emits Q) (productExists (Item.ID item)))
      by (apply productExists_emits; intros; reflexivity).
    specialize (H w). now rewrite Hlook in H. }
  pose proof (productExists_same_fs (Item.ID item) w) as F0.
  pose proof (productExists_same_table (Item.ID item) w) as [R0 _].
  rewrite Hlook in F0, R0. cbn [snd] in F0, R0.
  assert (E1 : emits_with Q (EvExec (InsertRow (new_product item))) w0
                 (snd (insertProduct (new_product item) w0)))
    by (apply executeWithRetry_attempts; intros; reflexivity).
  pose proof (insertProduct_same_fs (new_product item) w0) as F1.
  pose proof (executeWithRetry_outcome (InsertRow (new_product item)) w0) as Hout.
  unfold insertProduct in *.
  destruct (executeWithRetry (InsertRow (new_product item)) w0) as [e1 w1].
  cbn [fst snd] in *. specialize (Hout e1 w1 eq_refl). unfold same_fs in *.
  assert (Hfs1 : fs_lookup (outputFilePath item) w1 = Some (RegularFile content))
    by (unfold fs_lookup in *; rewrite F1, F0; exact Hfs).
  assert (Hrep : forall err v, emits Q v (snd (report err v))
                               /\ fs (snd (report err v)) = fs v
                               /\ rows (snd (report err v)) = rows v).
  { intros [e|] v; cbn; repeat split; try apply emits_refl.
    eapply emits_one; [reflexivity|reflexivity]. }
  subst w'. rewrite Hw. destruct e1 as [e|].
  - destruct (Hrep (Some e) w1) as (E2 & F2 & R2).
    split; [apply emits_then_with with w0; [exact E0|];
            now apply emits_with_then with w1|].
    split; [congruence|discriminate].
  - rewrite (processItem_present item content w1 Hfs1).
    destruct (Hrep None (snd (emit (EvStat (outputFilePath item)) w1)))
      as (E2 & F2 & R2).
    split.
    + apply emits_then_with with w0; [exact E0|].
      apply emits_with_then with w1; [exact E1|].
      eapply emits_trans; [|exact E2].
      eapply emits_one; [reflexivity|reflexivity].
    + split; [rewrite F2; cbn; congruence|].
      intros _. rewrite R2. cbn [emit snd rows].
      destruct Hout as [Hrun Hrows]. rewrite Hrows. cbn [run_stmt] in *.
      destruct (unique_code_is_key w0 && _); [discriminate|]. cbn.
      now rewrite R0.
Qed.

(** ** Witnesses: the further theorems at the sample data *)

Lemma insert_then_lookup_witness :
  fst (productExists "A"
         (snd (insertProduct (new_product (sample_item "A" 10%float)) sample_world)))
  = (true, 10%float, None).
Proof.
  pose proof (insert_then_lookup (new_product (sample_item "A" 10%float))
                sample_world eq_refl eq_refl) as H.
  cbv zeta in H. destruct H as (_ & _ & H). apply H. reflexivity.
Defined.

Lemma update_then_lookup_witness :
  fst (productExists "B"
         (snd (updateProductStatus "B" "existing" 21%float sample_world)))
  = (true, 21%float, None).
Proof.
  pose proof (update_then_lookup "B" "existing" 21%float sample_world
                eq_refl eq_refl) as H.
  cbv zeta in H. destruct H as (_ & H & _). exact H.
Defined.

Lemma markAllRecordsAsDeleted_once_witness :
  main sample_feed sample_schedule
       (set_exec_faults [Some (sqlite3_Error ErrBusy)] sample_start)
  = None.
Proof.
  pose proof (markAllRecordsAsDeleted_once
                (set_exec_faults [Some (sqlite3_Error ErrBusy)] sample_start)
                (sqlite3_Error ErrBusy) [] sample_feed sample_schedule
                eq_refl) as (_ & H & _).
  exact H.
Defined.

Lemma processItem_publishes_witness :
  fst (processItem (sample_item "A" 10%float) sample_start) = None.
Proof.
  pose proof (processItem_publishes (sample_item "A" 10%float) sample_start
                eq_refl eq_refl eq_refl) as H.
  cbv zeta in H. destruct H as (H & _). exact H.
Defined.

Lemma failed_upload_is_not_retried_witness :
  is_regular "product/Prod_A.txt"
    (snd (processItem (sample_item "A" 10%float) sample_world)) = true.
Proof.
  pose proof (failed_upload_is_not_retried (sample_item "A" 10%float)
                sample_world eq_refl eq_refl eq_refl) as H.
  cbv zeta in H. destruct H as (_ & H & _). exact H.
Defined.

Lemma failed_write_sends_nothing_witness :
  fs_lookup "product/Prod_A.txt"
    (snd (processItem (sample_item "A" 10%float)
            (set_write_faults [Some (FailsAtWrite [] (os_error ENOSPC))]
                              sample_start)))
  = Some (RegularFile [])
  /\ fst (processItem (sample_item "A" 10%float)
            (snd (processItem (sample_item "A" 10%float)
                    (set_write_faults [Some (FailsAtWrite [] (os_error ENOSPC))]
                                      sample_start))))
     = None.
Proof.
  pose proof (failed_write_sends_nothing (sample_item "A" 10%float)
                (set_write_faults [Some (FailsAtWrite [] (os_error ENOSPC))]
                                  sample_start)
                (FailsAtWrite [] (os_error ENOSPC)) [] eq_refl eq_refl) as H.
  cbv zeta in H. destruct H as (_ & Hfs & _ & _ & _ & Hnext). split.
  - unfold fs_lookup. rewrite Hfs. reflexivity.
  - rewrite (Hnext [] (os_error ENOSPC) eq_refl _ eq_refl). reflexivity.
Defined.

Lemma lookup_error_stops_worker_witness :
  rows (snd (worker (sample_item "B" 20%float)
               (set_query_faults [Some (sqlite3_Error ErrIoErr)] sample_world)))
  = rows sample_world.
Proof.
  assert (Hne : sqlite3_Error ErrIoErr <> sql_ErrNoRows) by discriminate.
  pose proof (lookup_error_stops_worker (sample_item "B" 20%float)
                (set_query_faults [Some (sqlite3_Error ErrIoErr)] sample_world)
                (sqlite3_Error ErrIoErr) [] eq_refl Hne) as (H & _).
  exact H.
Defined.

Lemma run_keeps_other_files_witness :
  fs_lookup "product/Prod_C.txt"
    (world (run_schedule sample_schedule (processXMLData sample_feed sample_start)))
  = fs_lookup "product/Prod_C.txt" sample_start.
Proof.
  assert (Hp : forall item, In item sample_feed ->
                            outputFilePath item <> "product/Prod_C.txt").
  { intros item [<-|[<-|[]]]; vm_compute; discriminate. }
  pose proof (run_keeps_other_files sample_feed sample_start sample_schedule
                "product/Prod_C.txt" Hp) as (H & _).
  exact H.
Defined.

Lemma statuses_stay_known_witness :
  statuses_known
    (world (run_schedule sample_schedule
              (processXMLData sample_feed
                 (snd (markAllRecordsAsDeleted sample_start))))).
Proof.
  pose proof (statuses_stay_known sample_feed sample_schedule sample_start
                (run_schedule sample_schedule
                   (processXMLData sample_feed
                      (snd (markAllRecordsAsDeleted sample_start))))
                eq_refl) as (H & _).
  exact H.
Defined.

Lemma outputFilePath_injective_witness :
  outputFilePath (sample_item "A" 10%float) = "product/Prod_A.txt".
Proof.
  pose proof (outputFilePath_injective (sample_item "A" 10%float)
                (sample_item "B" 20%float) eq_refl eq_refl) as (H & _).
  exact H.
Defined.

Lemma run_is_sequential_witness :
  exists order,
    Permutation order sample_feed
    /\ world (run_schedule sample_schedule (processXMLData sample_feed sample_start))
       = run_sequential order sample_start.
Proof.
  pose proof (run_is_sequential sample_feed sample_start sample_schedule) as H.
  cbv zeta in H. destruct H as (_ & H). apply H. reflexivity.
Defined.

Lemma new_item_document_present_witness :
  rows (snd (worker (sample_item "C" 5%float) (set_rows [] sample_world)))
  = [new_product (sample_item "C" 5%float)].
Proof.
  pose proof (new_item_document_present (sample_item "C" 5%float)
                (set_rows [] sample_world)
                (snd (productExists "C" (set_rows [] sample_world)))
                0%float [] eq_refl eq_refl) as H.
  cbv zeta in H. destruct H as (_ & _ & H). apply H. reflexivity.
Defined.
